(** * Lightning data pipeline: decoding, coordinate repair, counters, proximity

    A shallow embedding of the decoding pipeline of [ingest.py] and of the
    query side of [api.py], with the properties of the written
    specification stated and settled against it.

    Python [float] is IEEE binary64: it is modelled by the Standard
    Library's [spec_float] with precision 53 and maximal exponent 1024 and
    with the library's own correctly rounded operations.  Python [int] is
    [Z], [bytes] is [list byte], a numeral handed to [float()] is a
    [string], and a decoded text is the list of its code points.  What the
    sources take from outside the repository is a parameter: the Unicode
    character database, the C library behind [math], and the replies of
    the store. *)

From Stdlib Require Import ZArith NArith List String Ascii Strings.Byte Bool Lia.
From Stdlib Require Import Floats.SpecFloat DecimalString.
From Stdlib Require Import Sorting.Sorted Sorting.Permutation.
Import ListNotations.

Local Open Scope Z_scope.

(** ** Python built-ins used by the sources *)

Module Py.

Definition prec : Z := 53.
Definition emax : Z := 1024.

Definition float : Type := spec_float.

Definition fmul : float -> float -> float := SFmul prec emax.
Definition fadd : float -> float -> float := SFadd prec emax.
Definition fsub : float -> float -> float := SFsub prec emax.
Definition fneg : float -> float := SFopp.
Definition fabs : float -> float := SFabs.

Definition is_nan (x : float) : bool :=
  match x with S754_nan => true | _ => false end.

Definition is_inf (x : float) : bool :=
  match x with S754_infinity _ => true | _ => false end.

Definition is_finite (x : float) : bool :=
  match x with S754_zero _ | S754_finite _ _ _ => true | _ => false end.

Definition is_zero (x : float) : bool :=
  match x with S754_zero _ => true | _ => false end.

(** [float(n)] for an [int]: the nearest binary64, ties to even. *)
Definition float_of_int (n : Z) : float := binary_normalize prec emax n 0 false.

(** The value [n / 10^k] (negated when [neg]) rounded to the nearest
    binary64, ties to even: what [float()] returns for a decimal numeral
    with digits [n] and [k] of them after the point. *)
Definition decimal_to_float (neg : bool) (n : Z) (k : nat) : float :=
  match n with
  | Zpos p =>
      SFdiv prec emax (S754_finite neg p 0)
            (S754_finite false (Z.to_pos (10 ^ Z.of_nat k)) 0)
  | _ => S754_zero neg
  end.

(** [a / b] on floats: division by zero raises [ZeroDivisionError]. *)
Definition fdiv (a b : float) : option float :=
  if is_zero b then None else Some (SFdiv prec emax a b).

(** [a / b] on ints (true division): correctly rounded; a zero divisor
    raises [ZeroDivisionError], a quotient beyond the float range raises
    [OverflowError]. *)
Definition int_truediv (a b : Z) : option float :=
  let neg := xorb (a <? 0) (b <? 0) in
  match b with
  | Z0 => None
  | _ =>
      match a with
      | Z0 => Some (S754_zero neg)
      | _ =>
          let q := SFdiv prec emax
                         (S754_finite neg (Z.to_pos (Z.abs a)) 0)
                         (S754_finite false (Z.to_pos (Z.abs b)) 0) in
          if is_inf q then None else Some q
      end
  end.

(** Comparison of a float with an int.  Python compares the two exactly,
    without converting the int to a float; a NaN compares to nothing. *)
Definition cmp_float_int (x : float) (n : Z) : option comparison :=
  match x with
  | S754_nan => None
  | S754_infinity s => Some (if s then Lt else Gt)
  | S754_zero _ => Some (0 ?= n)
  | S754_finite s m e =>
      let v := if s then Zneg m else Zpos m in
      match e with
      | Zneg p => Some (v ?= n * 2 ^ Zpos p)
      | _ => Some (v * 2 ^ e ?= n)
      end
  end.

Definition float_gt_int (x : float) (n : Z) : bool :=
  match cmp_float_int x n with Some Gt => true | _ => false end.

Definition float_lt_int (x : float) (n : Z) : bool :=
  match cmp_float_int x n with Some Lt => true | _ => false end.

Definition float_le_int (x : float) (n : Z) : bool :=
  match cmp_float_int x n with Some Lt | Some Eq => true | _ => false end.

Definition int_gt_float (n : Z) (x : float) : bool := float_lt_int x n.

(** Comparisons between floats. *)
Definition float_lt : float -> float -> bool := SFltb.
Definition float_le : float -> float -> bool := SFleb.

(** [int(x)] for a float: truncation towards zero; raises on an infinity
    ([OverflowError]) and on a NaN ([ValueError]). *)
Definition int_of_float (x : float) : option Z :=
  match x with
  | S754_zero _ => Some 0
  | S754_finite s m e =>
      let a := match e with
               | Zneg p => Zpos m / 2 ^ Zpos p
               | _ => Zpos m * 2 ^ e
               end in
      Some (if s then - a else a)
  | _ => None
  end.

(** [str(n)] for a non-negative int. *)
Definition str_of_nonneg (n : Z) : string :=
  NilZero.string_of_uint (N.to_uint (Z.to_N n)).

(** String slices [s[:i]] and [s[i:]]. *)
Fixpoint str_take (i : nat) (s : string) : string :=
  match i, s with
  | S j, String c r => String c (str_take j r)
  | _, _ => EmptyString
  end.

Fixpoint str_drop (i : nat) (s : string) : string :=
  match i, s with
  | S j, String _ r => str_drop j r
  | _, _ => s
  end.

Definition is_ascii_digit (c : ascii) : bool :=
  let n := N_of_ascii c in ((48 <=? n) && (n <=? 57))%N.

Definition digit_value (c : ascii) : Z := Z.of_N (N_of_ascii c) - 48.

Fixpoint span_digits (s : string) : string * string :=
  match s with
  | String c r =>
      if is_ascii_digit c
      then let (d, t) := span_digits r in (String c d, t)
      else (EmptyString, s)
  | EmptyString => (EmptyString, EmptyString)
  end.

Fixpoint int_of_digits (acc : Z) (s : string) : Z :=
  match s with
  | String c r => int_of_digits (10 * acc + digit_value c) r
  | EmptyString => acc
  end.

Definition str_is_empty (s : string) : bool :=
  match s with EmptyString => true | _ => false end.

(** [float(s)] on the numerals the extractor can hand over.  Its patterns
    capture [[0-9.-]+], so a captured string holds digits, points and minus
    signs only; on such a string [float()] accepts an optional sign, digits
    and at most one point with a digit on at least one side of it, and
    raises [ValueError] (here [None]) on anything else.  The value is the
    correctly rounded one; too large a numeral gives an infinity. *)
Definition float_of_str (s : string) : option float :=
  let '(neg, body) :=
    match s with
    | String c r =>
        if Ascii.eqb c "-" then (true, r)
        else if Ascii.eqb c "+" then (false, r)
        else (false, s)
    | EmptyString => (false, s)
    end in
  let '(ip, rest) := span_digits body in
  match rest with
  | EmptyString =>
      if str_is_empty ip then None
      else Some (decimal_to_float neg (int_of_digits 0 ip) 0)
  | String c fr =>
      if Ascii.eqb c "." then
        let '(fp, rest') := span_digits fr in
        match rest' with
        | EmptyString =>
            if str_is_empty ip && str_is_empty fp then None
            else Some (decimal_to_float neg (int_of_digits 0 (ip ++ fp))
                                        (String.length fp))
        | _ => None
        end
      else None
  end.

(** Round half to even of the rational [n / d], [d > 0]. *)
Definition round_half_even (n d : Z) : Z :=
  let q := n / d in
  let r := n mod d in
  match 2 * r ?= d with
  | Lt => q
  | Gt => q + 1
  | Eq => if Z.even q then q else q + 1
  end.

(** [round(x, 2)] for a float: the exact binary value of [x] is rounded
    half to even to two decimals, and that decimal is converted back to the
    nearest float; infinities, NaN and zeros are returned as they are. *)
Definition round2 (x : float) : float :=
  match x with
  | S754_finite s m e =>
      let n := match e with
               | Zneg p => round_half_even (Zpos m * 100) (2 ^ Zpos p)
               | _ => Zpos m * 2 ^ e * 100
               end in
      decimal_to_float s n 2
  | _ => x
  end.

(** The time zone of the process: the seconds the C library's [localtime]
    adds to a UTC instant to give the local wall clock (they change with
    the instant where the zone has daylight saving).  The zone is no part
    of the repository: it is a parameter. *)
Class LocalZone : Type := {
  utcoffset : Z -> Z
}.

(** A process that runs in UTC. *)
Definition utc : LocalZone := {| utcoffset _ := 0 |}.

End Py.

(** ** Text: code points, UTF-8 and the pattern searches of [re] *)

Module Text.

(** A Python [str] is a sequence of code points. *)
Definition text : Type := list N.

Definition text_of_string (s : string) : text :=
  map N_of_ascii (list_ascii_of_string s).

(** The string of a text of ASCII code points. *)
Definition string_of_text (t : text) : string :=
  string_of_list_ascii (map ascii_of_N t).

Definition REPLACEMENT_CHARACTER : N := 0xFFFD.

Definition is_continuation (b : byte) : bool :=
  ((0x80 <=? Byte.to_N b) && (Byte.to_N b <=? 0xBF))%N.

Definition low6 (b : byte) : N := (Byte.to_N b - 0x80)%N.

(** Which second bytes may follow the lead byte [n0] of a three-byte or of
    a four-byte form. *)
Definition second_of_three (n0 : N) (b : byte) : bool :=
  let n := Byte.to_N b in
  (if n0 =? 0xE0 then (0xA0 <=? n) && (n <=? 0xBF)
   else if n0 =? 0xED then (0x80 <=? n) && (n <=? 0x9F)
   else (0x80 <=? n) && (n <=? 0xBF))%N.

Definition second_of_four (n0 : N) (b : byte) : bool :=
  let n := Byte.to_N b in
  (if n0 =? 0xF0 then (0x90 <=? n) && (n <=? 0xBF)
   else if n0 =? 0xF4 then (0x80 <=? n) && (n <=? 0x8F)
   else (0x80 <=? n) && (n <=? 0xBF))%N.

(** [bytes.decode('utf-8', errors='replace')]: every maximal ill-formed
    run of bytes becomes one U+FFFD; decoding never fails. *)
Fixpoint utf8_decode (bs : list byte) : text :=
  match bs with
  | [] => []
  | b0 :: r0 =>
      let n0 := Byte.to_N b0 in
      if (n0 <? 0x80)%N then n0 :: utf8_decode r0
      else if (n0 <? 0xC2)%N then REPLACEMENT_CHARACTER :: utf8_decode r0
      else if (n0 <? 0xE0)%N then
        match r0 with
        | b1 :: r1 =>
            if is_continuation b1
            then ((n0 - 0xC0) * 64 + low6 b1)%N :: utf8_decode r1
            else REPLACEMENT_CHARACTER :: utf8_decode r0
        | [] => [REPLACEMENT_CHARACTER]
        end
      else if (n0 <? 0xF0)%N then
        match r0 with
        | b1 :: r1 =>
            if second_of_three n0 b1 then
              match r1 with
              | b2 :: r2 =>
                  if is_continuation b2
                  then ((n0 - 0xE0) * 4096 + low6 b1 * 64 + low6 b2)%N
                         :: utf8_decode r2
                  else REPLACEMENT_CHARACTER :: utf8_decode r1
              | [] => [REPLACEMENT_CHARACTER]
              end
            else REPLACEMENT_CHARACTER :: utf8_decode r0
        | [] => [REPLACEMENT_CHARACTER]
        end
      else if (n0 <? 0xF5)%N then
        match r0 with
        | b1 :: r1 =>
            if second_of_four n0 b1 then
              match r1 with
              | b2 :: r2 =>
                  if is_continuation b2 then
                    match r2 with
                    | b3 :: r3 =>
                        if is_continuation b3
                        then ((n0 - 0xF0) * 262144 + low6 b1 * 4096
                              + low6 b2 * 64 + low6 b3)%N :: utf8_decode r3
                        else REPLACEMENT_CHARACTER :: utf8_decode r2
                    | [] => [REPLACEMENT_CHARACTER]
                    end
                  else REPLACEMENT_CHARACTER :: utf8_decode r1
              | [] => [REPLACEMENT_CHARACTER]
              end
            else REPLACEMENT_CHARACTER :: utf8_decode r0
        | [] => [REPLACEMENT_CHARACTER]
        end
      else REPLACEMENT_CHARACTER :: utf8_decode r0
  end.

Definition byte_of_N (n : N) : byte :=
  match Byte.of_N n with Some b => b | None => x00 end.

(** [str.encode('utf-8', errors='replace')]: a lone surrogate, which has
    no UTF-8 form, becomes ["?"]. *)
Definition utf8_encode_one (c : N) : list byte :=
  (if c <? 0x80 then [byte_of_N c]
   else if c <? 0x800 then
     [byte_of_N (0xC0 + c / 64); byte_of_N (0x80 + c mod 64)]
   else if (0xD800 <=? c) && (c <=? 0xDFFF) then [x3f]
   else if c <? 0x10000 then
     [byte_of_N (0xE0 + c / 4096); byte_of_N (0x80 + (c / 64) mod 64);
      byte_of_N (0x80 + c mod 64)]
   else
     [byte_of_N (0xF0 + c / 262144); byte_of_N (0x80 + (c / 4096) mod 64);
      byte_of_N (0x80 + (c / 64) mod 64); byte_of_N (0x80 + c mod 64)])%N.

Definition utf8_encode (t : text) : list byte := flat_map utf8_encode_one t.

(** The two facts of the Unicode character database the patterns and
    [int()] consult: the decimal digits (category Nd, the class [\d]) with
    their values, and the white space (the class [\s]).  The database is
    not part of the repository: it is a parameter. *)
Class UnicodeData : Type := {
  decimal_value : N -> option Z;
  is_space : N -> bool
}.

(** Its restriction to ASCII. *)
Definition ascii_data : UnicodeData := {|
  decimal_value c :=
    if ((48 <=? c) && (c <=? 57))%N then Some (Z.of_N c - 48) else None;
  is_space c :=
    (((9 <=? c) && (c <=? 13)) || ((28 <=? c) && (c <=? 32)))%N
|}.

(** The fragment of regular expressions the extractor uses: literals,
    an optional character, a starred or plussed class, and the one
    capturing group, always a plussed class. *)
Inductive item : Type :=
| Lit (cs : text)
| Opt (c : N)
| Star (p : N -> bool)
| Plus (p : N -> bool)
| Group (p : N -> bool).

Fixpoint strip_prefix (p t : text) : option text :=
  match p, t with
  | [], _ => Some t
  | c :: p', x :: t' => if (c =? x)%N then strip_prefix p' t' else None
  | _ :: _, [] => None
  end.

Fixpoint run_length (p : N -> bool) (t : text) : nat :=
  match t with
  | x :: t' => if p x then S (run_length p t') else O
  | [] => O
  end.

Fixpoint first_some {A : Type} (f : nat -> option A) (ks : list nat) : option A :=
  match ks with
  | [] => None
  | k :: ks' => match f k with Some a => Some a | None => first_some f ks' end
  end.

(** [hi, hi-1, ..., lo]: the lengths a greedy repetition tries, longest
    first. *)
Definition down_to (hi lo : nat) : list nat := rev (seq lo (S hi - lo)).

(** Match the items at the head of [t], backtracking as [re] does; the
    result is the text of the group. *)
Fixpoint match_here (its : list item) (t : text) (cap : text) : option text :=
  match its with
  | [] => Some cap
  | Lit cs :: r =>
      match strip_prefix cs t with
      | Some t' => match_here r t' cap
      | None => None
      end
  | Opt c :: r =>
      match t with
      | x :: t' =>
          if (x =? c)%N then
            match match_here r t' cap with
            | Some g => Some g
            | None => match_here r t cap
            end
          else match_here r t cap
      | [] => match_here r t cap
      end
  | Star p :: r =>
      first_some (fun k => match_here r (skipn k t) cap)
                 (down_to (run_length p t) 0)
  | Plus p :: r =>
      first_some (fun k => match_here r (skipn k t) cap)
                 (down_to (run_length p t) 1)
  | Group p :: r =>
      first_some (fun k => match_here r (skipn k t) (firstn k t))
                 (down_to (run_length p t) 1)
  end.

(** [re.search(pattern, t).group(1)], [None] when nothing matches: the
    leftmost match. *)
Fixpoint re_search (its : list item) (t : text) : option text :=
  match match_here its t [] with
  | Some g => Some g
  | None =>
      match t with
      | [] => None
      | _ :: t' => re_search its t'
      end
  end.

End Text.

(** ** [ingest.py]: the decoder *)

Module BlitzortungDecoder.
Import Py Text.

(** The dict literal of [BlitzortungDecoder.__init__], in source order. *)
Definition substitutions_literal : list (list byte * list byte) :=
  [
    ([xc4; x88], [x30]); ([xc4; x89], [x31]); ([xc4; x8a], [x32]);
    ([xc4; x8b], [x33]); ([xc4; x8c], [x34]); ([xc4; x8d], [x35]);
    ([xc4; x8e], [x36]); ([xc4; x8f], [x37]); ([xc4; x90], [x38]);
    ([xc4; x91], [x39]); ([xc4; x92], [x32]); ([xc4; x93], [x33]);
    ([xc4; x94], [x34]); ([xc4; x95], [x35]); ([xc4; x96], [x36]);
    ([xc4; x97], [x37]); ([xc4; x98], [x38]); ([xc4; x99], [x39]);
    ([xc4; x9a], [x30]); ([xc4; x9b], [x31]); ([xc4; xa0], [x30]);
    ([xc4; xa1], [x31]); ([xc4; xa2], [x32]); ([xc4; xa3], [x33]);
    ([xc4; xa4], [x34]); ([xc4; xa5], [x35]); ([xc4; xa6], [x36]);
    ([xc4; xa7], [x37]); ([xc4; xa8], [x38]); ([xc4; xa9], [x39]);
    ([xc4; x86], [x3a; x20]); ([xc4; x87], [x2e]); ([xc4; xb8], [x22]);
    ([xc4; xb9], [x22]); ([xc4; xba], [x22]); ([xc4; xbb], [x22]);
    ([xc4; xbc], [x22]); ([xc4; xbd], [x22]); ([xc4; x9c], [x22]);
    ([xc4; x9d], [x22]); ([xc4; x9e], [x22]); ([xc4; x9f], [x22]);
    ([xc4; xb0], [x22]); ([xc4; xb1], [x22]); ([xc4; xb2], [x22]);
    ([xc4; xb3], [x22]); ([xc4; xb4], [x22]); ([xc4; xb5], [x22]);
    ([xc4; xac], []); ([xc5; x86], [x36]); ([xc4; xab], []);
    ([xc4; xaa], []); ([xc4; xb6], []); ([xc5; x80], []);
    ([xc5; x84], [x34]); ([xc5; x81], []); ([xc4; xad], []);
    ([xc5; x85], [x35]); ([xc5; x89], [x39]); ([xc5; x88], [x38]);
    ([xc4; x80], []); ([xc4; x8e], [x36]); ([xc5; x9b], []);
    ([xc5; x8d], []); ([xc4; x81], []); ([xc4; x83], []);
    ([xc4; x85], []); ([xc4; xae], []); ([xc4; xbe], [])
  ].

(** A dict keeps a key at the place of its first insertion and gives it
    the value of its last. *)
Fixpoint dict_set {V : Type} (d : list (list byte * V)) (k : list byte) (v : V)
  : list (list byte * V) :=
  match d with
  | [] => [(k, v)]
  | (k', v') :: d' =>
      if list_eq_dec Byte.byte_eq_dec k' k then (k', v) :: d'
      else (k', v') :: dict_set d' k v
  end.

Definition dict_of_items {V : Type} (items : list (list byte * V))
  : list (list byte * V) :=
  fold_left (fun d kv => dict_set d (fst kv) (snd kv)) items [].

Definition substitutions : list (list byte * list byte) :=
  Eval vm_compute in dict_of_items substitutions_literal.

Fixpoint starts_with (p s : list byte) : bool :=
  match p, s with
  | [], _ => true
  | c :: p', x :: s' => Byte.eqb c x && starts_with p' s'
  | _ :: _, [] => false
  end.

(** The scan of [replace]: [skip] counts the bytes of a match still to be
    passed over. *)
Fixpoint replace_from (old new : list byte) (skip : nat) (s : list byte)
  : list byte :=
  match s with
  | [] => []
  | b :: r =>
      match skip with
      | S k => replace_from old new k r
      | O =>
          if starts_with old s
          then new ++ replace_from old new (List.length old - 1) r
          else b :: replace_from old new 0 r
      end
  end.

(** [bytearray.replace(old, new)]: every occurrence, left to right,
    without overlap. *)
Definition replace (old new s : list byte) : list byte :=
  match old with
  | [] => new ++ flat_map (fun b => b :: new) s
  | _ => replace_from old new 0 s
  end.

(** The substitution loop of [decode] over a table [tbl]. *)
Definition apply_substitutions (tbl : list (list byte * list byte))
           (data : list byte) : list byte :=
  fold_left (fun result kv => replace (fst kv) (snd kv) result) tbl data.

(** The for/else scan of [_fix_longitude]: [todo] are the insertion
    positions still to try; running out of them is the [else] branch. *)
Fixpoint scan_positions (str_val : string) (value : float) (todo : list nat)
  : option float :=
  match todo with
  | [] => Some value
  | i :: rest =>
      match float_of_str (str_take i str_val ++ "." ++ str_drop i str_val) with
      | None => None
      | Some test_val =>
          if float_le_int test_val 180 then Some test_val
          else scan_positions str_val value rest
      end
  end.

(** [_fix_longitude]: [None] is the [None] the bare [except] returns. *)
Definition _fix_longitude (lon_str : string) : option float :=
  match float_of_str lon_str with
  | None => None
  | Some value =>
      if float_gt_int (fabs value) 1000 then
        match int_of_float value with
        | None => None
        | Some i =>
            let str_val := str_of_nonneg (Z.abs i) in
            let len := String.length str_val in
            if (6 <=? len)%nat then
              let corrected :=
                if (len =? 8)%nat then
                  float_of_str (str_take 2 str_val ++ "." ++ str_drop 2 str_val)
                else if (len =? 7)%nat then
                  float_of_str (str_take 2 str_val ++ "." ++ str_drop 2 str_val)
                else
                  scan_positions str_val value (seq 1 (len - 1)) in
              match corrected with
              | None => None
              | Some c => Some (if float_lt_int value 0 then fneg c else c)
              end
            else Some value
        end
      else Some value
  end.

(** A naive [datetime]: a wall clock without a zone, recorded by the
    seconds from 1970-01-01 00:00:00 to it on that clock, and its
    microseconds.  Its [fold], which no comparison and no column of the
    store sees, is left out. *)
Record datetime : Type := {
  wall_second : Z;
  microsecond : Z
}.

(** The last second of year 9999 and the first of year 1, as wall
    clocks: outside them [fromtimestamp] raises. *)
Definition MAX_SECOND : Z := 253402300799.
Definition MIN_SECOND : Z := -62135596800.

Definition in_years (wall : Z) : bool :=
  (MIN_SECOND <=? wall) && (wall <=? MAX_SECOND).

(** How far back [fromtimestamp] looks for a change of the offset. *)
Definition max_fold_seconds : Z := 24 * 3600.

Section LocalTime.
Context {zone : LocalZone}.

(** The local wall clock at the instant [t]. *)
Definition wall_clock (t : Z) : Z := t + utcoffset t.

(** The naive local datetime at [sec] seconds and [us] microseconds, as
    [datetime.fromtimestamp] builds it when no [tz] is given: the wall
    clock of the process's zone.  It raises when that wall clock is not
    within the years 1 to 9999, and when one of the wall clocks it
    probes to tell a repeated hour is not: the one a day before, and,
    when the offset went down within that day, the one earlier by that
    change. *)
Definition make_datetime (sec us : Z) : option datetime :=
  let wall := wall_clock sec in
  let probe := wall_clock (sec - max_fold_seconds) in
  let transition := wall - probe - max_fold_seconds in
  if in_years wall && in_years probe &&
     ((0 <=? transition) || in_years (wall_clock (sec + transition)))
  then Some {| wall_second := wall; microsecond := us |}
  else None.

(** [datetime.fromtimestamp(n)] for an int. *)
Definition fromtimestamp_int (n : Z) : option datetime := make_datetime n 0.

(** A finite float rounded to an integer, half to even. *)
Definition round_float_half_even (x : float) : Z :=
  match x with
  | S754_finite s m e =>
      let a := match e with
               | Zneg p => round_half_even (Zpos m) (2 ^ Zpos p)
               | _ => Zpos m * 2 ^ e
               end in
      if s then - a else a
  | _ => 0
  end.

(** [datetime.fromtimestamp(x)] for a float: the integral part, and the
    fractional part times [1e6] rounded half to even, with the carry. *)
Definition fromtimestamp_float (x : float) : option datetime :=
  match int_of_float x with
  | None => None
  | Some ip =>
      let frac := fsub x (float_of_int ip) in
      let us := round_float_half_even (fmul frac (float_of_int 1000000)) in
      if 1000000 <=? us then make_datetime (ip + 1) (us - 1000000)
      else if us <? 0 then make_datetime (ip - 1) (us + 1000000)
      else make_datetime ip us
  end.

(** The literals [1e15] and [1e12]. *)
Definition lit_1e15 : float := float_of_int (10 ^ 15).
Definition lit_1e12 : float := float_of_int (10 ^ 12).

(** Lines 236-242 of [_extract_fields]: the unit of the raw time is chosen
    by its size.  [None] is an exception of the division or of
    [fromtimestamp]. *)
Definition normalize_timestamp (timestamp_raw : Z) : option datetime :=
  if int_gt_float timestamp_raw lit_1e15 then
    match int_truediv timestamp_raw 1000000 with
    | Some x => fromtimestamp_float x
    | None => None
    end
  else if int_gt_float timestamp_raw lit_1e12 then
    match int_truediv timestamp_raw 1000 with
    | Some x => fromtimestamp_float x
    | None => None
    end
  else fromtimestamp_int timestamp_raw.

End LocalTime.

(** The dict [_extract_fields] returns.  A value may be [None]. *)
Record strike_data : Type := {
  time : Z;
  timestamp : datetime;
  lat : option float;
  lon : option float;
  alt : option Z;
  pol : option text;
  mds : option Z;
  mcg : option Z
}.

Section Extraction.
Context {unicode : UnicodeData} {zone : LocalZone}.

Definition is_decimal (c : N) : bool :=
  match decimal_value c with Some _ => true | None => false end.

Definition quote : N := 34.
Definition colon : N := 58.

Definition quote_or_colon (c : N) : bool := ((c =? quote) || (c =? colon))%N.
Definition colon_or_space (c : N) : bool := (c =? colon)%N || is_space c.
Definition not_quote (c : N) : bool := negb (c =? quote)%N.

(** The class [[0-9.-]]. *)
Definition number_char (c : N) : bool :=
  (((48 <=? c) && (c <=? 57)) || (c =? 46) || (c =? 45))%N.

(** The patterns of [_extract_fields], in the order of the source. *)
Definition time_pattern : list item :=
  [Lit (text_of_string "time"); Plus quote_or_colon; Group is_decimal].
Definition lat_pattern : list item :=
  [Lit (text_of_string "lat"); Star colon_or_space; Group number_char].
Definition lon_pattern : list item :=
  [Lit (text_of_string "lon"); Star colon_or_space; Group number_char].
Definition alt_pattern : list item :=
  [Opt quote; Lit (text_of_string "al"); Opt quote; Star colon_or_space;
   Group number_char].
Definition pol_pattern : list item :=
  [Lit (text_of_string "pol"); Star colon_or_space; Opt quote;
   Group not_quote; Opt quote].
Definition mds_pattern : list item :=
  [Lit (text_of_string "mds"); Star colon_or_space; Group number_char].
Definition mcg_pattern : list item :=
  [Lit (text_of_string "mcg"); Star colon_or_space; Group number_char].

(** The value of a run of decimal digits, read from the left. *)
Fixpoint int_of_decimals (acc : Z) (t : text) : option Z :=
  match t with
  | [] => Some acc
  | c :: t' =>
      match decimal_value c with
      | Some d => int_of_decimals (10 * acc + d) t'
      | None => None
      end
  end.

(** [sys.get_int_max_str_digits()] as CPython 3.11 sets it; the
    repository does not change it. *)
Definition int_max_str_digits : nat := 4300.

(** [int(s)] on a run of decimal digits: a [ValueError] when the run has
    more digits than the limit, leading zeros counted. *)
Definition int_of_text (t : text) : option Z :=
  if (int_max_str_digits <? List.length t)%nat then None
  else int_of_decimals 0 t.

(** [int(float(m.group(1))) if m else None]: the outer [None] is an
    exception, the inner one an absent field. *)
Definition optional_int (m : option text) : option (option Z) :=
  match m with
  | None => Some None
  | Some g =>
      match float_of_str (string_of_text g) with
      | None => None
      | Some x =>
          match int_of_float x with
          | None => None
          | Some i => Some (Some i)
          end
      end
  end.

Definition text_eqb (a b : text) : bool :=
  if list_eq_dec N.eq_dec a b then true else false.

(** [_extract_fields]: [None] is "no record", whether returned or through
    the [except]. *)
Definition _extract_fields (t : text) : option strike_data :=
  match re_search time_pattern t with
  | None => None
  | Some time_group =>
  match int_of_text time_group with
  | None => None
  | Some timestamp_raw =>
  match normalize_timestamp timestamp_raw with
  | None => None
  | Some stamp =>
  match re_search lat_pattern t, re_search lon_pattern t with
  | Some lat_group, Some lon_group =>
  match float_of_str (string_of_text lat_group) with
  | None => None
  | Some lat_value =>
  let lon_value := _fix_longitude (string_of_text lon_group) in
  match optional_int (re_search alt_pattern t) with
  | None => None
  | Some alt_value =>
  let pol_value :=
    match re_search pol_pattern t with
    | Some g => if text_eqb g (text_of_string "mds") then None else Some g
    | None => None
    end in
  match optional_int (re_search mds_pattern t) with
  | None => None
  | Some mds_value =>
  match optional_int (re_search mcg_pattern t) with
  | None => None
  | Some mcg_value =>
      Some {| time := timestamp_raw; timestamp := stamp;
              lat := Some lat_value; lon := lon_value;
              alt := alt_value; pol := pol_value;
              mds := mds_value; mcg := mcg_value |}
  end end end end
  | _, _ => None
  end end end end.

(** [_validate_strike].  An empty dict has no ['lat']: it is the record
    with [lat = None]. *)
Definition _validate_strike (strike : strike_data) : bool :=
  match lat strike, lon strike with
  | Some la, Some lo =>
      if float_gt_int (fabs la) 90 || float_gt_int (fabs lo) 180
      then false else true
  | _, _ => false
  end.

(** The counters of the decoder object. *)
Record decoder : Type := {
  sample_count : Z;
  successful_decodes : Z;
  failed_decodes : Z
}.

(** The text [decode] hands to [_extract_fields]. *)
Definition decoded_text (data : list byte) : text :=
  utf8_decode (apply_substitutions substitutions data).

(** [decode]: the decoder after the call and the record, if any. *)
Definition decode (self : decoder) (data : list byte)
  : decoder * option strike_data :=
  let counted := sample_count self + 1 in
  match _extract_fields (decoded_text data) with
  | Some strike_data =>
      if _validate_strike strike_data then
        ({| sample_count := counted;
            successful_decodes := successful_decodes self + 1;
            failed_decodes := failed_decodes self |}, Some strike_data)
      else
        ({| sample_count := counted;
            successful_decodes := successful_decodes self;
            failed_decodes := failed_decodes self + 1 |}, None)
  | None =>
      ({| sample_count := counted;
          successful_decodes := successful_decodes self;
          failed_decodes := failed_decodes self + 1 |}, None)
  end.

End Extraction.

(** [print_stats]: the four values of the line it logs, the rate before
    it is formatted to one decimal; [None] is an exception of the
    division.  The [0] of the [else] is an [int], logged as [0.0] like the
    float zero. *)
Definition print_stats (self : decoder) : option (Z * Z * Z * float) :=
  let success_rate :=
    if sample_count self >? 0 then
      match int_truediv (successful_decodes self) (sample_count self) with
      | Some q => Some (fmul q (float_of_int 100))
      | None => None
      end
    else Some (S754_zero false) in
  match success_rate with
  | Some rate =>
      Some (sample_count self, successful_decodes self, failed_decodes self, rate)
  | None => None
  end.

End BlitzortungDecoder.

(** ** [ingest.py]: the store and the frame handler *)

Module LightningDatabase.
Import Py Text BlitzortungDecoder.

(** The row of [ingestion_stats]. *)
Record ingestion_stats : Type := {
  total_received : Z;
  total_stored : Z;
  total_failed : Z;
  last_strike_time : option Z;
  updated_at : Z
}.

Record database : Type := {
  lightning_strikes : list strike_data;
  stats : ingestion_stats
}.

(** The tables as [create_tables] leaves an empty store at time [now]. *)
Definition create_tables (now : Z) : database := {|
  lightning_strikes := [];
  stats := {| total_received := 0; total_stored := 0; total_failed := 0;
              last_strike_time := None; updated_at := now |}
|}.

(** What the store answers while one frame is handled: whether it takes
    the [INSERT], whether it takes the [UPDATE], and its clock.  A
    statement it does not take raises in psycopg2; both methods catch
    that, log and roll back. *)
Record store_reply : Type := {
  insert_accepted : bool;
  update_accepted : bool;
  current_timestamp : Z
}.

(** The range of an [INTEGER] column: a value outside it makes the
    statement fail. *)
Definition in_integer (n : Z) : bool := (- 2 ^ 31 <=? n) && (n <=? 2 ^ 31 - 1).

(** [insert_strike]: the store afterwards and the returned flag. *)
Definition insert_strike (reply : store_reply) (db : database)
           (strike : strike_data) : database * bool :=
  if insert_accepted reply then
    ({| lightning_strikes := lightning_strikes db ++ [strike];
        stats := stats db |}, true)
  else (db, false).

(** Whether the [UPDATE] of [update_stats] goes through: the store takes
    it and the three new values fit their columns. *)
Definition update_applies (reply : store_reply) (row : ingestion_stats)
           (received stored failed : Z) : bool :=
  update_accepted reply &&
  in_integer (total_received row + received) &&
  in_integer (total_stored row + stored) &&
  in_integer (total_failed row + failed).

(** [update_stats]: one [UPDATE] adds the three deltas at once; when it
    fails nothing changes. *)
Definition update_stats (reply : store_reply) (db : database)
           (received stored failed : Z) : database :=
  let row := stats db in
  if update_applies reply row received stored failed then
    {| lightning_strikes := lightning_strikes db;
       stats := {| total_received := total_received row + received;
                   total_stored := total_stored row + stored;
                   total_failed := total_failed row + failed;
                   last_strike_time := Some (current_timestamp reply);
                   updated_at := current_timestamp reply |} |}
  else db.

(** The constraints [create_tables] puts on the coordinates of a row of
    [lightning_strikes]: both are [NOT NULL], [valid_latitude] wants the
    latitude between -90 and 90 and [valid_longitude] the longitude
    between -180 and 180.  PostgreSQL orders a NaN above every number: it
    passes a lower bound and fails an upper one. *)
Definition check_between (lo : Z) (x : float) (hi : Z) : bool :=
  negb (float_lt_int x lo) && (negb (is_nan x) && negb (float_gt_int x hi)).

Definition valid_latitude (latitude : float) : bool :=
  check_between (-90) latitude 90.

Definition valid_longitude (longitude : float) : bool :=
  check_between (-180) longitude 180.

Definition coordinate_constraints (strike : strike_data) : bool :=
  match lat strike, lon strike with
  | Some la, Some lo => valid_latitude la && valid_longitude lo
  | _, _ => false
  end.

(** What [psycopg2.connect] does at one attempt: it returns a connection,
    raises [OperationalError], or raises something else. *)
Inductive connect_outcome : Type :=
| Connected
| OperationalError
| OtherError.

(** What [connect] does besides calling [psycopg2.connect]. *)
Inductive connect_event : Type :=
| LogInfo
| LogWarning (attempt : nat)
| Sleep (seconds : Z)
| LogError.

(** How [connect] ends: it returns with [self.conn] set at some attempt,
    an exception leaves it at some attempt, or the loop runs out. *)
Inductive connect_result : Type :=
| Returns (attempt : nat)
| Raises (attempt : nat)
| FallsThrough.

Definition max_retries : nat := 5.
Definition retry_delay : Z := 5.

(** The loop of [connect] over the attempts still to make; [server k] is
    what [psycopg2.connect] does at the attempt numbered [k]. *)
Fixpoint connect_from (server : nat -> connect_outcome) (todo : list nat)
  : list connect_event * connect_result :=
  match todo with
  | [] => ([], FallsThrough)
  | attempt :: rest =>
      match server attempt with
      | Connected => ([LogInfo], Returns attempt)
      | OtherError => ([], Raises attempt)
      | OperationalError =>
          if (attempt <? max_retries - 1)%nat then
            let '(events, result) := connect_from server rest in
            (LogWarning (attempt + 1) :: Sleep retry_delay :: events, result)
          else ([LogError], Raises attempt)
      end
  end.

(** [connect]: [for attempt in range(max_retries)]. *)
Definition connect (server : nat -> connect_outcome)
  : list connect_event * connect_result :=
  connect_from server (seq 0 max_retries).

End LightningDatabase.

Module Ingest.
Import Py Text BlitzortungDecoder LightningDatabase.

(** What the websocket hands to [on_data]: [bytes] or [str]. *)
Inductive payload : Type :=
| Bytes (b : list byte)
| Str (t : text).

Definition OPCODE_BINARY : Z := 2.

(** The module-level [db] and [decoder]. *)
Record world : Type := {
  db : database;
  decoder_state : decoder
}.

(** The decoder as [BlitzortungDecoder.__init__] leaves it. *)
Definition new_decoder : decoder :=
  {| sample_count := 0; successful_decodes := 0; failed_decodes := 0 |}.

(** The first start, on a store without tables. *)
Definition initial_world (now : Z) : world := {|
  db := create_tables now;
  decoder_state := {| sample_count := 0; successful_decodes := 0;
                      failed_decodes := 0 |}
|}.

(** The head of the loop of [main], [db = LightningDatabase()] and
    [decoder = BlitzortungDecoder(db)], on a store that has its tables:
    [CREATE TABLE IF NOT EXISTS] and [INSERT ... WHERE NOT EXISTS] leave
    the rows and the counters of the store as they are, and the decoder
    is a new one. *)
Definition reconnect (w : world) : world :=
  {| db := db w; decoder_state := new_decoder |}.

Section Handler.
Context {unicode : UnicodeData} {zone : LocalZone}.

(** [decoder.decode(raw)]: [bytearray(raw)] raises inside the [try] when
    [raw] is a [str], which counts as a failed decode. *)
Definition decode_payload (self : decoder) (raw : payload)
  : decoder * option strike_data :=
  match raw with
  | Bytes b => decode self b
  | Str _ =>
      ({| sample_count := sample_count self + 1;
          successful_decodes := successful_decodes self;
          failed_decodes := failed_decodes self + 1 |}, None)
  end.

(** The [raw] of [on_data]: a text frame is encoded to bytes. *)
Definition frame_raw (data : payload) (opcode : Z) : payload :=
  if opcode =? OPCODE_BINARY then data
  else match data with
       | Str t => Bytes (utf8_encode t)
       | Bytes _ => data
       end.

(** [on_data].  The periodic [print_stats] only logs and is left out. *)
Definition on_data (reply : store_reply) (w : world) (data : payload)
           (opcode : Z) : world :=
  let raw := frame_raw data opcode in
  let '(decoder', strike) := decode_payload (decoder_state w) raw in
  match strike with
  | Some s =>
      let '(db', inserted) := insert_strike reply (db w) s in
      if inserted
      then {| db := update_stats reply db' 1 1 0; decoder_state := decoder' |}
      else {| db := update_stats reply db' 1 0 1; decoder_state := decoder' |}
  | None =>
      {| db := update_stats reply (db w) 1 0 1; decoder_state := decoder' |}
  end.

(** Whether the frame ends up stored: it decodes to a valid record and
    the store takes the [INSERT]. *)
Definition persisted (reply : store_reply) (w : world) (data : payload)
           (opcode : Z) : bool :=
  match snd (decode_payload (decoder_state w) (frame_raw data opcode)) with
  | Some _ => insert_accepted reply
  | None => false
  end.

(** The handler run over a sequence of frames, each with the store's
    replies during it. *)
Fixpoint run (w : world) (frames : list (store_reply * payload * Z)) : world :=
  match frames with
  | [] => w
  | (reply, data, opcode) :: rest => run (on_data reply w data opcode) rest
  end.

(** The loop of [main] over the connections of the websocket, each with
    the frames it delivers before [run_forever] ends: every pass builds
    the database object and the decoder again, then the handler runs. *)
Fixpoint main (w : world) (connections : list (list (store_reply * payload * Z)))
  : world :=
  match connections with
  | [] => w
  | frames :: rest => main (run (reconnect w) frames) rest
  end.

End Handler.

(** The counters of a world. *)
Definition received (w : world) : Z := total_received (stats (db w)).
Definition stored (w : world) : Z := total_stored (stats (db w)).
Definition failed (w : world) : Z := total_failed (stats (db w)).

End Ingest.

(** ** [api.py] *)

Module Api.
Import Py.

(** The C library behind [math]: its functions are total on doubles and
    are not part of the repository; they are a parameter. *)
Class Libm : Type := {
  c_sin : float -> float;
  c_cos : float -> float;
  c_asin : float -> float;
  c_pow : float -> float -> float
}.

(** How [math] wraps a C function of one argument: a NaN out of a number
    is a [ValueError], an infinity out of a finite number an error too.
    The [errno] of the C library is not modelled. *)
Definition math_1 (f : float -> float) (x : float) : option float :=
  let r := f x in
  if is_nan r && negb (is_nan x) then None
  else if is_inf r && is_finite x then None
  else Some r.

(** [math.pi] and the constant of [math.radians]. *)
Definition math_pi : float := S754_finite false 7074237752028440 (-51).
Definition degToRad : float := SFdiv prec emax math_pi (float_of_int 180).

Definition math_radians (x : float) : float := fmul x degToRad.
Definition math_sqrt (x : float) : option float := math_1 (SFsqrt prec emax) x.

(** A row of [lightning_strikes] as the cursor returns it, a dict, with
    the key the handler adds. *)
Record strike_row : Type := {
  id : Z;
  strike_time : Z;
  strike_timestamp : Z;
  latitude : float;
  longitude : float;
  altitude : option Z;
  polarity : option string;
  mds : option Z;
  mcg : option Z;
  inserted_at : Z;
  distance_km : option float
}.

Definition set_distance_km (strike : strike_row) (d : float) : strike_row := {|
  id := id strike; strike_time := strike_time strike;
  strike_timestamp := strike_timestamp strike;
  latitude := latitude strike; longitude := longitude strike;
  altitude := altitude strike; polarity := polarity strike;
  mds := mds strike; mcg := mcg strike; inserted_at := inserted_at strike;
  distance_km := Some d
|}.

(** The model [LightningStrike]: the fields of an item of a response.
    It has no [distance_km]. *)
Record LightningStrike : Type := {
  item_id : Z;
  item_strike_time : Z;
  item_strike_timestamp : Z;
  item_latitude : float;
  item_longitude : float;
  item_altitude : option Z;
  item_polarity : option string;
  item_mds : option Z;
  item_mcg : option Z;
  item_inserted_at : Z
}.

(** What [response_model=List[LightningStrike]] makes of a row the
    handler returns: the model built from the keys it declares, any other
    key dropped. *)
Definition response_model (strike : strike_row) : LightningStrike := {|
  item_id := id strike; item_strike_time := strike_time strike;
  item_strike_timestamp := strike_timestamp strike;
  item_latitude := latitude strike; item_longitude := longitude strike;
  item_altitude := altitude strike; item_polarity := polarity strike;
  item_mds := mds strike; item_mcg := mcg strike;
  item_inserted_at := inserted_at strike
|}.

(** The parameters of the [SELECT] of [get_nearby_strikes]. *)
Record nearby_query : Type := {
  since : Z;
  min_lat : float;
  max_lat : float;
  min_lon : float;
  max_lon : float;
  fetch_limit : Z
}.

Inductive response (A : Type) : Type :=
| Ok (a : A)
| Unprocessable
| ServerError.
Arguments Ok {A} a.
Arguments Unprocessable {A}.
Arguments ServerError {A}.

(** [ge]/[le] of a [Query] on a float: a NaN satisfies neither. *)
Definition float_between (lo : Z) (x : float) (hi : Z) : bool :=
  negb (is_nan x) && negb (float_lt_int x lo) && negb (float_gt_int x hi).

Definition valid_nearby (lat lon radius : float) (minutes limit : Z) : bool :=
  float_between (-90) lat 90 && float_between (-180) lon 180 &&
  float_between 1 radius 500 &&
  (1 <=? minutes) && (minutes <=? 1440) && (1 <=? limit) && (limit <=? 1000).

Definition bind {A B : Type} (a : option A) (f : A -> option B) : option B :=
  match a with Some x => f x | None => None end.

Notation "x <- a ;; b" := (bind a (fun x => b))
  (at level 61, a at next level, right associativity).

Section Haversine.
Context {libm : Libm}.

Definition math_sin (x : float) : option float := math_1 c_sin x.
Definition math_cos (x : float) : option float := math_1 c_cos x.
Definition math_asin (x : float) : option float := math_1 c_asin x.

(** [x ** 2] on a float: the special cases of [float.__pow__], then the
    C [pow] on the absolute value, an overflow being an [OverflowError]. *)
Definition square (x : float) : option float :=
  match x with
  | S754_nan => Some S754_nan
  | S754_infinity _ => Some (S754_infinity false)
  | S754_zero _ => Some (S754_zero false)
  | S754_finite _ _ _ =>
      if SFeqb (fabs x) (float_of_int 1) then Some (float_of_int 1)
      else
        let r := c_pow (fabs x) (float_of_int 2) in
        if is_inf r then None else Some r
  end.

(** [haversine_distance]: [None] is an exception of [math]. *)
Definition haversine_distance (lat1 lon1 lat2 lon2 : float) : option float :=
  let R := float_of_int 6371 in
  let lat1_rad := math_radians lat1 in
  let lat2_rad := math_radians lat2 in
  let dlat := math_radians (fsub lat2 lat1) in
  let dlon := math_radians (fsub lon2 lon1) in
  half_dlat <- fdiv dlat (float_of_int 2) ;;
  s1 <- math_sin half_dlat ;;
  t1 <- square s1 ;;
  c1 <- math_cos lat1_rad ;;
  c2 <- math_cos lat2_rad ;;
  half_dlon <- fdiv dlon (float_of_int 2) ;;
  s2 <- math_sin half_dlon ;;
  t2 <- square s2 ;;
  let a := fadd t1 (fmul (fmul c1 c2) t2) in
  root <- math_sqrt a ;;
  as_ <- math_asin root ;;
  let c := fmul (float_of_int 2) as_ in
  Some (fmul R c).

(** The bounding box and the rest of the query; [utcnow] is in seconds. *)
Definition nearby_parameters (utcnow : Z) (lat lon radius : float)
           (minutes limit : Z) : option nearby_query :=
  let lat_delta := SFdiv prec emax radius (float_of_int 111) in
  c <- math_cos (math_radians lat) ;;
  lon_delta <- fdiv radius (fmul (float_of_int 111) c) ;;
  Some {| since := utcnow - minutes * 60;
          min_lat := fsub lat lat_delta; max_lat := fadd lat lat_delta;
          min_lon := fsub lon lon_delta; max_lon := fadd lon lon_delta;
          fetch_limit := limit * 2 |}.

(** The loop "Filter by exact distance". *)
Fixpoint filter_by_distance (lat lon radius : float) (results : list strike_row)
  : option (list strike_row) :=
  match results with
  | [] => Some []
  | strike :: rest =>
      distance <- haversine_distance lat lon (latitude strike) (longitude strike) ;;
      kept <- filter_by_distance lat lon radius rest ;;
      if float_le distance radius
      then Some (set_distance_km strike (round2 distance) :: kept)
      else Some kept
  end.

(** The key of the sort: [x.get('distance_km', float('inf'))]. *)
Definition sort_key (x : strike_row) : float :=
  match distance_km x with
  | Some d => d
  | None => S754_infinity false
  end.

(** [list.sort(key=...)] is stable and compares keys with [<]; on keys
    that are comparable, as the distances are, every stable sort gives
    the same list.  It is written here as insertion from the right. *)
Fixpoint insert_sorted (x : strike_row) (l : list strike_row) : list strike_row :=
  match l with
  | [] => [x]
  | y :: l' =>
      if float_lt (sort_key y) (sort_key x) then y :: insert_sorted x l'
      else x :: l
  end.

Definition sort_by_distance (l : list strike_row) : list strike_row :=
  fold_right insert_sorted [] l.

Section Store.
(** The store's answer to the [SELECT]; [None] is a database error. *)
Variable select_strikes : nearby_query -> option (list strike_row).

(** [get_nearby_strikes]: what the function returns or raises, before
    the framework applies the response model. *)
Definition get_nearby_strikes (utcnow : Z) (lat lon radius : float)
           (minutes limit : Z) : response (list strike_row) :=
  if valid_nearby lat lon radius minutes limit then
    match nearby_parameters utcnow lat lon radius minutes limit with
    | None => ServerError
    | Some q =>
        match select_strikes q with
        | None => ServerError
        | Some results =>
            match filter_by_distance lat lon radius results with
            | None => ServerError
            | Some filtered_results =>
                Ok (firstn (Z.to_nat limit) (sort_by_distance filtered_results))
            end
        end
    end
  else Unprocessable.

(** The answer of [GET /strikes/nearby]: the rows the function returns,
    each through the response model. *)
Definition nearby_response (utcnow : Z) (lat lon radius : float)
           (minutes limit : Z) : response (list LightningStrike) :=
  match get_nearby_strikes utcnow lat lon radius minutes limit with
  | Ok rows => Ok (map response_model rows)
  | Unprocessable => Unprocessable
  | ServerError => ServerError
  end.

End Store.
End Haversine.

(** The stored rate of [get_ingestion_stats] before it is rounded. *)
Definition raw_success_rate (total stored : Z) : option float :=
  if total >? 0 then
    match int_truediv stored total with
    | Some q => Some (fmul q (float_of_int 100))
    | None => None
    end
  else Some (S754_zero false).

(** The ['success_rate'] of the response: [round(success_rate, 2)]. *)
Definition success_rate (total stored : Z) : option float :=
  option_map round2 (raw_success_rate total stored).

(** [get_ingestion_stats] on the row the cursor fetched, if any. *)
Definition get_ingestion_stats (result : option LightningDatabase.ingestion_stats)
  : response (LightningDatabase.ingestion_stats * float) :=
  match result with
  | None => ServerError
  | Some row =>
      match success_rate (LightningDatabase.total_received row)
                         (LightningDatabase.total_stored row) with
      | Some rate => Ok (row, rate)
      | None => ServerError
      end
  end.

(** A value handed to [cursor.execute] beside the query. *)
Inductive sql_param : Type :=
| SqlInt (n : Z)
| SqlFloat (x : float)
| SqlTimestamp (t : Z).

(** [if value: query += clause; params.append(value)] (or [if value is not
    None:]; the two tests agree on the values they are used for): the
    query and the parameters grow together. *)
Definition add_filter {A : Type} (clause : string) (wrap : A -> sql_param)
           (value : option A) (q : string * list sql_param)
  : string * list sql_param :=
  match value with
  | Some v => ((fst q ++ clause)%string, snd q ++ [wrap v])
  | None => q
  end.

(** The query and the parameters [get_strikes] builds and hands to
    [cursor.execute]. *)
Definition strikes_query (limit offset : Z) (since until : option Z)
           (min_lat max_lat min_lon max_lon : option float)
  : string * list sql_param :=
  let q := ("SELECT * FROM lightning_strikes WHERE 1=1"%string, []) in
  let q := add_filter " AND strike_timestamp >= %s" SqlTimestamp since q in
  let q := add_filter " AND strike_timestamp <= %s" SqlTimestamp until q in
  let q := add_filter " AND latitude >= %s" SqlFloat min_lat q in
  let q := add_filter " AND latitude <= %s" SqlFloat max_lat q in
  let q := add_filter " AND longitude >= %s" SqlFloat min_lon q in
  let q := add_filter " AND longitude <= %s" SqlFloat max_lon q in
  ((fst q ++ " ORDER BY strike_timestamp DESC LIMIT %s OFFSET %s")%string,
   snd q ++ [SqlInt limit; SqlInt offset]).

(** A text of several lines. *)
Definition newline : string := String (ascii_of_N 10) EmptyString.
Definition sql_lines (lines : list string) : string := String.concat newline lines.

(** The query and the parameters of [get_strike_stats]. *)
Definition strike_stats_query (since until : option Z) : string * list sql_param :=
  let q :=
    (sql_lines
       [""; "        SELECT ";
        "            COUNT(" ++ "*) as total_strikes,";
        "            MIN(strike_timestamp) as time_range_start,";
        "            MAX(strike_timestamp) as time_range_end,";
        "            AVG(latitude) as avg_latitude,";
        "            AVG(longitude) as avg_longitude";
        "        FROM lightning_strikes";
        "        WHERE 1=1";
        "    "]%string, []) in
  let q := add_filter " AND strike_timestamp >= %s" SqlTimestamp since q in
  let q := add_filter " AND strike_timestamp <= %s" SqlTimestamp until q in
  q.

(** The query and the parameters of [get_recent_strikes]; [utcnow] is in
    seconds. *)
Definition recent_strikes_query (utcnow minutes limit : Z)
  : string * list sql_param :=
  (sql_lines
     [""; "                SELECT * FROM lightning_strikes";
      "                WHERE strike_timestamp >= %s";
      "                ORDER BY strike_timestamp DESC";
      "                LIMIT %s";
      "            "]%string,
   [SqlTimestamp (utcnow - minutes * 60); SqlInt limit]).

(** The query of [get_nearby_strikes] and its parameters, out of the
    record of them. *)
Definition nearby_strikes_query (q : nearby_query) : string * list sql_param :=
  (sql_lines
     [""; "                SELECT * FROM lightning_strikes";
      "                WHERE strike_timestamp >= %s";
      "                AND latitude BETWEEN %s AND %s";
      "                AND longitude BETWEEN %s AND %s";
      "                ORDER BY strike_timestamp DESC";
      "                LIMIT %s";
      "            "]%string,
   [SqlTimestamp (since q); SqlFloat (min_lat q); SqlFloat (max_lat q);
    SqlFloat (min_lon q); SqlFloat (max_lon q); SqlInt (fetch_limit q)]).

End Api.

(** ** Definitions used in the statements *)

(** *** Floats and digit strings *)

(** A float of sign [s] whose magnitude is at most [bound]: a zero, or a
    finite [m * 2^e] with [e <= 0] and [m <= bound * 2^(-e)]. *)
Definition magnitude_at_most (bound : Z) (s : bool) (x : Py.float) : Prop :=
  x = S754_zero s \/
  exists m e, x = S754_finite s m e /\ e <= 0 /\ Zpos m <= bound * 2 ^ (- e).

(** A string of ASCII digits. *)
Definition all_digits (s : string) : bool :=
  forallb Py.is_ascii_digit (list_ascii_of_string s).

(** [str(abs(int(v)))]: the absolute integer digit string of a float. *)
Definition abs_int_digits (v : Py.float) : option string :=
  option_map (fun i => Py.str_of_nonneg (Z.abs i)) (Py.int_of_float v).

(** The digit string [s] with a decimal point inserted at position [i],
    read as a float. *)
Definition candidate (s : string) (i : nat) : option Py.float :=
  Py.float_of_str (Py.str_take i s ++ "." ++ Py.str_drop i s).

(** The candidate scan as the specification words it: the candidates at
    positions [1 .. len(s)-1] in increasing order, the first of magnitude
    at most 180 accepted, the original magnitude when there is none, and
    the original sign put back. *)
Definition spec_first_fit (s : string) : option Py.float :=
  match
    find (fun c => match c with
                   | Some t => Py.float_le_int t 180
                   | None => false
                   end)
         (map (candidate s) (seq 1 (String.length s - 1)))
  with
  | Some c => c
  | None => None
  end.

Definition spec_scan_repair (v : Py.float) (s : string) : Py.float :=
  let magnitude :=
    match spec_first_fit s with
    | Some t => t
    | None => Py.fabs v
    end in
  if Py.float_lt_int v 0 then Py.fneg magnitude else magnitude.

(** *** Records and timestamps *)

(** A record with the given coordinates and the other fields of [strike]. *)
Definition with_coordinates (strike : BlitzortungDecoder.strike_data)
           (la lo : option Py.float) : BlitzortungDecoder.strike_data := {|
  BlitzortungDecoder.time := BlitzortungDecoder.time strike;
  BlitzortungDecoder.timestamp := BlitzortungDecoder.timestamp strike;
  BlitzortungDecoder.lat := la; BlitzortungDecoder.lon := lo;
  BlitzortungDecoder.alt := BlitzortungDecoder.alt strike; BlitzortungDecoder.pol := BlitzortungDecoder.pol strike;
  BlitzortungDecoder.mds := BlitzortungDecoder.mds strike; BlitzortungDecoder.mcg := BlitzortungDecoder.mcg strike
|}.




(** A process that runs an hour east of UTC the year round. *)
Definition cet : Py.LocalZone := {| Py.utcoffset _ := 3600 |}.


(** *** The substitution table *)

(** The shape of the substitution table: a key is a lead byte ([C4] or
    [C5]) followed by a trail byte ([80] to [BF]); an output holds only
    bytes below [80]. *)
Definition is_lead (b : byte) : bool := Byte.eqb b xc4 || Byte.eqb b xc5.
Definition is_trail (b : byte) : bool := Text.is_continuation b.
Definition is_plain (b : byte) : bool := (Byte.to_N b <? 0x80)%N.

Definition key_ok (k : list byte) : bool :=
  match k with
  | [l; t] => is_lead l && is_trail t
  | _ => false
  end.

Definition entry_ok (kv : list byte * list byte) : bool :=
  key_ok (fst kv) && forallb is_plain (snd kv).

Definition key_eqb (a b : list byte) : bool :=
  if list_eq_dec Byte.byte_eq_dec a b then true else false.

Fixpoint distinct (l : list (list byte)) : bool :=
  match l with
  | [] => true
  | x :: r => negb (existsb (key_eqb x) r) && distinct r
  end.

(** Whether [p] ends with the byte [a], and whether [s] starts with [b]:
    together, an occurrence of [a; b] across the seam of [p ++ s]. *)
Fixpoint last_is (a : byte) (p : list byte) : bool :=
  match p with
  | [] => false
  | [x] => Byte.eqb x a
  | _ :: p' => last_is a p'
  end.

Definition head_is (b : byte) (s : list byte) : bool :=
  match s with
  | x :: _ => Byte.eqb x b
  | [] => false
  end.

(** Every entry of a table has the shape above. *)
Definition table_ok (tbl : list (list byte * list byte)) : Prop :=
  Forall (fun kv => entry_ok kv = true) tbl.

(** *** The order of the sort *)

(** [b] does not sort before [a]: the key of [b] is not below that of [a]. *)
Definition key_le (a b : Api.strike_row) : Prop :=
  Py.float_lt (Api.sort_key b) (Api.sort_key a) = false.

(** *** Frames, store replies and rows to run the code on *)

(** A store that takes every statement, and one that refuses the
    [UPDATE]. *)
Definition accepting_store : LightningDatabase.store_reply :=
  {| LightningDatabase.insert_accepted := true;
     LightningDatabase.update_accepted := true;
     LightningDatabase.current_timestamp := 5 |}.

Definition refusing_store : LightningDatabase.store_reply :=
  {| LightningDatabase.insert_accepted := true;
     LightningDatabase.update_accepted := false;
     LightningDatabase.current_timestamp := 5 |}.

(** A frame with a time, a latitude and a longitude, and one without a
    time. *)
Definition good_frame : Ingest.payload :=
  Ingest.Bytes (list_byte_of_string "time:1700000000 lat:45.5 lon:1604008").

Definition timeless_frame : Ingest.payload :=
  Ingest.Bytes (list_byte_of_string "lat:45.5 lon:16.5").

(** A C library giving the small-angle values [sin x = x], [asin x = x],
    [cos x = 1] and [pow(x, 2) = x * x].  For arguments below [2^-27]
    these are the correctly rounded results, the ones the C library
    returns. *)
Definition small_angle_libm : Api.Libm := {|
  Api.c_sin x := x;
  Api.c_cos _ := Py.float_of_int 1;
  Api.c_asin x := x;
  Api.c_pow x _ := Py.fmul x x
|}.

(** A stored row at the given coordinates. *)
Definition row_at (i : Z) (la lo : Py.float) : Api.strike_row := {|
  Api.id := i; Api.strike_time := 1700000000; Api.strike_timestamp := 1700000000;
  Api.latitude := la; Api.longitude := lo;
  Api.altitude := None; Api.polarity := None; Api.mds := None; Api.mcg := None;
  Api.inserted_at := 1700000001; Api.distance_km := None
|}.

(** The six orders of three rows. *)
Definition orders_of_three (a b c : Api.strike_row) : list (list Api.strike_row) :=
  [[a; b; c]; [a; c; b]; [b; a; c]; [b; c; a]; [c; a; b]; [c; b; a]].


(** Two stored rows next to the center (0, 0): one a ten-millionth of a
    degree north of it, one on it; and two rows further north. *)
Definition row_near : Api.strike_row :=
  row_at 1 (Py.decimal_to_float false 1 7) (S754_zero false).
Definition row_center : Api.strike_row :=
  row_at 2 (S754_zero false) (S754_zero false).
Definition row_north_10 : Api.strike_row :=
  row_at 3 (S754_finite false 6480295118882930 (-56)) (S754_zero false).
Definition row_north_60 : Api.strike_row :=
  row_at 4 (S754_finite false 4860221339162197 (-53)) (S754_zero false).

(** The distance of a row from the center (0, 0) under the small-angle
    library, 0 when [math] raises. *)
Definition small_angle_distance (s : Api.strike_row) : Py.float :=
  match Api.haversine_distance (libm := small_angle_libm)
          (S754_zero false) (S754_zero false)
          (Api.latitude s) (Api.longitude s) with
  | Some d => d
  | None => S754_zero false
  end.


(** *** Connecting, and the rows of a run *)

(** The seconds [connect] sleeps along its events. *)
Fixpoint seconds_slept (events : list LightningDatabase.connect_event) : Z :=
  match events with
  | [] => 0
  | LightningDatabase.Sleep seconds :: rest => seconds + seconds_slept rest
  | _ :: rest => seconds_slept rest
  end.

(** A server that refuses the first [k] attempts and accepts from then on. *)
Definition server_up_after (k : nat) (attempt : nat)
  : LightningDatabase.connect_outcome :=
  if (attempt <? k)%nat then LightningDatabase.OperationalError
  else LightningDatabase.Connected.

(** What a run keeps true of the counters of the decoder, of those of the
    store and of the number of rows, [n] frames having been handled. *)
Definition counters_agree (n : Z) (w : Ingest.world) : Prop :=
  let d := Ingest.decoder_state w in
  let rows := LightningDatabase.lightning_strikes (Ingest.db w) in
  BlitzortungDecoder.sample_count d = n /\
  BlitzortungDecoder.sample_count d =
    BlitzortungDecoder.successful_decodes d + BlitzortungDecoder.failed_decodes d /\
  0 <= BlitzortungDecoder.failed_decodes d /\
  0 <= Ingest.received w <= BlitzortungDecoder.sample_count d /\
  0 <= Ingest.stored w /\ 0 <= Ingest.failed w /\
  Ingest.stored w <= Z.of_nat (List.length rows) /\
  Z.of_nat (List.length rows) <= BlitzortungDecoder.successful_decodes d.

(** *** Code points *)

(** A code point a well-formed text can hold: below [110000] and no
    surrogate. *)
Definition scalar_value (c : N) : bool :=
  ((c <? 0x110000) && negb ((0xD800 <=? c) && (c <=? 0xDFFF)))%N.

(** The code points whose UTF-8 form starts with the byte [C4] or [C5]:
    U+0100 to U+017F. *)
Definition lead_code_point (c : N) : bool := ((0x100 <=? c) && (c <=? 0x17F))%N.

(** A byte that starts no key of the table. *)
Definition not_lead (b : byte) : bool := negb (is_lead b).

(** *** Queries *)

(** The placeholders of a query as psycopg2 counts them: each [%s]; a
    [%%] is a percent sign. *)
Fixpoint count_placeholders (s : string) : nat :=
  match s with
  | String a r =>
      if Ascii.eqb a "%" then
        match r with
        | String b r' =>
            if Ascii.eqb b "s" then S (count_placeholders r')
            else count_placeholders r'
        | EmptyString => O
        end
      else count_placeholders r
  | EmptyString => O
  end.

(** The parameter of a filter that is given. *)
Definition given {A : Type} (wrap : A -> Api.sql_param) (value : option A)
  : list Api.sql_param :=
  match value with
  | Some v => [wrap v]
  | None => []
  end.

(** *** Tactics *)

(** Settle the tests on the length of the digit string from what the
    context knows about it. *)
Ltac settle_length_tests :=
  repeat match goal with
         | |- context [(?a <=? ?b)%nat] =>
             first [ replace (a <=? b)%nat with true
                       by (symmetry; apply Nat.leb_le; lia)
                   | replace (a <=? b)%nat with false
                       by (symmetry; apply Nat.leb_gt; lia) ]
         | |- context [(?a =? ?b)%nat] =>
             replace (a =? b)%nat with false
               by (symmetry; apply Nat.eqb_neq; lia)
         end.

(** Linear arithmetic with quotients and remainders by constants. *)
Ltac lia_div := zify; Z.to_euclidean_division_equations; lia.

(** * Properties *)

Import Py BlitzortungDecoder.

(** ** The model run on small inputs *)

Section Evaluations.
Import Text BlitzortungDecoder Ingest Api.

Example float_of_str_tenth :
  float_of_str "0.1" = Some (S754_finite false 7205759403792794 (-56)).
Proof. reflexivity. Qed.

Example float_of_str_forms :
  float_of_str "-.5" = Some (S754_finite true 4503599627370496 (-53)) /\
  float_of_str "5." = Some (float_of_int 5) /\
  float_of_str "-" = None /\ float_of_str "." = None /\
  float_of_str "1.2.3" = None /\ float_of_str "--5" = None /\
  float_of_str "5-" = None.
Proof. repeat split. Qed.

Example float_of_str_overflow :
  float_of_str ("1" ++ string_of_list_ascii (repeat "0"%char 400)) =
    Some (S754_infinity false).
Proof. vm_compute. reflexivity. Qed.

Example abs_int_digits_truncates :
  option_map abs_int_digits (float_of_str "-1613330.75") =
    Some (Some "1613330"%string).
Proof. reflexivity. Qed.

Example round2_half_even :
  option_map round2 (float_of_str "0.125") = float_of_str "0.12" /\
  option_map round2 (float_of_str "2.675") = float_of_str "2.67" /\
  option_map round2 (float_of_str "-0.001") = Some (S754_zero true).
Proof. repeat split. Qed.

Example int_truediv_signs :
  int_truediv 0 (-5) = Some (S754_zero true) /\
  int_truediv 7 0 = None /\
  int_truediv (-7) 2 = float_of_str "-3.5".
Proof. repeat split. Qed.

Example utf8_decode_replaces :
  utf8_decode [xc4; x88; x41] = [264; 65]%N /\
  utf8_decode [xe2; x82] = [REPLACEMENT_CHARACTER] /\
  utf8_decode [xe0; x80] = [REPLACEMENT_CHARACTER; REPLACEMENT_CHARACTER] /\
  utf8_decode [xf0; x9f; x98; x41] = [REPLACEMENT_CHARACTER; 65%N] /\
  utf8_decode [xf0; x9f; x98; x80] = [128512%N].
Proof. repeat split. Qed.

Example replace_left_to_right :
  replace [x61; x61] [x62] [x61; x61; x61; x61; x61] = [x62; x62; x61] /\
  replace [] [x2d] [x61; x62] = [x2d; x61; x2d; x62; x2d].
Proof. split; reflexivity. Qed.

Example substitutions_size :
  List.length substitutions_literal = 69%nat /\ List.length substitutions = 68%nat.
Proof. split; reflexivity. Qed.

(** The group of a search backtracks into the starred class: the space is
    given back to the group when a quote cannot be matched by it. *)
Example re_search_backtracks :
  re_search (pol_pattern (unicode := ascii_data))
            (text_of_string "pol: " ++ [quote; quote]) =
    Some (text_of_string " ") /\
  re_search (time_pattern (unicode := ascii_data))
            (text_of_string "time:time:12a") = Some (text_of_string "12").
Proof. split; reflexivity. Qed.

Example extract_fields_good_frame :
  option_map (fun s => (time s, timestamp s, lat s, lon s, alt s, BlitzortungDecoder.mds s))
    (_extract_fields (unicode := ascii_data) (zone := utc)
       (text_of_string "time:1700000000 lat:45.5 lon:1604008 mds:12.7")) =
    Some (1700000000,
          {| wall_second := 1700000000; microsecond := 0 |},
          float_of_str "45.5", float_of_str "16.04008", None, Some 12).
Proof. reflexivity. Qed.

Example extract_fields_bad_altitude :
  _extract_fields (unicode := ascii_data) (zone := utc)
    (text_of_string "time:12 lat:3 lon:4 al-") = None.
Proof. reflexivity. Qed.

Example normalize_timestamp_rounds :
  normalize_timestamp (zone := utc) 1700000000123457 =
    Some {| wall_second := 1700000000; microsecond := 123457 |} /\
  normalize_timestamp (zone := utc) (10 ^ 30) = None.
Proof. split; reflexivity. Qed.

(** The first day of the year 1 is refused in UTC too: [fromtimestamp]
    probes the wall clock a day earlier.  In a zone east of UTC the last
    hours of the year 9999 in UTC are refused. *)
Example make_datetime_edges :
  make_datetime (zone := utc) MIN_SECOND 0 = None /\
  make_datetime (zone := utc) (MIN_SECOND + 86399) 0 = None /\
  make_datetime (zone := utc) (MIN_SECOND + 86400) 0 =
    Some {| wall_second := MIN_SECOND + 86400; microsecond := 0 |} /\
  make_datetime (zone := utc) MAX_SECOND 0 =
    Some {| wall_second := MAX_SECOND; microsecond := 0 |} /\
  make_datetime (zone := utc) (MAX_SECOND + 1) 0 = None /\
  make_datetime (zone := cet) (MAX_SECOND - 3600) 0 =
    Some {| wall_second := MAX_SECOND; microsecond := 0 |} /\
  make_datetime (zone := cet) (MAX_SECOND - 3599) 0 = None.
Proof. repeat split. Qed.

Example haversine_small_angle :
  haversine_distance (libm := small_angle_libm)
    (S754_zero false) (S754_zero false) (decimal_to_float false 1 7) (S754_zero false) =
    Some (S754_finite false 6563789933142663 (-69)).
Proof. reflexivity. Qed.

End Evaluations.

(** ** Binary64 rounding: bounds through the library's division *)

Section RoundingBounds.

Lemma digits2_pos_size (p : positive) : digits2_pos p = Pos.size p.
Proof. induction p; simpl; congruence. Qed.

Lemma pos_size_bound (p : positive) (b : Z) :
  0 <= b -> Zpos p < 2 ^ b -> Zpos (Pos.size p) <= b.
Proof.
  intros Hb Hlt.
  pose proof (Pos.size_le p) as Hle.
  assert (H2 : 2 ^ Zpos (Pos.size p) <= 2 * Zpos p).
  { change (2 * Zpos p) with (Zpos p~0). rewrite <- Pos2Z.inj_pow. exact Hle. }
  destruct (Z_le_gt_dec (Zpos (Pos.size p)) b) as [|Hgt]; [assumption|exfalso].
  assert (Hpow : 2 ^ (b + 1) <= 2 ^ Zpos (Pos.size p))
    by (apply Z.pow_le_mono_r; lia).
  rewrite Z.pow_add_r in Hpow by lia. lia.
Qed.

Lemma shr_1_m (mrs : shr_record) :
  0 <= shr_m mrs -> shr_m (shr_1 mrs) = shr_m mrs / 2.
Proof.
  destruct mrs as [m r s]; simpl; intros Hm.
  destruct m as [|[p|p|]|p]; simpl; try reflexivity; try lia.
  - rewrite Pos2Z.inj_xI.
    replace (2 * Zpos p + 1) with (1 + Zpos p * 2) by lia.
    rewrite Z.div_add by lia. reflexivity.
  - rewrite Pos2Z.inj_xO. rewrite Z.mul_comm, Z.div_mul by lia. reflexivity.
Qed.

Lemma iter_shr_1_m (p : positive) : forall mrs,
  0 <= shr_m mrs ->
  shr_m (iter_pos shr_1 p mrs) = shr_m mrs / 2 ^ Zpos p.
Proof.
  induction p as [p IH|p IH|]; intros mrs Hm; simpl iter_pos.
  - assert (H1 : 0 <= shr_m (shr_1 mrs))
      by (rewrite shr_1_m by assumption; apply Z.div_pos; lia).
    assert (H2 : 0 <= shr_m (iter_pos shr_1 p (shr_1 mrs)))
      by (rewrite IH by assumption; apply Z.div_pos; lia).
    rewrite IH, IH, shr_1_m by assumption.
    rewrite !Z.div_div by lia.
    f_equal. rewrite Pos2Z.inj_xI, Z.add_1_r, Z.pow_succ_r, Z.pow_twice_r by lia.
    reflexivity.
  - assert (H2 : 0 <= shr_m (iter_pos shr_1 p mrs))
      by (rewrite IH by assumption; apply Z.div_pos; lia).
    rewrite IH, IH by assumption.
    rewrite !Z.div_div by lia.
    f_equal. change (Zpos p~0) with (2 * Zpos p).
    rewrite Z.pow_twice_r. reflexivity.
  - rewrite shr_1_m by assumption. reflexivity.
Qed.

Lemma shr_record_of_loc_m (m : Z) (l : location) :
  shr_m (shr_record_of_loc m l) = m.
Proof. destruct l as [|[]]; reflexivity. Qed.

Lemma Zdigits2_bound (m b : Z) :
  0 <= m -> 0 <= b -> m < 2 ^ b -> Zdigits2 m <= b.
Proof.
  intros Hm Hb Hlt. destruct m as [|p|p]; simpl; try lia.
  rewrite digits2_pos_size. now apply pos_size_bound.
Qed.

End RoundingBounds.

Section DivisionBounds.

Lemma fexp64 (e : Z) : fexp prec emax e = Z.max (e - 53) (-1074).
Proof. reflexivity. Qed.

Lemma pow2_split (a b : Z) : 0 <= a -> 0 <= b -> 2 ^ (a + b) = 2 ^ a * 2 ^ b.
Proof. intros; apply Z.pow_add_r; assumption. Qed.

Lemma pow2_pos (a : Z) : 0 <= a -> 0 < 2 ^ a.
Proof. intros; apply Z.pow_pos_nonneg; lia. Qed.

(** Throughout, [c] is a bound below [2^j]: [c = 10] with [j = 4] for the
    candidates of the repair, [c = 2^31] with [j = 32] for the counters. *)
Variables c j : Z.
Hypothesis Hc : 0 < c < 2 ^ j.
Hypothesis Hj : 0 <= j <= 53.

(** Shifting to the canonical exponent keeps a mantissa below
    [c * 2^(-e)] below it ([d = 1]) or at most it ([d = 0]). *)
Lemma shr_fexp_bound (m e : Z) (l : location) (d : Z) :
  0 <= m -> e <= j - 53 -> 0 <= d <= 1 -> m <= c * 2 ^ (- e) - d ->
  0 <= shr_m (fst (shr_fexp prec emax m e l))
    <= c * 2 ^ (- snd (shr_fexp prec emax m e l)) - d
  /\ snd (shr_fexp prec emax m e l) <= j - 53.
Proof.
  intros Hm He Hd Hb.
  assert (Hdig : Zdigits2 m <= j - e).
  { apply Zdigits2_bound; try lia.
    replace (j - e) with (j + - e) by lia.
    rewrite pow2_split by lia. pose proof (pow2_pos (- e) ltac:(lia)). nia. }
  unfold shr_fexp, shr. rewrite fexp64.
  destruct (Z.max (Zdigits2 m + e - 53) (-1074) - e) as [|p|p] eqn:Hn;
    cbn [fst snd]; rewrite ?shr_record_of_loc_m; try (split; lia).
  rewrite iter_shr_1_m by (rewrite shr_record_of_loc_m; assumption).
  rewrite shr_record_of_loc_m.
  assert (He' : e + Zpos p <= j - 53) by lia.
  assert (Hsplit : 2 ^ (- e) = 2 ^ (- (e + Zpos p)) * 2 ^ Zpos p).
  { rewrite <- pow2_split by lia. f_equal. lia. }
  pose proof (pow2_pos (Zpos p) ltac:(lia)) as Hp.
  pose proof (pow2_pos (- (e + Zpos p)) ltac:(lia)) as Hk.
  split; [split|assumption].
  - apply Z.div_pos; lia.
  - rewrite Hsplit in Hb.
    assert (Hcase : d = 0 \/ d = 1) by lia. destruct Hcase; subst d.
    + rewrite Z.sub_0_r in *. apply Z.div_le_upper_bound; [lia|]. nia.
    + assert (m / 2 ^ Zpos p < c * 2 ^ (- (e + Zpos p))); [|lia].
      apply Z.div_lt_upper_bound; [lia|]. nia.
Qed.

Lemma round_nearest_even_bounds (m : Z) (l : location) :
  m <= round_nearest_even m l <= m + 1.
Proof. destruct l as [|[]]; simpl; try destruct (Z.even m); lia. Qed.

(** Rounding a value below [c] gives at most [c], and no infinity. *)
Lemma binary_round_aux_below (s : bool) (m e : Z) (l : location) :
  0 <= m -> e <= j - 53 -> m < c * 2 ^ (- e) ->
  magnitude_at_most c s (binary_round_aux prec emax s m e l).
Proof.
  intros Hm He Hb. unfold binary_round_aux.
  pose proof (shr_fexp_bound m e l 1 Hm He ltac:(lia) ltac:(lia)) as H1.
  destruct (shr_fexp prec emax m e l) as [mrs1 e1]. cbn [fst snd] in H1.
  destruct H1 as [[H1a H1b] H1c].
  pose proof (round_nearest_even_bounds (shr_m mrs1) (loc_of_shr_record mrs1)) as Hr.
  set (m1 := round_nearest_even (shr_m mrs1) (loc_of_shr_record mrs1)) in *.
  pose proof (shr_fexp_bound m1 e1 loc_Exact 0 ltac:(lia) H1c ltac:(lia) ltac:(lia)) as H2.
  destruct (shr_fexp prec emax m1 e1 loc_Exact) as [mrs2 e2]. cbn [fst snd] in H2.
  destruct H2 as [[H2a H2b] H2c].
  destruct (shr_m mrs2) as [|p|p] eqn:Hm2; try lia.
  - left; reflexivity.
  - right. replace (e2 <=? emax - prec) with true
      by (symmetry; apply Z.leb_le; unfold emax, prec; lia).
    exists p, e2. repeat split; lia.
Qed.

(** The division [n / d] of the library, for [n < c * d]. *)
Lemma SFdiv_below (s : bool) (n d : positive) :
  Zpos n < c * Zpos d ->
  magnitude_at_most c s
    (SFdiv prec emax (S754_finite s n 0) (S754_finite false d 0)).
Proof.
  intros Hlt. unfold SFdiv, SFdiv_core_binary.
  rewrite fexp64. rewrite xorb_false_r.
  set (d1 := Zdigits2 (Zpos n)). set (d2 := Zdigits2 (Zpos d)).
  assert (Hd : d1 <= d2 + j).
  { unfold d1, d2; cbn [Zdigits2].
    rewrite (digits2_pos_size n), (digits2_pos_size d).
    apply pos_size_bound; [lia|].
    pose proof (Pos.size_gt d) as Hgt.
    assert (Hgt' : Zpos d < 2 ^ Zpos (Pos.size d)).
    { rewrite <- Pos2Z.inj_pow. exact Hgt. }
    rewrite pow2_split by lia. nia. }
  set (e' := Z.min (Z.max (d1 + 0 - (d2 + 0) - 53) (-1074)) (0 - 0)).
  assert (He' : e' <= j - 53) by (unfold e'; lia).
  assert (He0 : e' <= 0) by (unfold e'; lia).
  replace (0 - 0 - e') with (- e') by lia.
  destruct (- e') as [|p|p] eqn:Hs; try lia.
  - pose proof (Z_div_mod (Zpos n) (Zpos d) ltac:(lia)) as Hdm.
    destruct (Z.div_eucl (Zpos n) (Zpos d)) as [q r].
    destruct Hdm as [Heq Hr].
    apply binary_round_aux_below; try assumption.
    + nia.
    + replace (- e') with 0 by lia. change (2 ^ 0) with 1. nia.
  - rewrite Z.shiftl_mul_pow2 by lia.
    pose proof (pow2_pos (Zpos p) ltac:(lia)) as Hp.
    pose proof (Z_div_mod (Zpos n * 2 ^ Zpos p) (Zpos d) ltac:(lia)) as Hdm.
    destruct (Z.div_eucl (Zpos n * 2 ^ Zpos p) (Zpos d)) as [q r].
    destruct Hdm as [Heq Hr].
    apply binary_round_aux_below; try assumption.
    + nia.
    + replace (- e') with (Zpos p) by lia. nia.
Qed.

End DivisionBounds.

Section DecimalBounds.

Lemma decimal_to_float_below_ten (s : bool) (n : Z) (k : nat) :
  0 <= n < 10 * 10 ^ Z.of_nat k ->
  magnitude_at_most 10 s (decimal_to_float s n k).
Proof.
  intros [H0 Hlt]. unfold decimal_to_float.
  destruct n as [|p|p]; try lia.
  - left; reflexivity.
  - apply (SFdiv_below 10 4); [change (2 ^ 4) with 16; lia | lia |].
    rewrite Z2Pos.id by (apply Z.pow_pos_nonneg; lia). exact Hlt.
Qed.

Lemma magnitude_at_most_le_int (b c : Z) (x : float) :
  0 <= b <= c -> magnitude_at_most b false x -> float_le_int x c = true.
Proof.
  intros Hbc [->|(m & e & -> & He & Hm)].
  - unfold float_le_int, cmp_float_int.
    destruct (0 ?= c) eqn:Hc; try reflexivity.
    apply Z.compare_gt_iff in Hc. lia.
  - unfold float_le_int, cmp_float_int.
    destruct e as [|p|p]; try lia.
    + change (- 0) with 0 in Hm. change (2 ^ 0) with 1 in *.
      destruct (Zpos m * 1 ?= c) eqn:Hc; try reflexivity.
      apply Z.compare_gt_iff in Hc. lia.
    + change (- Zneg p) with (Zpos p) in Hm.
      pose proof (pow2_pos (Zpos p) ltac:(lia)) as Hp.
      destruct (Zpos m ?= c * 2 ^ Zpos p) eqn:Hc; try reflexivity.
      apply Z.compare_gt_iff in Hc. nia.
Qed.

Lemma magnitude_at_most_finite (b : Z) (s : bool) (x : float) :
  magnitude_at_most b s x -> is_inf x = false /\ is_nan x = false.
Proof. intros [->|(m & e & -> & _)]; split; reflexivity. Qed.

End DecimalBounds.

(** ** Digit strings *)

Section DigitStrings.

Lemma all_digits_cons (c : ascii) (s : string) :
  all_digits (String c s) = is_ascii_digit c && all_digits s.
Proof. reflexivity. Qed.

Lemma all_digits_app (a b : string) :
  all_digits (a ++ b)%string = all_digits a && all_digits b.
Proof.
  induction a as [|c a IH]; simpl; [reflexivity|].
  rewrite !all_digits_cons, IH, andb_assoc. reflexivity.
Qed.

Lemma string_of_uint_digits (u : Decimal.uint) :
  all_digits (NilEmpty.string_of_uint u) = true.
Proof. induction u; simpl; try reflexivity; rewrite all_digits_cons; exact IHu. Qed.

Lemma str_of_nonneg_digits (n : Z) : all_digits (str_of_nonneg n) = true.
Proof.
  unfold str_of_nonneg, NilZero.string_of_uint.
  destruct (N.to_uint (Z.to_N n)) eqn:E; try reflexivity;
    rewrite <- E; apply string_of_uint_digits.
Qed.

Lemma str_take_drop (i : nat) (s : string) :
  (str_take i s ++ str_drop i s)%string = s.
Proof.
  revert s; induction i as [|i IH]; intros [|c s]; simpl; try reflexivity.
  now rewrite IH.
Qed.

Lemma str_drop_length (i : nat) (s : string) :
  String.length (str_drop i s) = (String.length s - i)%nat.
Proof.
  revert s; induction i as [|i IH]; intros [|c s]; simpl; try reflexivity; try lia.
  apply IH.
Qed.

Lemma all_digits_take (i : nat) (s : string) :
  all_digits s = true -> all_digits (str_take i s) = true.
Proof.
  revert s; induction i as [|i IH]; intros [|c s]; simpl; try reflexivity.
  rewrite !all_digits_cons. intros [Hc Hs]%andb_prop.
  rewrite Hc. simpl. now apply IH.
Qed.

Lemma all_digits_drop (i : nat) (s : string) :
  all_digits s = true -> all_digits (str_drop i s) = true.
Proof.
  revert s; induction i as [|i IH]; intros [|c s]; simpl; try reflexivity; try tauto.
  rewrite all_digits_cons. intros [Hc Hs]%andb_prop. now apply IH.
Qed.

Lemma digit_not_sign (c : ascii) :
  is_ascii_digit c = true ->
  Ascii.eqb c "-" = false /\ Ascii.eqb c "+" = false /\ Ascii.eqb c "." = false.
Proof.
  intros Hc. repeat split; apply Ascii.eqb_neq; intros ->; discriminate Hc.
Qed.

Lemma digit_value_range (c : ascii) :
  is_ascii_digit c = true -> 0 <= digit_value c <= 9.
Proof.
  unfold is_ascii_digit, digit_value. intros [H1 H2]%andb_prop.
  apply N.leb_le in H1, H2. lia.
Qed.

(** A run of digits followed by the end or by a point is read whole. *)
Lemma span_digits_all (a : string) :
  all_digits a = true -> span_digits a = (a, EmptyString).
Proof.
  induction a as [|c a IH]; simpl; [reflexivity|].
  rewrite all_digits_cons. intros [Hc Ha]%andb_prop.
  rewrite Hc, (IH Ha). reflexivity.
Qed.

Lemma span_digits_point (a b : string) :
  all_digits a = true ->
  span_digits (a ++ String "." b)%string = (a, String "." b).
Proof.
  induction a as [|c a IH]; simpl; [reflexivity|].
  rewrite all_digits_cons. intros [Hc Ha]%andb_prop.
  rewrite Hc, (IH Ha). reflexivity.
Qed.

Lemma int_of_digits_bound (s : string) : forall acc,
  all_digits s = true -> 0 <= acc ->
  0 <= int_of_digits acc s < (acc + 1) * 10 ^ Z.of_nat (String.length s).
Proof.
  induction s as [|c s IH]; intros acc Hs Hacc.
  - simpl. lia.
  - rewrite all_digits_cons in Hs. apply andb_prop in Hs as [Hc Hs].
    pose proof (digit_value_range c Hc) as Hd.
    cbn [int_of_digits String.length].
    specialize (IH (10 * acc + digit_value c) Hs ltac:(lia)).
    rewrite Nat2Z.inj_succ, Z.pow_succ_r by lia.
    assert (0 < 10 ^ Z.of_nat (String.length s)) by (apply Z.pow_pos_nonneg; lia).
    nia.
Qed.

(** A digit string with a point inserted inside it is a numeral, and its
    value is the digits over the power of ten of the fractional length. *)
Lemma candidate_value (s : string) (i : nat) :
  all_digits s = true -> (1 <= i <= String.length s)%nat ->
  candidate s i =
    Some (decimal_to_float false (int_of_digits 0 s) (String.length s - i)).
Proof.
  intros Hs Hi. unfold candidate, float_of_str.
  pose proof (all_digits_take i s Hs) as Ht.
  pose proof (all_digits_drop i s Hs) as Hd.
  destruct i as [|i]; [lia|]. destruct s as [|c s]; [simpl in Hi; lia|].
  cbn [str_take String.append].
  rewrite all_digits_cons in Hs. apply andb_prop in Hs as [Hc Hs'].
  destruct (digit_not_sign c Hc) as (-> & -> & _).
  change (String c (str_take i s ++ String "." (str_drop (S i) (String c s))))
    with (str_take (S i) (String c s)
          ++ String "." (str_drop (S i) (String c s)))%string.
  rewrite (span_digits_point _ _ Ht).
  change (Ascii.eqb "." ".") with true. cbv iota.
  rewrite (span_digits_all _ Hd).
  cbn [str_take str_is_empty andb].
  rewrite str_drop_length.
  change (String c (str_take i s)) with (str_take (S i) (String c s)).
  rewrite str_take_drop. reflexivity.
Qed.

(** The candidate at position 1 is below ten before rounding, so at most
    ten after it: a single digit stands before the point. *)
Lemma candidate_one_at_most_ten (s : string) :
  all_digits s = true -> (2 <= String.length s)%nat ->
  exists c, candidate s 1 = Some c /\ magnitude_at_most 10 false c.
Proof.
  intros Hs Hlen. eexists; split.
  - apply candidate_value; [assumption|lia].
  - apply decimal_to_float_below_ten.
    pose proof (int_of_digits_bound s 0 Hs ltac:(lia)) as Hb.
    replace (10 * 10 ^ Z.of_nat (String.length s - 1))
      with (10 ^ Z.of_nat (String.length s)); [lia|].
    replace (Z.of_nat (String.length s))
      with (Z.succ (Z.of_nat (String.length s - 1))) at 1 by lia.
    rewrite Z.pow_succ_r by lia. reflexivity.
Qed.

End DigitStrings.

(** ** The longitude repair *)

Section FixLongitude.

Lemma seq_from_one (n : nat) : (2 <= n)%nat -> seq 1 (n - 1) = 1%nat :: seq 2 (n - 2).
Proof.
  intros Hn. replace (n - 1)%nat with (S (n - 2)) by lia. reflexivity.
Qed.

(** With at least two digits the scan stops at position 1, in the code
    and in the specification's wording alike. *)
Lemma scan_accepts_one (s : string) (v : float) :
  all_digits s = true -> (2 <= String.length s)%nat ->
  exists c, candidate s 1 = Some c /\ magnitude_at_most 10 false c /\
            scan_positions s v (seq 1 (String.length s - 1)) = Some c /\
            spec_first_fit s = Some c.
Proof.
  intros Hs Hlen.
  destruct (candidate_one_at_most_ten s Hs Hlen) as (c & Hc & Hm).
  pose proof (magnitude_at_most_le_int 10 180 c ltac:(lia) Hm) as Hle.
  exists c. repeat split; try assumption.
  - rewrite seq_from_one by assumption. cbn [scan_positions].
    change (float_of_str (str_take 1 s ++ "." ++ str_drop 1 s))
      with (candidate s 1).
    rewrite Hc, Hle. reflexivity.
  - unfold spec_first_fit. rewrite seq_from_one by assumption.
    cbn [map find]. rewrite Hc, Hle. reflexivity.
Qed.

Lemma abs_int_digits_inv (v : float) (s : string) :
  abs_int_digits v = Some s ->
  exists i, int_of_float v = Some i /\ s = str_of_nonneg (Z.abs i).
Proof.
  unfold abs_int_digits. destruct (int_of_float v) as [i|]; simpl; [|discriminate].
  intros [= <-]. now exists i.
Qed.

Lemma abs_int_digits_all (v : float) (s : string) :
  abs_int_digits v = Some s -> all_digits s = true.
Proof.
  intros (i & _ & ->)%abs_int_digits_inv. apply str_of_nonneg_digits.
Qed.

Lemma fabs_signed (c : float) (b : bool) :
  magnitude_at_most 10 false c -> fabs (if b then fneg c else c) = c.
Proof.
  intros [->|(m & e & -> & _)]; destruct b; reflexivity.
Qed.

Lemma float_le_gt_int (x : float) (n : Z) :
  float_le_int x n = true -> float_gt_int x n = false.
Proof.
  unfold float_le_int, float_gt_int.
  destruct (cmp_float_int x n) as [[]|]; congruence.
Qed.

(** [C1], as amended.  For a longitude string that parses to [v] with
    [|v| > 1000] whose absolute integer digit string [s] has length 6 or
    at least 9, [_fix_longitude] returns what the specification's scan
    describes: the candidates at positions [1 .. len(s)-1] in increasing
    order, the first one of magnitude at most 180, the original magnitude
    were there none, with the sign of [v] put back.  When [s] has fewer
    than 6 digits there is no scan: [v] is returned unchanged. *)
Theorem fix_longitude_scan_first_fit (lon_str : string) (v : float) (s : string) :
  float_of_str lon_str = Some v ->
  float_gt_int (fabs v) 1000 = true ->
  abs_int_digits v = Some s ->
  ((String.length s = 6%nat \/ (9 <= String.length s)%nat) ->
     _fix_longitude lon_str = Some (spec_scan_repair v s)) /\
  ((String.length s < 6)%nat -> _fix_longitude lon_str = Some v).
Proof.
  intros Hparse Hbig Hdig.
  pose proof (abs_int_digits_all v s Hdig) as Hall.
  destruct (abs_int_digits_inv v s Hdig) as (i & Hi & Hs).
  unfold _fix_longitude. rewrite Hparse, Hbig, Hi, <- Hs.
  split; intros Hlen.
  - destruct (scan_accepts_one s v Hall ltac:(lia)) as (c & _ & _ & Hscan & Hspec).
    settle_length_tests.
    rewrite Hscan. unfold spec_scan_repair. rewrite Hspec. reflexivity.
  - settle_length_tests. reflexivity.
Qed.

(** The theorem at ["-123456789"] (nine digits) and at ["54321"] (five). *)
Lemma fix_longitude_scan_first_fit_witness :
  (float_of_str "-123456789" = Some (decimal_to_float true 123456789 0) /\
   float_gt_int (fabs (decimal_to_float true 123456789 0)) 1000 = true /\
   abs_int_digits (decimal_to_float true 123456789 0) = Some "123456789"%string /\
   _fix_longitude "-123456789" =
     Some (spec_scan_repair (decimal_to_float true 123456789 0) "123456789")) /\
  (float_of_str "54321" = Some (decimal_to_float false 54321 0) /\
   _fix_longitude "54321" = Some (decimal_to_float false 54321 0)).
Proof.
  split.
  - pose proof (fix_longitude_scan_first_fit "-123456789"
                  (decimal_to_float true 123456789 0) "123456789"
                  eq_refl eq_refl eq_refl) as [H _].
    refine (conj eq_refl (conj eq_refl (conj eq_refl _))).
    apply H. right. simpl. lia.
  - pose proof (fix_longitude_scan_first_fit "54321"
                  (decimal_to_float false 54321 0) "54321"
                  eq_refl eq_refl eq_refl) as [_ H].
    split; [reflexivity|]. apply H. simpl. lia.
Defined.

(** [C1] as written fails for digit strings of length 4 and 5, which are
    "other than 7 or 8": ["12345"] parses to 12345.0, above 1000, with the
    five-digit string ["12345"]; the scan of the specification gives
    1.2345, the code returns 12345.0 unchanged. *)
Lemma fix_longitude_short_not_scanned :
  exists lon_str v s,
    float_of_str lon_str = Some v /\
    float_gt_int (fabs v) 1000 = true /\
    abs_int_digits v = Some s /\
    String.length s <> 7%nat /\ String.length s <> 8%nat /\
    _fix_longitude lon_str = Some v /\
    _fix_longitude lon_str <> Some (spec_scan_repair v s).
Proof.
  exists "12345"%string, (decimal_to_float false 12345 0), "12345"%string.
  repeat split; try reflexivity; try (simpl; lia).
  vm_compute. discriminate.
Qed.

(** [C2].  [_fix_longitude] returns [v] unchanged when [|v| <= 1000]; when
    [|v| > 1000] and the absolute integer digit string has 7 or 8 digits
    it returns the digits with a point after the first two, with the sign
    of [v]; and it maps 1604008 to 16.04008, -1613330 to -16.13330 and
    45.2 to 45.2. *)
Theorem fix_longitude_threshold_and_two_digits :
  (forall lon_str v,
      float_of_str lon_str = Some v ->
      float_le_int (fabs v) 1000 = true ->
      _fix_longitude lon_str = Some v) /\
  (forall lon_str v s,
      float_of_str lon_str = Some v ->
      float_gt_int (fabs v) 1000 = true ->
      abs_int_digits v = Some s ->
      String.length s = 7%nat \/ String.length s = 8%nat ->
      exists c,
        float_of_str (str_take 2 s ++ "." ++ str_drop 2 s) = Some c /\
        c = decimal_to_float false (int_of_digits 0 s) (String.length s - 2) /\
        _fix_longitude lon_str = Some (if float_lt_int v 0 then fneg c else c)) /\
  _fix_longitude "1604008" = float_of_str "16.04008" /\
  _fix_longitude "-1613330" = float_of_str "-16.13330" /\
  _fix_longitude "45.2" = float_of_str "45.2" /\
  float_of_str "45.2" <> None.
Proof.
  split; [|split; [|repeat split; try reflexivity; vm_compute; discriminate]].
  - intros lon_str v Hparse Hle.
    unfold _fix_longitude. rewrite Hparse, (float_le_gt_int _ _ Hle). reflexivity.
  - intros lon_str v s Hparse Hbig Hdig Hlen.
    pose proof (abs_int_digits_all v s Hdig) as Hall.
    destruct (abs_int_digits_inv v s Hdig) as (i & Hi & Hs).
    pose proof (candidate_value s 2 Hall ltac:(lia)) as Hc.
    unfold candidate in Hc.
    eexists; split; [exact Hc|]. split; [reflexivity|].
    unfold _fix_longitude. rewrite Hparse, Hbig, Hi, <- Hs.
    replace (6 <=? String.length s)%nat with true
      by (symmetry; apply Nat.leb_le; lia).
    destruct Hlen as [Hlen|Hlen]; rewrite Hlen; cbn [Nat.eqb]; rewrite <- Hlen;
      rewrite Hc; reflexivity.
Qed.

(** The theorem at ["999.5"] (below the threshold) and at ["-1613330"]. *)
Lemma fix_longitude_threshold_and_two_digits_witness :
  (float_le_int (fabs (decimal_to_float false 9995 1)) 1000 = true /\
   _fix_longitude "999.5" = Some (decimal_to_float false 9995 1)) /\
  (float_gt_int (fabs (decimal_to_float true 1613330 0)) 1000 = true /\
   abs_int_digits (decimal_to_float true 1613330 0) = Some "1613330"%string /\
   _fix_longitude "-1613330" =
     Some (fneg (decimal_to_float false 1613330 5))).
Proof.
  destruct fix_longitude_threshold_and_two_digits as (Hsmall & Hmid & _).
  split.
  - split; [reflexivity|].
    exact (Hsmall "999.5"%string (decimal_to_float false 9995 1) eq_refl eq_refl).
  - refine (conj eq_refl (conj eq_refl _)).
    destruct (Hmid "-1613330"%string (decimal_to_float true 1613330 0)
                   "1613330"%string eq_refl eq_refl eq_refl
                   (or_introl eq_refl)) as (c & _ & Hc & Hfix).
    rewrite Hfix, Hc. reflexivity.
Defined.

(** [C10], as amended.  In the candidate scan (digit strings of length 6
    or at least 9, [|v| > 1000]) the candidate at position 1 is at most 10,
    hence at most 180; the scan accepts it, the result is that candidate
    with the sign of [v], its magnitude is at most 10, and the scan never
    ends in its fall-back. *)
Theorem fix_longitude_scan_accepts_position_one
        (lon_str : string) (v : float) (s : string) :
  float_of_str lon_str = Some v ->
  float_gt_int (fabs v) 1000 = true ->
  abs_int_digits v = Some s ->
  String.length s = 6%nat \/ (9 <= String.length s)%nat ->
  exists c,
    candidate s 1 = Some c /\
    float_le_int c 10 = true /\
    float_le_int c 180 = true /\
    scan_positions s v (seq 1 (String.length s - 1)) = Some c /\
    _fix_longitude lon_str = Some (if float_lt_int v 0 then fneg c else c) /\
    fabs (if float_lt_int v 0 then fneg c else c) = c.
Proof.
  intros Hparse Hbig Hdig Hlen.
  pose proof (abs_int_digits_all v s Hdig) as Hall.
  destruct (abs_int_digits_inv v s Hdig) as (i & Hi & Hs).
  destruct (scan_accepts_one s v Hall ltac:(lia)) as (c & Hc & Hm & Hscan & _).
  exists c. repeat split; try assumption.
  - apply (magnitude_at_most_le_int 10 10); [lia|assumption].
  - apply (magnitude_at_most_le_int 10 180); [lia|assumption].
  - unfold _fix_longitude. rewrite Hparse, Hbig, Hi, <- Hs.
    settle_length_tests.
    rewrite Hscan. reflexivity.
  - apply fabs_signed; assumption.
Qed.

(** The theorem at ["987654"]: the scan returns 9.87654. *)
Lemma fix_longitude_scan_accepts_position_one_witness :
  float_of_str "987654" = Some (decimal_to_float false 987654 0) /\
  float_gt_int (fabs (decimal_to_float false 987654 0)) 1000 = true /\
  abs_int_digits (decimal_to_float false 987654 0) = Some "987654"%string /\
  _fix_longitude "987654" = float_of_str "9.87654".
Proof.
  refine (conj eq_refl (conj eq_refl (conj eq_refl _))).
  destruct (fix_longitude_scan_accepts_position_one "987654"
              (decimal_to_float false 987654 0) "987654"
              eq_refl eq_refl eq_refl (or_introl eq_refl))
    as (c & Hc & _ & _ & _ & Hfix & _).
  vm_compute in Hc. injection Hc as <-. rewrite Hfix. reflexivity.
Defined.

(** [C10] as written says the candidate at position 1, and so the returned
    magnitude, is strictly below 10.  The 24-digit string below parses to
    the float 99999999999999991611392; its candidate at position 1,
    9.9999999999999991611392, is nearer to 10.0 than to the float below
    it and is read as 10.0, which is what the repair returns. *)
Lemma fix_longitude_candidate_reaches_ten :
  exists lon_str v s c,
    float_of_str lon_str = Some v /\
    float_gt_int (fabs v) 1000 = true /\
    abs_int_digits v = Some s /\
    (9 <= String.length s)%nat /\
    candidate s 1 = Some c /\
    _fix_longitude lon_str = Some c /\
    float_lt_int c 10 = false /\
    c = float_of_int 10.
Proof.
  exists "100000000000000000000000"%string,
         (decimal_to_float false (10 ^ 23) 0),
         "99999999999999991611392"%string,
         (float_of_int 10).
  repeat split; try reflexivity. simpl; lia.
Qed.

End FixLongitude.

(** ** The validator *)

Section Validator.
Import BlitzortungDecoder.

(** [C3].  [_validate_strike] rejects a record exactly when its latitude
    or its longitude is missing, or [|latitude| > 90], or
    [|longitude| > 180]; it accepts latitude 90 and -90 and rejects
    90.0001, accepts longitude -180 and 180 and rejects 180.0001. *)
Theorem validate_strike_rejects_exactly :
  (forall strike,
      _validate_strike strike = false <->
      (lat strike = None \/ lon strike = None \/
       (exists la, lat strike = Some la /\ float_gt_int (fabs la) 90 = true) \/
       (exists lo, lon strike = Some lo /\ float_gt_int (fabs lo) 180 = true))) /\
  (forall strike,
      _validate_strike (with_coordinates strike (float_of_str "90") (float_of_str "0")) = true /\
      _validate_strike (with_coordinates strike (float_of_str "-90") (float_of_str "0")) = true /\
      _validate_strike (with_coordinates strike (float_of_str "90.0001") (float_of_str "0")) = false /\
      _validate_strike (with_coordinates strike (float_of_str "0") (float_of_str "-180")) = true /\
      _validate_strike (with_coordinates strike (float_of_str "0") (float_of_str "180")) = true /\
      _validate_strike (with_coordinates strike (float_of_str "0") (float_of_str "180.0001")) = false).
Proof.
  split.
  - intros strike. unfold _validate_strike.
    destruct (lat strike) as [la|], (lon strike) as [lo|];
      try (split; [intros _; auto | reflexivity]).
    destruct (float_gt_int (fabs la) 90) eqn:Hla;
      destruct (float_gt_int (fabs lo) 180) eqn:Hlo; simpl; split;
      try reflexivity; try discriminate.
    + intros _. right; right; left. now exists la.
    + intros _. right; right; left. now exists la.
    + intros _. right; right; right. now exists lo.
    + intros [H|[H|[(x & [= <-] & H)|(x & [= <-] & H)]]]; congruence.
  - intros strike. repeat split.
Qed.

(** The theorem at a record without a longitude and at one with latitude
    95. *)
Lemma validate_strike_rejects_exactly_witness :
  _validate_strike
    {| time := 12; timestamp := {| wall_second := 12; microsecond := 0 |};
       lat := float_of_str "45"; lon := None;
       alt := None; pol := None; mds := None; mcg := None |} = false /\
  (float_gt_int (fabs (decimal_to_float false 95 0)) 90 = true /\
   _validate_strike
     {| time := 12; timestamp := {| wall_second := 12; microsecond := 0 |};
        lat := Some (decimal_to_float false 95 0); lon := float_of_str "10";
        alt := None; pol := None; mds := None; mcg := None |} = false).
Proof.
  destruct validate_strike_rejects_exactly as [Hiff _].
  split.
  - apply Hiff. right; left. reflexivity.
  - refine (conj eq_refl _).
    apply Hiff. right; right; left.
    exists (decimal_to_float false 95 0). split; reflexivity.
Defined.

End Validator.

(** ** Timestamps *)

Section Timestamps.
Import BlitzortungDecoder.
Context {zone : LocalZone}.










End Timestamps.

Section TimestampsExamples.
Import BlitzortungDecoder.


(** [C4] as written has the conversion give a UTC instant.  In a process
    that runs an hour east of UTC the raw time 1700000000, which is
    2023-11-14 22:13:20 in UTC, becomes the datetime 2023-11-14 23:13:20:
    not the one a process in UTC stores. *)
Lemma normalize_timestamp_is_local_time :
  normalize_timestamp (zone := cet) 1700000000 =
    Some {| wall_second := 1700003600; microsecond := 0 |} /\
  normalize_timestamp (zone := utc) 1700000000 =
    Some {| wall_second := 1700000000; microsecond := 0 |} /\
  normalize_timestamp (zone := cet) 1700000000 <>
    normalize_timestamp (zone := utc) 1700000000.
Proof.
  split; [reflexivity|]. split; [reflexivity|]. discriminate.
Qed.

End TimestampsExamples.

(** ** The ingestion rate *)

Section SuccessRate.
Import LightningDatabase Api.

(** The true division of two ints of the [INTEGER] range, the divisor
    positive, raises nothing. *)
Lemma int_truediv_defined (a b : Z) :
  0 < b -> in_integer a = true -> exists q, int_truediv a b = Some q.
Proof.
  intros Hb Ha. unfold in_integer in Ha.
  apply andb_prop in Ha as [Hlo Hhi]. apply Z.leb_le in Hlo, Hhi.
  change (2 ^ 31) with 2147483648 in *.
  unfold int_truediv.
  destruct b as [|pb|pb]; try lia.
  destruct a as [|pa|pa]; [eexists; reflexivity| |].
  - pose proof (SFdiv_below 2147483649 32 ltac:(change (2 ^ 32) with 4294967296; lia)
                            ltac:(lia) (xorb (Zpos pa <? 0) (Zpos pb <? 0)) pa pb
                            ltac:(lia)) as Hm.
    apply magnitude_at_most_finite in Hm as [Hinf _].
    cbn [Z.abs Z.to_pos]. rewrite Hinf. eexists; reflexivity.
  - pose proof (SFdiv_below 2147483649 32 ltac:(change (2 ^ 32) with 4294967296; lia)
                            ltac:(lia) (xorb (Zneg pa <? 0) (Zpos pb <? 0)) pa pb
                            ltac:(lia)) as Hm.
    apply magnitude_at_most_finite in Hm as [Hinf _].
    cbn [Z.abs Z.to_pos]. rewrite Hinf. eexists; reflexivity.
Qed.

(** [C7], as amended.  For counters of the [INTEGER] range with
    [total_received > 0] the endpoint answers, and its [success_rate] is
    [total_stored / total_received * 100] rounded to two decimals; with
    [total_received = 0] (or below) it is 0 and nothing is divided;
    received 10 and stored 7 give 70.0. *)
Theorem success_rate_rounded :
  (forall row,
      0 < total_received row ->
      in_integer (total_stored row) = true ->
      exists q,
        int_truediv (total_stored row) (total_received row) = Some q /\
        raw_success_rate (total_received row) (total_stored row) =
          Some (fmul q (float_of_int 100)) /\
        get_ingestion_stats (Some row) =
          Ok (row, round2 (fmul q (float_of_int 100)))) /\
  (forall row,
      total_received row <= 0 ->
      raw_success_rate (total_received row) (total_stored row) =
        Some (S754_zero false) /\
      get_ingestion_stats (Some row) = Ok (row, S754_zero false)) /\
  success_rate 10 7 = float_of_str "70.0" /\
  success_rate 10 7 = Some (float_of_int 70).
Proof.
  split; [|split; [|split; reflexivity]].
  - intros row Hpos Hst.
    destruct (int_truediv_defined _ _ Hpos Hst) as [q Hq].
    exists q. split; [assumption|].
    unfold get_ingestion_stats, success_rate, raw_success_rate.
    replace (total_received row >? 0) with true
      by (symmetry; rewrite Z.gtb_ltb; apply Z.ltb_lt; lia).
    rewrite Hq. split; reflexivity.
  - intros row Hzero.
    unfold get_ingestion_stats, success_rate, raw_success_rate.
    replace (total_received row >? 0) with false
      by (symmetry; rewrite Z.gtb_ltb; apply Z.ltb_ge; lia).
    split; reflexivity.
Qed.

(** The theorem at the rows (received 3, stored 1) and (received 0,
    stored 0). *)
Lemma success_rate_rounded_witness :
  get_ingestion_stats
    (Some {| total_received := 3; total_stored := 1; total_failed := 2;
             last_strike_time := None; updated_at := 0 |}) =
    Ok ({| total_received := 3; total_stored := 1; total_failed := 2;
           last_strike_time := None; updated_at := 0 |},
        decimal_to_float false 3333 2) /\
  get_ingestion_stats
    (Some {| total_received := 0; total_stored := 0; total_failed := 0;
             last_strike_time := None; updated_at := 0 |}) =
    Ok ({| total_received := 0; total_stored := 0; total_failed := 0;
           last_strike_time := None; updated_at := 0 |}, S754_zero false).
Proof.
  destruct success_rate_rounded as (Hpos & Hzero & _).
  split.
  - destruct (Hpos {| total_received := 3; total_stored := 1; total_failed := 2;
                      last_strike_time := None; updated_at := 0 |}
                   eq_refl eq_refl) as (q & Hq & _ & Hget).
    vm_compute in Hq. injection Hq as <-. rewrite Hget. reflexivity.
  - apply (Hzero {| total_received := 0; total_stored := 0; total_failed := 0;
                    last_strike_time := None; updated_at := 0 |}).
    discriminate.
Defined.

(** [C7] as written gives the rate as [stored / received * 100].  With
    received 3 and stored 1 that is 33.33333333333333; the endpoint
    answers 33.33. *)
Lemma success_rate_is_not_the_raw_rate :
  exists total stored,
    0 < total /\
    raw_success_rate total stored = float_of_str "33.33333333333333" /\
    success_rate total stored = float_of_str "33.33" /\
    success_rate total stored <> raw_success_rate total stored.
Proof.
  exists 3, 1. repeat split. vm_compute. discriminate.
Qed.

End SuccessRate.

(** ** The frame handler and the counters *)

Section Counters.
Import Text BlitzortungDecoder LightningDatabase Ingest.
Context {unicode : UnicodeData} {zone : LocalZone}.

Lemma update_stats_stats (reply : store_reply) (d : database) (r s f : Z) :
  stats (update_stats reply d r s f) =
    if update_applies reply (stats d) r s f then
      {| total_received := total_received (stats d) + r;
         total_stored := total_stored (stats d) + s;
         total_failed := total_failed (stats d) + f;
         last_strike_time := Some (current_timestamp reply);
         updated_at := current_timestamp reply |}
    else stats d.
Proof.
  unfold update_stats. destruct (update_applies reply (stats d) r s f); reflexivity.
Qed.

Lemma update_stats_strikes (reply : store_reply) (d : database) (r s f : Z) :
  lightning_strikes (update_stats reply d r s f) = lightning_strikes d.
Proof.
  unfold update_stats. destruct (update_applies reply (stats d) r s f); reflexivity.
Qed.

(** One frame asks the store for exactly one update of the counters:
    received by 1, and stored or failed by 1 according to [persisted]. *)
Lemma on_data_stats (reply : store_reply) (w : world) (data : payload) (opcode : Z) :
  let ds := if persisted reply w data opcode then 1 else 0 in
  stats (db (on_data reply w data opcode)) =
    if update_applies reply (stats (db w)) 1 ds (1 - ds) then
      {| total_received := total_received (stats (db w)) + 1;
         total_stored := total_stored (stats (db w)) + ds;
         total_failed := total_failed (stats (db w)) + (1 - ds);
         last_strike_time := Some (current_timestamp reply);
         updated_at := current_timestamp reply |}
    else stats (db w).
Proof.
  unfold on_data, persisted.
  destruct (decode_payload (decoder_state w) (frame_raw data opcode)) as [d' [s|]];
    cbn [snd].
  - unfold insert_strike. destruct (insert_accepted reply); cbn [db];
      rewrite update_stats_stats; reflexivity.
  - cbn [db]. rewrite update_stats_stats. reflexivity.
Qed.

(** A text without a time field gives no record. *)
Lemma extract_fields_needs_time (t : text) :
  re_search time_pattern t = None -> _extract_fields t = None.
Proof. intros H. unfold _extract_fields. rewrite H. reflexivity. Qed.

Lemma decode_needs_time (self : decoder) (b : list byte) :
  re_search time_pattern (decoded_text b) = None ->
  decode self b =
    ({| sample_count := sample_count self + 1;
        successful_decodes := successful_decodes self;
        failed_decodes := failed_decodes self + 1 |}, None).
Proof.
  intros H. unfold decode. rewrite (extract_fields_needs_time _ H). reflexivity.
Qed.

(** [C6], as amended.  For a frame whose decoded text has no time field,
    extraction gives no record, nothing is stored, and the handler asks
    for received + 1 and failed + 1: when the store applies that update
    the counters change by exactly that, with [total_stored] unchanged;
    when the store rejects it the three counters stay as they were. *)
Theorem on_data_without_time
        (reply : store_reply) (w : world) (data : payload) (opcode : Z)
        (b : list byte) :
  frame_raw data opcode = Bytes b ->
  re_search time_pattern (decoded_text b) = None ->
  let w' := on_data reply w data opcode in
  _extract_fields (decoded_text b) = None /\
  snd (decode (decoder_state w) b) = None /\
  lightning_strikes (db w') = lightning_strikes (db w) /\
  (update_applies reply (stats (db w)) 1 0 1 = true ->
     received w' = received w + 1 /\
     failed w' = failed w + 1 /\
     stored w' = stored w) /\
  (update_applies reply (stats (db w)) 1 0 1 = false ->
     received w' = received w /\
     failed w' = failed w /\
     stored w' = stored w).
Proof.
  intros Hraw Htime w'.
  pose proof (on_data_stats reply w data opcode) as Hstats.
  assert (Hp : persisted reply w data opcode = false).
  { unfold persisted. rewrite Hraw. cbn [decode_payload].
    rewrite (decode_needs_time _ _ Htime). reflexivity. }
  rewrite Hp in Hstats. cbn zeta in Hstats. change (1 - 0) with 1 in Hstats.
  split; [now apply extract_fields_needs_time|].
  split; [rewrite (decode_needs_time _ _ Htime); reflexivity|].
  split.
  - unfold w', on_data. rewrite Hraw. cbn [decode_payload].
    rewrite (decode_needs_time _ _ Htime). cbn [db].
    apply update_stats_strikes.
  - unfold received, failed, stored. fold w' in Hstats.
    split; intros Happ; rewrite Hstats, Happ; cbn; repeat split; lia.
Qed.

End Counters.

Section CounterInvariant.
Import Text BlitzortungDecoder LightningDatabase Ingest.
Context {unicode : UnicodeData} {zone : LocalZone}.

Lemma run_invariant (frames : list (store_reply * payload * Z)) : forall w,
  received w = stored w + failed w ->
  received (run w frames) = stored (run w frames) + failed (run w frames).
Proof.
  induction frames as [|[[reply data] opcode] rest IH]; intros w Hw;
    cbn [run]; [assumption|].
  apply IH. unfold received, stored, failed in *.
  rewrite on_data_stats.
  destruct (update_applies reply (stats (db w)) 1 _ _); [|assumption].
  cbn [total_received total_stored total_failed].
  destruct (persisted reply w data opcode); lia.
Qed.

(** [C9], as amended.  Every frame asks the store for one update:
    received by 1 and, by 1, stored when the frame decodes and is
    inserted, failed otherwise.  When the store applies the update the
    counters change by exactly that; when it rejects it (an error of the
    store, or a counter leaving the INTEGER range) they stay as they
    were.  Either way [total_received = total_stored + total_failed] is
    preserved by every call, and holds after any run from the all-zero
    counters. *)
Theorem on_data_counts_one_frame
        (reply : store_reply) (w : world) (data : payload) (opcode : Z) :
  let w' := on_data reply w data opcode in
  let ds := if persisted reply w data opcode then 1 else 0 in
  (update_applies reply (stats (db w)) 1 ds (1 - ds) = true ->
     received w' = received w + 1 /\
     stored w' = stored w + ds /\
     failed w' = failed w + (1 - ds)) /\
  (update_applies reply (stats (db w)) 1 ds (1 - ds) = false ->
     received w' = received w /\
     stored w' = stored w /\
     failed w' = failed w) /\
  (received w = stored w + failed w ->
     received w' = stored w' + failed w') /\
  (forall now frames,
      received (run (initial_world now) frames) =
        stored (run (initial_world now) frames) +
        failed (run (initial_world now) frames)).
Proof.
  intros w' ds.
  pose proof (on_data_stats reply w data opcode) as Hstats.
  fold w' in Hstats. fold ds in Hstats. cbn zeta in Hstats.
  unfold received, stored, failed.
  split; [|split; [|split]].
  - intros Happ. rewrite Hstats, Happ.
    cbn [total_received total_stored total_failed]. repeat split.
  - intros Happ. rewrite Hstats, Happ. repeat split.
  - intros Hinv. exact (run_invariant [(reply, data, opcode)] w Hinv).
  - intros now frames. apply run_invariant. reflexivity.
Qed.

End CounterInvariant.

Section CounterLimit.
Import Text BlitzortungDecoder LightningDatabase Ingest.

Lemma timeless_frame_not_persisted (w : world) :
  persisted (unicode := ascii_data) (zone := utc) accepting_store w timeless_frame OPCODE_BINARY
    = false.
Proof.
  unfold persisted. change (frame_raw timeless_frame OPCODE_BINARY) with timeless_frame.
  unfold timeless_frame at 1. cbn [decode_payload].
  rewrite decode_needs_time; reflexivity.
Qed.

(** Frames without a time, all taken by the store, count up one by one
    while the counters fit an INTEGER. *)
Lemma run_timeless_frames (n : nat) : forall w,
  stored w = 0 -> failed w = received w ->
  0 <= received w -> received w + Z.of_nat n <= 2147483647 ->
  let w' := run (unicode := ascii_data) (zone := utc) w
                (repeat (accepting_store, timeless_frame, OPCODE_BINARY) n) in
  received w' = received w + Z.of_nat n /\ stored w' = 0 /\
  failed w' = received w'.
Proof.
  induction n as [|n IH]; intros w Hs Hf H0 Hmax.
  - cbn. repeat split; try assumption. lia.
  - cbn [repeat run].
    pose proof (on_data_stats (unicode := ascii_data) (zone := utc) accepting_store w
                  timeless_frame OPCODE_BINARY) as Hstats.
    rewrite timeless_frame_not_persisted in Hstats. cbn zeta in Hstats.
    change (1 - 0) with 1 in Hstats.
    unfold received, stored, failed in *.
    assert (Happ : update_applies accepting_store (stats (db w)) 1 0 1 = true).
    { unfold update_applies, in_integer. cbn [update_accepted accepting_store andb].
      change (2 ^ 31) with 2147483648.
      repeat (apply andb_true_intro; split); apply Z.leb_le; lia. }
    rewrite Happ in Hstats.
    specialize (IH (on_data (unicode := ascii_data) (zone := utc) accepting_store w
                            timeless_frame OPCODE_BINARY)).
    rewrite Hstats in IH. cbn [total_received total_stored total_failed] in IH.
    destruct IH as (Hr & Hs' & Hf'); lia.
Qed.

(** After 2147483647 such frames the counter is full, and the next frame
    changes no counter, whatever it holds, though the store refuses
    nothing. *)
Lemma counters_stop_at_integer_max (n : nat) (data : payload) (opcode : Z) :
  Z.of_nat n = 2147483647 ->
  let w := run (unicode := ascii_data) (zone := utc) (initial_world 0)
               (repeat (accepting_store, timeless_frame, OPCODE_BINARY) n) in
  received w = 2147483647 /\
  received (on_data (unicode := ascii_data) (zone := utc) accepting_store w data opcode) =
    received w.
Proof.
  intros Hn w.
  pose proof (run_timeless_frames n (initial_world 0) eq_refl eq_refl) as H.
  cbv zeta in H. fold w in H.
  change (received (initial_world 0)) with 0 in H.
  destruct H as (Hr & _ & _); [lia | lia |].
  rewrite Z.add_0_l, Hn in Hr.
  split; [exact Hr|].
  pose proof (on_data_stats (unicode := ascii_data) (zone := utc) accepting_store w data opcode)
    as Hstats.
  cbv zeta in Hstats. unfold received in *.
  assert (Happ : forall ds,
             update_applies accepting_store (stats (db w)) 1 ds (1 - ds) = false).
  { intros ds. unfold update_applies. rewrite Hr.
    change (in_integer (2147483647 + 1)) with false.
    cbn [update_accepted accepting_store andb]. reflexivity. }
  rewrite Happ in Hstats. rewrite Hstats. reflexivity.
Qed.

End CounterLimit.

Section CounterExamples.
Import Text BlitzortungDecoder LightningDatabase Ingest.

(** The theorem at a frame without a time, the store applying the
    update. *)
Lemma on_data_without_time_witness :
  frame_raw timeless_frame OPCODE_BINARY = timeless_frame /\
  update_applies accepting_store (stats (db (initial_world 0))) 1 0 1 = true /\
  received (on_data (unicode := ascii_data) (zone := utc) accepting_store (initial_world 0)
                    timeless_frame OPCODE_BINARY) = 1 /\
  failed (on_data (unicode := ascii_data) (zone := utc) accepting_store (initial_world 0)
                  timeless_frame OPCODE_BINARY) = 1 /\
  stored (on_data (unicode := ascii_data) (zone := utc) accepting_store (initial_world 0)
                  timeless_frame OPCODE_BINARY) = 0.
Proof.
  refine (conj eq_refl (conj eq_refl _)).
  destruct (on_data_without_time (unicode := ascii_data) (zone := utc) accepting_store
              (initial_world 0) timeless_frame OPCODE_BINARY
              (list_byte_of_string "lat:45.5 lon:16.5") eq_refl eq_refl)
    as (_ & _ & _ & Happ & _).
  destruct (Happ eq_refl) as (Hr & Hf & Hs).
  rewrite Hr, Hf, Hs. repeat split.
Defined.

(** [C6] as written has the counters move for every such frame.  They
    stay when the store refuses the update, and they stay, with a store
    that refuses nothing, once 2147483647 frames have been counted from
    the all-zero counters: the [UPDATE] fails and [update_stats] catches
    the error and rolls back. *)
Lemma timeless_frame_counters_can_stay :
  _extract_fields (unicode := ascii_data) (zone := utc)
    (decoded_text (list_byte_of_string "lat:45.5 lon:16.5")) = None /\
  received (on_data (unicode := ascii_data) (zone := utc) refusing_store (initial_world 0)
                    timeless_frame OPCODE_BINARY)
    <> received (initial_world 0) + 1 /\
  failed (on_data (unicode := ascii_data) (zone := utc) refusing_store (initial_world 0)
                  timeless_frame OPCODE_BINARY)
    <> failed (initial_world 0) + 1 /\
  (exists n,
     let w := run (unicode := ascii_data) (zone := utc) (initial_world 0)
                  (repeat (accepting_store, timeless_frame, OPCODE_BINARY) n) in
     received w = 2147483647 /\
     received (on_data (unicode := ascii_data) (zone := utc) accepting_store w
                       timeless_frame OPCODE_BINARY)
       <> received w + 1).
Proof.
  split; [reflexivity|]. split; [vm_compute; discriminate|].
  split; [vm_compute; discriminate|].
  exists (Z.to_nat 2147483647).
  pose proof (counters_stop_at_integer_max (Z.to_nat 2147483647)
                timeless_frame OPCODE_BINARY
                (Z2Nat.id 2147483647 ltac:(discriminate))) as H.
  cbv zeta in H |- *. destruct H as [H1 H2].
  split; [exact H1|]. rewrite H2, H1. discriminate.
Qed.

(** The theorem at a frame that decodes and is stored, and at one the
    store's refusal leaves uncounted. *)
Lemma on_data_counts_one_frame_witness :
  (persisted (unicode := ascii_data) (zone := utc) accepting_store (initial_world 0)
             good_frame OPCODE_BINARY = true /\
   received (on_data (unicode := ascii_data) (zone := utc) accepting_store (initial_world 0)
                     good_frame OPCODE_BINARY) = 1 /\
   stored (on_data (unicode := ascii_data) (zone := utc) accepting_store (initial_world 0)
                   good_frame OPCODE_BINARY) = 1 /\
   failed (on_data (unicode := ascii_data) (zone := utc) accepting_store (initial_world 0)
                   good_frame OPCODE_BINARY) = 0) /\
  (received (on_data (unicode := ascii_data) (zone := utc) refusing_store (initial_world 0)
                     good_frame OPCODE_BINARY) = 0 /\
   received (on_data (unicode := ascii_data) (zone := utc) refusing_store (initial_world 0)
                     good_frame OPCODE_BINARY) =
     stored (on_data (unicode := ascii_data) (zone := utc) refusing_store (initial_world 0)
                     good_frame OPCODE_BINARY) +
     failed (on_data (unicode := ascii_data) (zone := utc) refusing_store (initial_world 0)
                     good_frame OPCODE_BINARY)).
Proof.
  split.
  - destruct (on_data_counts_one_frame (unicode := ascii_data) (zone := utc) accepting_store
                (initial_world 0) good_frame OPCODE_BINARY)
      as (Happ & _ & _ & _).
    refine (conj eq_refl _).
    destruct (Happ eq_refl) as (Hr & Hs & Hf).
    rewrite Hr, Hs, Hf. repeat split.
  - destruct (on_data_counts_one_frame (unicode := ascii_data) (zone := utc) refusing_store
                (initial_world 0) good_frame OPCODE_BINARY)
      as (_ & Hrej & Hinv & _).
    destruct (Hrej eq_refl) as (Hr & _).
    split; [rewrite Hr; reflexivity | apply Hinv; reflexivity].
Defined.

(** [C9] as written has every frame add 1 to [total_received].  A frame
    handled while the store refuses the update adds nothing; and with a
    store that refuses nothing, the frame after 2147483647 counted ones
    adds nothing either, [total_received] being an INTEGER. *)
Lemma on_data_can_leave_received :
  received (on_data (unicode := ascii_data) (zone := utc) refusing_store (initial_world 0)
                    good_frame OPCODE_BINARY)
    <> received (initial_world 0) + 1 /\
  (exists n,
     let w := run (unicode := ascii_data) (zone := utc) (initial_world 0)
                  (repeat (accepting_store, timeless_frame, OPCODE_BINARY) n) in
     received w = 2147483647 /\
     received (on_data (unicode := ascii_data) (zone := utc) accepting_store w
                       good_frame OPCODE_BINARY)
       <> received w + 1).
Proof.
  split; [vm_compute; discriminate|].
  exists (Z.to_nat 2147483647).
  pose proof (counters_stop_at_integer_max (Z.to_nat 2147483647)
                good_frame OPCODE_BINARY
                (Z2Nat.id 2147483647 ltac:(discriminate))) as H.
  cbv zeta in H |- *. destruct H as [H1 H2].
  split; [exact H1|]. rewrite H2, H1. discriminate.
Qed.

End CounterExamples.

(** ** The byte substitution *)

Section Substitution.
Import BlitzortungDecoder.

Lemma byte_eqb_refl (a : byte) : Byte.eqb a a = true.
Proof. now apply Byte.byte_dec_lb. Qed.

Lemma byte_eqb_sym (a b : byte) : Byte.eqb a b = Byte.eqb b a.
Proof.
  destruct (Byte.eqb a b) eqn:E1, (Byte.eqb b a) eqn:E2; try reflexivity.
  - apply Byte.byte_dec_bl in E1. subst. now rewrite byte_eqb_refl in E2.
  - apply Byte.byte_dec_bl in E2. subst. now rewrite byte_eqb_refl in E1.
Qed.

Lemma lead_not_trail (b : byte) : is_lead b = true -> is_trail b = false.
Proof.
  unfold is_lead. intros [H|H]%orb_prop; apply Byte.byte_dec_bl in H; subst;
    reflexivity.
Qed.

Lemma lead_not_plain (b : byte) : is_lead b = true -> is_plain b = false.
Proof.
  unfold is_lead. intros [H|H]%orb_prop; apply Byte.byte_dec_bl in H; subst;
    reflexivity.
Qed.

Lemma trail_not_plain (b : byte) : is_trail b = true -> is_plain b = false.
Proof.
  unfold is_trail, Text.is_continuation, is_plain.
  intros [H _]%andb_prop. apply N.leb_le in H. apply N.ltb_ge. exact H.
Qed.

Lemma eqb_lead_trail (l t : byte) :
  is_lead l = true -> is_trail t = true -> Byte.eqb l t = false.
Proof.
  intros Hl Ht. destruct (Byte.eqb l t) eqn:E; [|reflexivity].
  apply Byte.byte_dec_bl in E. subst.
  rewrite (lead_not_trail _ Hl) in Ht. discriminate.
Qed.

Lemma eqb_plain_other (x y : byte) :
  is_plain x = true -> is_plain y = false -> Byte.eqb x y = false.
Proof.
  intros Hx Hy. destruct (Byte.eqb x y) eqn:E; [|reflexivity].
  apply Byte.byte_dec_bl in E. subst. congruence.
Qed.

(** The equations of [replace] for a pattern of two bytes. *)
Lemma replace2_nil (a b : byte) (new : list byte) : replace [a; b] new [] = [].
Proof. reflexivity. Qed.

Lemma replace2_single (a b : byte) (new : list byte) (x : byte) :
  replace [a; b] new [x] = [x].
Proof. cbn. destruct (Byte.eqb a x); reflexivity. Qed.

Lemma replace2_cons2 (a b : byte) (new : list byte) (x y : byte) (r : list byte) :
  replace [a; b] new (x :: y :: r) =
    if Byte.eqb a x && Byte.eqb b y then new ++ replace [a; b] new r
    else x :: replace [a; b] new (y :: r).
Proof.
  unfold replace. cbn [replace_from starts_with List.length Nat.sub].
  rewrite andb_true_r. destruct (Byte.eqb a x && Byte.eqb b y); reflexivity.
Qed.

Lemma last_is_cons2 (a x y : byte) (p : list byte) :
  last_is a (x :: y :: p) = last_is a (y :: p).
Proof. reflexivity. Qed.

(** [replace] works on the two sides of a seam apart as long as no
    occurrence lies across it. *)
Lemma replace2_app_bounded (a b : byte) (new : list byte) (n : nat) :
  forall p s, (List.length p <= n)%nat ->
    last_is a p && head_is b s = false ->
    replace [a; b] new (p ++ s) = replace [a; b] new p ++ replace [a; b] new s.
Proof.
  induction n as [|n IH]; intros p s Hlen Hseam.
  - destruct p; [reflexivity | simpl in Hlen; lia].
  - destruct p as [|x [|y p']].
    + reflexivity.
    + rewrite replace2_single. cbn [app].
      destruct s as [|z s']; [apply replace2_single|].
      rewrite replace2_cons2. cbn [last_is head_is] in Hseam.
      rewrite (byte_eqb_sym a x), (byte_eqb_sym b z), Hseam. reflexivity.
    + cbn [app]. rewrite !replace2_cons2.
      destruct (Byte.eqb a x && Byte.eqb b y).
      * rewrite <- app_assoc. f_equal. apply IH; [simpl in Hlen; lia|].
        destruct p' as [|z p'']; [reflexivity|].
        rewrite last_is_cons2 in Hseam. destruct p''; exact Hseam.
      * change (y :: p' ++ s) with ((y :: p') ++ s).
        rewrite IH; [reflexivity | simpl in *; lia | exact Hseam].
Qed.

Lemma replace2_app (a b : byte) (new p s : list byte) :
  last_is a p && head_is b s = false ->
  replace [a; b] new (p ++ s) = replace [a; b] new p ++ replace [a; b] new s.
Proof. apply (replace2_app_bounded a b new (List.length p)); lia. Qed.

Lemma last_is_plain (a : byte) (v : list byte) :
  is_plain a = false -> forallb is_plain v = true -> last_is a v = false.
Proof.
  intros Ha. induction v as [|x [|y v'] IH]; intros Hv; [reflexivity| |].
  - cbn in *. rewrite andb_true_r in Hv. now apply eqb_plain_other.
  - rewrite last_is_cons2. apply IH. cbn [forallb] in Hv.
    now apply andb_prop in Hv as [_ Hv].
Qed.

(** An output of the table contains no occurrence of a key. *)
Lemma replace2_plain (l t : byte) (new v : list byte) :
  is_lead l = true -> forallb is_plain v = true -> replace [l; t] new v = v.
Proof.
  intros Hl. induction v as [|x [|y v'] IH]; intros Hv.
  - reflexivity.
  - apply replace2_single.
  - rewrite replace2_cons2.
    cbn [forallb] in Hv. apply andb_prop in Hv as [Hx Hv].
    rewrite (byte_eqb_sym l x), (eqb_plain_other x l Hx (lead_not_plain l Hl)).
    cbn [andb]. f_equal. now apply IH.
Qed.

(** Another entry's turn leaves an occurrence of the key [l'; t'] alone. *)
Lemma replace2_other_key (l t l' t' : byte) (new p q : list byte) :
  is_lead l = true -> is_trail t = true ->
  is_lead l' = true -> is_trail t' = true ->
  [l; t] <> [l'; t'] ->
  replace [l; t] new (p ++ [l'; t'] ++ q) =
    replace [l; t] new p ++ [l'; t'] ++ replace [l; t] new q.
Proof.
  intros Hl Ht Hl' Ht' Hne.
  rewrite replace2_app.
  2:{ cbn [app head_is]. rewrite (eqb_lead_trail l' t Hl' Ht). apply andb_false_r. }
  f_equal. cbn [app]. rewrite replace2_cons2.
  assert (Hpair : Byte.eqb l l' && Byte.eqb t t' = false).
  { destruct (Byte.eqb l l') eqn:E1, (Byte.eqb t t') eqn:E2; try reflexivity.
    apply Byte.byte_dec_bl in E1, E2. subst. now elim Hne. }
  rewrite Hpair. f_equal.
  change (t' :: q) with ([t'] ++ q).
  rewrite replace2_app.
  - rewrite replace2_single. reflexivity.
  - cbn [last_is]. rewrite byte_eqb_sym, (eqb_lead_trail l t' Hl Ht'). reflexivity.
Qed.

(** The key's own turn replaces its occurrence. *)
Lemma replace2_own_key (l t : byte) (new p q : list byte) :
  is_lead l = true -> is_trail t = true ->
  replace [l; t] new (p ++ [l; t] ++ q) =
    replace [l; t] new p ++ new ++ replace [l; t] new q.
Proof.
  intros Hl Ht.
  rewrite replace2_app.
  2:{ cbn [app head_is]. rewrite (eqb_lead_trail l t Hl Ht). apply andb_false_r. }
  f_equal. cbn [app]. rewrite replace2_cons2, !byte_eqb_refl. reflexivity.
Qed.

(** A non-empty output already in place is a wall for every entry. *)
Lemma replace2_around_output (l t : byte) (new v p q : list byte) :
  is_lead l = true -> is_trail t = true ->
  v <> [] -> forallb is_plain v = true ->
  replace [l; t] new (p ++ v ++ q) =
    replace [l; t] new p ++ v ++ replace [l; t] new q.
Proof.
  intros Hl Ht Hv Hplain.
  rewrite replace2_app.
  2:{ destruct v as [|x v']; [now elim Hv|]. cbn [app head_is].
      cbn [forallb] in Hplain. apply andb_prop in Hplain as [Hx _].
      rewrite (eqb_plain_other x t Hx (trail_not_plain t Ht)). apply andb_false_r. }
  f_equal. rewrite replace2_app.
  - rewrite (replace2_plain l t new v Hl Hplain). reflexivity.
  - rewrite (last_is_plain l v (lead_not_plain l Hl) Hplain). reflexivity.
Qed.

End Substitution.

Section SubstitutionTable.
Import BlitzortungDecoder.

Lemma apply_substitutions_cons (kv : list byte * list byte) tbl data :
  apply_substitutions (kv :: tbl) data =
    apply_substitutions tbl (replace (fst kv) (snd kv) data).
Proof. reflexivity. Qed.

Lemma apply_substitutions_app tbl1 tbl2 data :
  apply_substitutions (tbl1 ++ tbl2) data =
    apply_substitutions tbl2 (apply_substitutions tbl1 data).
Proof. unfold apply_substitutions. apply fold_left_app. Qed.

Lemma key_ok_inv (k : list byte) :
  key_ok k = true -> exists l t, k = [l; t] /\ is_lead l = true /\ is_trail t = true.
Proof.
  destruct k as [|l [|t [|]]]; try discriminate.
  cbn. intros [Hl Ht]%andb_prop. now exists l, t.
Qed.

Lemma entry_ok_inv (kv : list byte * list byte) :
  entry_ok kv = true ->
  exists l t, fst kv = [l; t] /\ is_lead l = true /\ is_trail t = true /\
              forallb is_plain (snd kv) = true.
Proof.
  unfold entry_ok. intros [Hk Hv]%andb_prop.
  destruct (key_ok_inv _ Hk) as (l & t & -> & Hl & Ht). now exists l, t.
Qed.

(** Entries whose keys differ from [k] leave an occurrence of [k] alone. *)
Lemma apply_other_keys tbl (k : list byte) :
  table_ok tbl -> key_ok k = true -> ~ In k (map fst tbl) ->
  forall p q,
    apply_substitutions tbl (p ++ k ++ q) =
      apply_substitutions tbl p ++ k ++ apply_substitutions tbl q.
Proof.
  intros Hok Hk. destruct (key_ok_inv k Hk) as (l' & t' & -> & Hl' & Ht').
  induction Hok as [|kv tbl Hkv Hok IH]; intros Hnotin p q; [reflexivity|].
  rewrite !apply_substitutions_cons.
  destruct (entry_ok_inv kv Hkv) as (l & t & Hfst & Hl & Ht & _).
  rewrite Hfst in *.
  rewrite replace2_other_key; try assumption.
  - apply IH. intros Hin. apply Hnotin. right. exact Hin.
  - intros Heq. apply Hnotin. left. cbn [map]. rewrite Hfst. exact Heq.
Qed.

(** A non-empty output stays where it is under every entry. *)
Lemma apply_around_output tbl (v : list byte) :
  table_ok tbl -> v <> [] -> forallb is_plain v = true ->
  forall p q,
    apply_substitutions tbl (p ++ v ++ q) =
      apply_substitutions tbl p ++ v ++ apply_substitutions tbl q.
Proof.
  intros Hok Hv Hplain.
  induction Hok as [|kv tbl Hkv Hok IH]; intros p q; [reflexivity|].
  rewrite !apply_substitutions_cons.
  destruct (entry_ok_inv kv Hkv) as (l & t & Hfst & Hl & Ht & _).
  rewrite Hfst. rewrite replace2_around_output by assumption. apply IH.
Qed.

Lemma apply_plain tbl (v : list byte) :
  table_ok tbl -> forallb is_plain v = true -> apply_substitutions tbl v = v.
Proof.
  intros Hok Hplain.
  induction Hok as [|kv tbl Hkv Hok IH]; [reflexivity|].
  rewrite apply_substitutions_cons.
  destruct (entry_ok_inv kv Hkv) as (l & t & Hfst & Hl & Ht & _).
  rewrite Hfst, replace2_plain by assumption. exact IH.
Qed.

Lemma key_eqb_eq (a b : list byte) : key_eqb a b = true <-> a = b.
Proof. unfold key_eqb. destruct (list_eq_dec Byte.byte_eq_dec a b); split; congruence. Qed.

Lemma distinct_NoDup (l : list (list byte)) : distinct l = true -> NoDup l.
Proof.
  induction l as [|x r IH]; intros H; constructor;
    cbn [distinct] in H; apply andb_prop in H as [Hx Hr].
  - intros Hin. apply negb_true_iff in Hx.
    assert (existsb (key_eqb x) r = true); [|congruence].
    apply existsb_exists. exists x. split; [assumption | now apply key_eqb_eq].
  - now apply IH.
Qed.

Lemma substitutions_ok : table_ok substitutions.
Proof.
  apply Forall_forall. intros kv Hin.
  assert (H : forallb entry_ok substitutions = true) by (vm_compute; reflexivity).
  rewrite forallb_forall in H. now apply H.
Qed.

Lemma substitutions_keys_distinct : NoDup (map fst substitutions).
Proof. apply distinct_NoDup. vm_compute. reflexivity. Qed.

Lemma table_ok_app tbl1 tbl2 : table_ok (tbl1 ++ tbl2) -> table_ok tbl1 /\ table_ok tbl2.
Proof. unfold table_ok. apply Forall_app. Qed.

(** The occurrence of a key is replaced at the key's turn, whatever
    stands around it. *)
Lemma apply_at_key (t1 t2 : list (list byte * list byte)) (k v : list byte) :
  table_ok (t1 ++ (k, v) :: t2) -> NoDup (map fst (t1 ++ (k, v) :: t2)) ->
  forall p q,
    apply_substitutions (t1 ++ (k, v) :: t2) (p ++ k ++ q) =
      apply_substitutions t2
        (apply_substitutions (t1 ++ [(k, v)]) p ++ v ++
         apply_substitutions (t1 ++ [(k, v)]) q).
Proof.
  intros Hok Hnd p q.
  destruct (table_ok_app _ _ Hok) as [Hok1 Hok2].
  inversion Hok2 as [|kv tl Hkv Hok2' E]; subst.
  destruct (entry_ok_inv _ Hkv) as (l & t & Hfst & Hl & Ht & Hplain).
  cbn [fst snd] in Hfst, Hplain. subst k.
  assert (Hnotin : ~ In [l; t] (map fst t1)).
  { rewrite map_app in Hnd. cbn [map fst] in Hnd.
    apply NoDup_remove_2 in Hnd. intros Hin. apply Hnd. apply in_or_app. now left. }
  rewrite apply_substitutions_app, apply_substitutions_cons. cbn [fst snd].
  rewrite (apply_other_keys t1 [l; t] Hok1) by (assumption || (cbn; now rewrite Hl, Ht)).
  rewrite replace2_own_key by assumption.
  rewrite !apply_substitutions_app. reflexivity.
Qed.

(** [C8], as amended.  The substitution step applies the entries of the
    table one after the other, in the order of the table.  A mapped
    sequence alone decodes to its output; an occurrence of a mapped
    sequence is replaced by its output at the turn of its entry, whatever
    the bytes before and after it; and when the output is not empty the
    sequence decodes to exactly its output, between the decodings of what
    precedes and of what follows. *)
Theorem substitutions_replace_each_occurrence :
  (forall k v, In (k, v) substitutions -> apply_substitutions substitutions k = v) /\
  (forall t1 k v t2 p q,
      substitutions = t1 ++ (k, v) :: t2 ->
      apply_substitutions substitutions (p ++ k ++ q) =
        apply_substitutions t2
          (apply_substitutions (t1 ++ [(k, v)]) p ++ v ++
           apply_substitutions (t1 ++ [(k, v)]) q)) /\
  (forall k v p q,
      In (k, v) substitutions -> v <> [] ->
      apply_substitutions substitutions (p ++ k ++ q) =
        apply_substitutions substitutions p ++ v ++
        apply_substitutions substitutions q).
Proof.
  assert (Hat : forall t1 k v t2 p q,
             substitutions = t1 ++ (k, v) :: t2 ->
             apply_substitutions substitutions (p ++ k ++ q) =
               apply_substitutions t2
                 (apply_substitutions (t1 ++ [(k, v)]) p ++ v ++
                  apply_substitutions (t1 ++ [(k, v)]) q)).
  { intros t1 k v t2 p q E.
    pose proof substitutions_ok as Hok. pose proof substitutions_keys_distinct as Hnd.
    rewrite E in Hok, Hnd |- *. now apply apply_at_key. }
  split; [|split; [exact Hat|]].
  - intros k v Hin. destruct (in_split _ _ Hin) as (t1 & t2 & E).
    pose proof (Hat t1 k v t2 [] [] E) as H.
    rewrite app_nil_r in H. cbn [app] in H. rewrite H.
    pose proof substitutions_ok as Hok. rewrite E in Hok.
    destruct (table_ok_app _ _ Hok) as [Hok1 Hok2].
    inversion Hok2 as [|kv tl Hkv Hok2' E']; subst.
    destruct (entry_ok_inv _ Hkv) as (_ & _ & _ & _ & _ & Hplain).
    cbn [snd] in Hplain.
    assert (Hok1' : table_ok (t1 ++ [(k, v)])).
    { apply Forall_app. split; [assumption|]. constructor; [assumption|constructor]. }
    rewrite (apply_plain _ [] Hok1' eq_refl). cbn [app]. rewrite app_nil_r.
    now apply apply_plain.
  - intros k v p q Hin Hv. destruct (in_split _ _ Hin) as (t1 & t2 & E).
    rewrite (Hat t1 k v t2 p q E).
    pose proof substitutions_ok as Hok. rewrite E in Hok.
    destruct (table_ok_app _ _ Hok) as [Hok1 Hok2].
    inversion Hok2 as [|kv tl Hkv Hok2' E']; subst.
    destruct (entry_ok_inv _ Hkv) as (_ & _ & _ & _ & _ & Hplain).
    cbn [snd] in Hplain.
    rewrite (apply_around_output t2 v Hok2' Hv Hplain).
    rewrite E.
    replace (t1 ++ (k, v) :: t2) with ((t1 ++ [(k, v)]) ++ t2)
      by (rewrite <- app_assoc; reflexivity).
    rewrite !apply_substitutions_app. reflexivity.
Qed.

End SubstitutionTable.

(** ** The proximity query *)

Section Sorting.
Import Api.

Lemma SFcompare_antisym (a b : float) :
  SFcompare b a = option_map CompOpp (SFcompare a b).
Proof.
  destruct a as [sa|sa| |sa ma ea], b as [sb|sb| |sb mb eb]; cbn;
    try reflexivity; try (destruct sa; reflexivity); try (destruct sb; reflexivity);
    try (destruct sa, sb; reflexivity).
  pose proof (Pos.compare_cont_antisym ma mb Eq) as Hm. cbn [CompOpp] in Hm.
  destruct sa, sb; cbn; try reflexivity;
    rewrite (Z.compare_antisym ea eb); destruct (ea ?= eb); cbn; try reflexivity;
    rewrite <- Hm; destruct (Pos.compare_cont Eq ma mb); reflexivity.
Qed.

Lemma float_lt_asym (a b : float) : float_lt a b = true -> float_lt b a = false.
Proof.
  unfold float_lt, SFltb. rewrite (SFcompare_antisym a b).
  destruct (SFcompare a b) as [[]|]; cbn; congruence.
Qed.

Lemma insert_sorted_perm (x : strike_row) (l : list strike_row) :
  Permutation (insert_sorted x l) (x :: l).
Proof.
  induction l as [|y l IH]; cbn; [reflexivity|].
  destruct (float_lt (sort_key y) (sort_key x)); [|reflexivity].
  rewrite IH. apply perm_swap.
Qed.

Lemma sort_by_distance_perm (l : list strike_row) :
  Permutation (sort_by_distance l) l.
Proof.
  induction l as [|x l IH]; [reflexivity|].
  change (sort_by_distance (x :: l)) with (insert_sorted x (sort_by_distance l)).
  rewrite insert_sorted_perm. now constructor.
Qed.

Lemma insert_sorted_hd (x y : strike_row) (l : list strike_row) :
  float_lt (sort_key y) (sort_key x) = true ->
  HdRel key_le y l -> HdRel key_le y (insert_sorted x l).
Proof.
  intros Hyx Hhd. destruct l as [|z l]; cbn.
  - constructor. unfold key_le. now apply float_lt_asym.
  - destruct (float_lt (sort_key z) (sort_key x)).
    + constructor. now inversion Hhd.
    + constructor. unfold key_le. now apply float_lt_asym.
Qed.

Lemma insert_sorted_sorted (x : strike_row) (l : list strike_row) :
  Sorted key_le l -> Sorted key_le (insert_sorted x l).
Proof.
  induction l as [|y l IH]; intros Hs; cbn.
  - repeat constructor.
  - destruct (float_lt (sort_key y) (sort_key x)) eqn:Hyx.
    + inversion Hs as [|? ? Hs' Hhd]; subst.
      constructor; [now apply IH | now apply insert_sorted_hd].
    + constructor; [assumption|]. constructor. exact Hyx.
Qed.

Lemma sort_by_distance_sorted (l : list strike_row) :
  Sorted key_le (sort_by_distance l).
Proof.
  induction l as [|x l IH]; [constructor|].
  change (sort_by_distance (x :: l)) with (insert_sorted x (sort_by_distance l)).
  now apply insert_sorted_sorted.
Qed.

Lemma SFeqb_inv (a b : float) :
  SFeqb a b = true -> a = b \/ (is_zero a = true /\ is_zero b = true).
Proof.
  unfold SFeqb.
  destruct a as [sa|sa| |sa ma ea], b as [sb|sb| |sb mb eb]; cbn;
    try discriminate; try (intros _; right; split; reflexivity);
    try (destruct sa, sb; try discriminate; intros _; left; reflexivity);
    try (destruct sa; discriminate); try (destruct sb; discriminate).
  destruct sa, sb; try discriminate;
    destruct (ea ?= eb) eqn:He; try discriminate;
    destruct (Pos.compare_cont Eq ma mb) eqn:Hm; try discriminate;
    intros _; left; apply Z.compare_eq_iff in He;
    apply Pos.compare_eq in Hm; subst; reflexivity.
Qed.

Lemma float_lt_irrefl (a : float) : float_lt a a = false.
Proof.
  destruct (float_lt a a) eqn:E; [|reflexivity].
  now rewrite (float_lt_asym a a E) in E.
Qed.

(** Two keys equal to a third are not one below the other. *)
Lemma float_lt_same_class (x y k : float) :
  SFeqb x k = true -> SFeqb y k = true -> float_lt y x = false.
Proof.
  intros [->|[Hx Hk]]%SFeqb_inv [->|[Hy Hk']]%SFeqb_inv.
  - apply float_lt_irrefl.
  - destruct y, k; try discriminate; reflexivity.
  - destruct x, k; try discriminate; reflexivity.
  - destruct x, y; try discriminate; reflexivity.
Qed.

Lemma insert_sorted_class (k : float) (x : strike_row) (l : list strike_row) :
  filter (fun s => SFeqb (sort_key s) k) (insert_sorted x l) =
    filter (fun s => SFeqb (sort_key s) k) (x :: l).
Proof.
  induction l as [|y l IH]; [reflexivity|].
  cbn [insert_sorted].
  destruct (float_lt (sort_key y) (sort_key x)) eqn:Hyx; [|reflexivity].
  cbn [filter] in *. rewrite IH.
  destruct (SFeqb (sort_key x) k) eqn:Hx, (SFeqb (sort_key y) k) eqn:Hy;
    try reflexivity.
  rewrite (float_lt_same_class _ _ _ Hx Hy) in Hyx. discriminate.
Qed.

(** Stability: the rows of one key come out in the order they went in. *)
Lemma sort_by_distance_class (k : float) (l : list strike_row) :
  filter (fun s => SFeqb (sort_key s) k) (sort_by_distance l) =
    filter (fun s => SFeqb (sort_key s) k) l.
Proof.
  induction l as [|x l IH]; [reflexivity|].
  change (sort_by_distance (x :: l)) with (insert_sorted x (sort_by_distance l)).
  rewrite insert_sorted_class. cbn [filter]. rewrite IH. reflexivity.
Qed.

(** Rows already in key order, equal keys included, stay as they are. *)
Lemma sort_by_distance_stable (l : list strike_row) :
  Sorted key_le l -> sort_by_distance l = l.
Proof.
  induction l as [|x l IH]; intros Hs; [reflexivity|].
  inversion Hs as [|? ? Hs' Hhd]; subst.
  change (sort_by_distance (x :: l)) with (insert_sorted x (sort_by_distance l)).
  rewrite (IH Hs').
  destruct l as [|y l]; [reflexivity|].
  cbn [insert_sorted]. inversion Hhd as [|? ? Hxy]; subst. unfold key_le in Hxy.
  rewrite Hxy. reflexivity.
Qed.

End Sorting.

Section Nearby.
Import Api.
Context {libm : Libm}.
Variable select_strikes : nearby_query -> option (list strike_row).

(** The loop keeps the rows whose distance is at most the radius, in
    their order, each with its distance rounded to two decimals. *)
Lemma filter_by_distance_spec (lat lon radius : float) (dist : strike_row -> float)
      (results : list strike_row) :
  (forall s, In s results ->
     haversine_distance lat lon (latitude s) (longitude s) = Some (dist s)) ->
  filter_by_distance lat lon radius results =
    Some (map (fun s => set_distance_km s (round2 (dist s)))
              (filter (fun s => float_le (dist s) radius) results)).
Proof.
  induction results as [|x results IH]; intros Hd; [reflexivity|].
  cbn [filter_by_distance filter].
  rewrite (Hd x (or_introl eq_refl)). cbn [bind].
  rewrite IH by (intros s Hs; apply Hd; now right). cbn [bind].
  destruct (float_le (dist x) radius); reflexivity.
Qed.

Lemma nearby_parameters_limit (utcnow : Z) (lat lon radius : float)
      (minutes limit : Z) (q : nearby_query) :
  nearby_parameters utcnow lat lon radius minutes limit = Some q ->
  fetch_limit q = limit * 2 /\ since q = utcnow - minutes * 60.
Proof.
  unfold nearby_parameters, bind.
  destruct (math_cos (math_radians lat)) as [c|]; [|discriminate].
  destruct (fdiv radius (fmul (float_of_int 111) c)) as [d|]; [|discriminate].
  intros [= <-]. split; reflexivity.
Qed.

(** [C5], as amended.  For the candidates the store returns to the
    pre-fetch, which asks for twice the caller's limit, the query keeps
    exactly those whose haversine distance to the center is at most the
    radius, sorts them ascending by that distance rounded to two decimals
    (the sort is stable: rows of one rounded distance stay in the order of
    the fetch), and truncates to the limit.  With candidates at 0 km, 10 km and 60 km and
    radius 50 km, in any order, the result is the 0 km and the 10 km
    points in that order. *)
Theorem nearby_filter_sort_truncate :
  (forall utcnow lat lon radius minutes limit q results dist,
      valid_nearby lat lon radius minutes limit = true ->
      nearby_parameters utcnow lat lon radius minutes limit = Some q ->
      select_strikes q = Some results ->
      (forall s, In s results ->
         haversine_distance lat lon (latitude s) (longitude s) = Some (dist s)) ->
      let kept :=
        map (fun s => set_distance_km s (round2 (dist s)))
            (filter (fun s => float_le (dist s) radius) results) in
      fetch_limit q = limit * 2 /\
      filter_by_distance lat lon radius results = Some kept /\
      Sorted key_le (sort_by_distance kept) /\
      Permutation (sort_by_distance kept) kept /\
      (forall k, filter (fun s => SFeqb (sort_key s) k) (sort_by_distance kept) =
                 filter (fun s => SFeqb (sort_key s) k) kept) /\
      (Sorted key_le kept -> sort_by_distance kept = kept) /\
      get_nearby_strikes select_strikes utcnow lat lon radius minutes limit =
        Ok (firstn (Z.to_nat limit) (sort_by_distance kept))) /\
  (forall lat lon p0 p10 p60 results,
      haversine_distance lat lon (latitude p0) (longitude p0) =
        Some (S754_zero false) ->
      haversine_distance lat lon (latitude p10) (longitude p10) =
        Some (float_of_int 10) ->
      haversine_distance lat lon (latitude p60) (longitude p60) =
        Some (float_of_int 60) ->
      In results (orders_of_three p0 p10 p60) ->
      option_map sort_by_distance
                 (filter_by_distance lat lon (float_of_int 50) results) =
        Some [set_distance_km p0 (S754_zero false);
              set_distance_km p10 (float_of_int 10)]).
Proof.
  split.
  - intros utcnow lat lon radius minutes limit q results dist
           Hvalid Hq Hsel Hdist kept.
    pose proof (filter_by_distance_spec lat lon radius dist results Hdist) as Hf.
    fold kept in Hf.
    split; [apply (nearby_parameters_limit _ _ _ _ _ _ _ Hq)|].
    split; [exact Hf|].
    split; [apply sort_by_distance_sorted|].
    split; [apply sort_by_distance_perm|].
    split; [intros k; apply sort_by_distance_class|].
    split; [apply sort_by_distance_stable|].
    unfold get_nearby_strikes. rewrite Hvalid, Hq, Hsel, Hf. reflexivity.
  - intros lat lon p0 p10 p60 results H0 H10 H60 Hin.
    cbn [orders_of_three In] in Hin.
    destruct Hin as [<-|[<-|[<-|[<-|[<-|[<-|[]]]]]]];
      cbn [filter_by_distance]; rewrite H0, H10, H60; reflexivity.
Qed.

End Nearby.

Section NearbyExamples.
Import Api.

(** The theorem at the center (0, 0) with radius 50 km and limit 100, the
    store returning [row_near] then [row_center]; and at rows 0 km, 10 km
    and 60 km north of the center. *)
Lemma nearby_filter_sort_truncate_witness :
  (valid_nearby (S754_zero false) (S754_zero false) (float_of_int 50) 60 100 = true /\
   get_nearby_strikes (libm := small_angle_libm)
     (fun _ => Some [row_near; row_center])
     1700000000 (S754_zero false) (S754_zero false) (float_of_int 50) 60 100 =
     Ok [set_distance_km row_near (S754_zero false);
         set_distance_km row_center (S754_zero false)]) /\
  (haversine_distance (libm := small_angle_libm) (S754_zero false) (S754_zero false)
     (latitude row_north_10) (longitude row_north_10) = Some (float_of_int 10) /\
   haversine_distance (libm := small_angle_libm) (S754_zero false) (S754_zero false)
     (latitude row_north_60) (longitude row_north_60) = Some (float_of_int 60) /\
   option_map sort_by_distance
     (filter_by_distance (libm := small_angle_libm)
        (S754_zero false) (S754_zero false) (float_of_int 50)
        [row_north_60; row_north_10; row_center]) =
     Some [set_distance_km row_center (S754_zero false);
           set_distance_km row_north_10 (float_of_int 10)]).
Proof.
  destruct (nearby_filter_sort_truncate (libm := small_angle_libm)
              (fun _ => Some [row_near; row_center])) as [Hgen Hex].
  split.
  - refine (conj eq_refl _).
    destruct (nearby_parameters (libm := small_angle_libm) 1700000000
                (S754_zero false) (S754_zero false) (float_of_int 50) 60 100)
      as [q|] eqn:Hq; [|discriminate Hq].
    destruct (Hgen 1700000000 (S754_zero false) (S754_zero false)
                   (float_of_int 50) 60 100 q [row_near; row_center]
                   small_angle_distance eq_refl Hq eq_refl)
      as (_ & _ & _ & _ & _ & _ & Hget).
    + intros s [<-|[<-|[]]]; reflexivity.
    + rewrite Hget. reflexivity.
  - refine (conj eq_refl (conj eq_refl _)).
    apply (Hex (S754_zero false) (S754_zero false)
               row_center row_north_10 row_north_60); try reflexivity.
    cbn. auto 10.
Defined.

(** [C5] as written has the result ascending by exact distance.  With the
    center (0, 0), radius 50 km, and the store returning a row 1.1 cm
    north of the center before a row on the center, both distances round
    to 0.0 km and the rows come back in the order of the fetch: the first
    row of the result is strictly farther from the center than the
    second. *)
Lemma nearby_result_not_in_distance_order :
  exists first second d1 d2,
    get_nearby_strikes (libm := small_angle_libm)
      (fun _ => Some [row_near; row_center])
      1700000000 (S754_zero false) (S754_zero false) (float_of_int 50) 60 100 =
      Ok [first; second] /\
    haversine_distance (libm := small_angle_libm) (S754_zero false) (S754_zero false)
      (latitude first) (longitude first) = Some d1 /\
    haversine_distance (libm := small_angle_libm) (S754_zero false) (S754_zero false)
      (latitude second) (longitude second) = Some d2 /\
    float_lt d2 d1 = true /\
    d1 = S754_finite false 6563789933142663 (-69) /\
    d2 = S754_zero false.
Proof.
  exists (set_distance_km row_near (S754_zero false)),
         (set_distance_km row_center (S754_zero false)),
         (S754_finite false 6563789933142663 (-69)), (S754_zero false).
  repeat split.
Qed.

End NearbyExamples.

Section SubstitutionExamples.
Import BlitzortungDecoder.

(** The theorem at the entry [C4 88 -> "0"] inside ["lat:4" .. "5"], and
    at the deleted sequence [C4 AC] alone. *)
Lemma substitutions_replace_each_occurrence_witness :
  (In ([xc4; x88], [x30]) substitutions /\
   apply_substitutions substitutions
     (list_byte_of_string "lat:4" ++ [xc4; x88] ++ list_byte_of_string "5") =
     list_byte_of_string "lat:405") /\
  (In ([xc4; xac], []) substitutions /\
   apply_substitutions substitutions [xc4; xac] = []).
Proof.
  destruct substitutions_replace_each_occurrence as (Halone & _ & Haround).
  assert (H1 : In ([xc4; x88], [x30]) substitutions) by (cbn; auto).
  assert (H2 : In ([xc4; xac], @nil byte) substitutions) by (cbn; auto 100).
  split; split; try assumption.
  - rewrite (Haround [xc4; x88] [x30] _ _ H1 ltac:(discriminate)). reflexivity.
  - exact (Halone _ _ H2).
Defined.

(** [C8] as written has the result independent of the order of the
    entries.  In the frame [C4 C4 AC 88] the deleted sequence [C4 AC]
    stands between a lead byte and a trail byte: in table order [C4 88] is
    looked for before the deletion and the result is [C4 88]; with the
    same entries in the reverse order the deletion comes first and the
    result is ["0"]. *)
Lemma substitution_order_matters :
  Permutation substitutions (rev substitutions) /\
  apply_substitutions substitutions [xc4; xc4; xac; x88] = [xc4; x88] /\
  apply_substitutions (rev substitutions) [xc4; xc4; xac; x88] = [x30] /\
  apply_substitutions substitutions [xc4; xc4; xac; x88] <>
    apply_substitutions (rev substitutions) [xc4; xc4; xac; x88].
Proof.
  split; [apply Permutation_rev|].
  repeat split. vm_compute. discriminate.
Qed.

End SubstitutionExamples.

(** ** Connecting to the store *)

Section Connect.
Import LightningDatabase.

(** [connect] calls [psycopg2.connect] at most five times.  It returns at
    the first attempt that gives a connection, having slept five seconds
    after each refused attempt before it, twenty at most; it raises at the
    first attempt that fails otherwise, and at the fifth when all five are
    refused, without sleeping after that one; the loop never runs out. *)
Theorem connect_retries_five_times (server : nat -> connect_outcome) :
  exists k,
    (k < 5)%nat /\
    (forall i, (i < k)%nat -> server i = OperationalError) /\
    seconds_slept (fst (connect server)) = 5 * Z.of_nat k /\
    match server k with
    | Connected => snd (connect server) = Returns k
    | OtherError => snd (connect server) = Raises k
    | OperationalError => k = 4%nat /\ snd (connect server) = Raises 4
    end.
Proof.
  assert (Hlt : forall i k, (i < S k)%nat -> i = k \/ (i < k)%nat) by (intros; lia).
  unfold connect. cbn [seq max_retries connect_from].
  destruct (server 0%nat) eqn:H0;
    [exists 0%nat; rewrite H0; repeat split; try lia| |
     exists 0%nat; rewrite H0; repeat split; try lia].
  cbn [Nat.ltb Nat.leb Nat.sub].
  destruct (server 1%nat) eqn:H1;
    [exists 1%nat; rewrite H1; repeat split; try lia;
     intros i Hi; assert (i = 0%nat) by lia; subst; assumption| |
     exists 1%nat; rewrite H1; repeat split; try lia;
     intros i Hi; assert (i = 0%nat) by lia; subst; assumption].
  destruct (server 2%nat) eqn:H2;
    [exists 2%nat; rewrite H2; repeat split; try lia;
     intros i Hi; destruct (Hlt _ _ Hi) as [->|Hi']; try assumption;
     assert (i = 0%nat) by lia; subst; assumption| |
     exists 2%nat; rewrite H2; repeat split; try lia;
     intros i Hi; destruct (Hlt _ _ Hi) as [->|Hi']; try assumption;
     assert (i = 0%nat) by lia; subst; assumption].
  assert (H012 : forall i, (i < 3)%nat -> server i = OperationalError).
  { intros i Hi. destruct (Hlt _ _ Hi) as [->|Hi1]; [assumption|].
    destruct (Hlt _ _ Hi1) as [->|Hi0]; [assumption|].
    assert (i = 0%nat) by lia. subst. assumption. }
  destruct (server 3%nat) eqn:H3;
    [exists 3%nat; rewrite H3; repeat split; try lia; assumption| |
     exists 3%nat; rewrite H3; repeat split; try lia; assumption].
  assert (H0123 : forall i, (i < 4)%nat -> server i = OperationalError).
  { intros i Hi. destruct (Hlt _ _ Hi) as [->|Hi']; [assumption|now apply H012]. }
  exists 4%nat.
  destruct (server 4%nat) eqn:H4; repeat split; try lia; assumption.
Qed.

(** The theorem at a server that refuses two attempts and accepts the
    third: [connect] returns at attempt 2, ten seconds slept. *)
Lemma connect_retries_five_times_witness :
  snd (connect (server_up_after 2)) = Returns 2 /\
  seconds_slept (fst (connect (server_up_after 2))) = 10.
Proof.
  destruct (connect_retries_five_times (server_up_after 2))
    as (k & Hk & Hbefore & Hslept & Hend).
  assert (Hk2 : k = 2%nat).
  { destruct k as [|[|[|k]]]; [discriminate (proj1 Hend)| discriminate (proj1 Hend)
                               | reflexivity |].
    specialize (Hbefore 2%nat ltac:(lia)). discriminate Hbefore. }
  subst k. split; [exact Hend | exact Hslept].
Defined.

End Connect.

(** ** The counters of the decoder and the rows of the store *)

Section DecoderCounters.
Import Text BlitzortungDecoder LightningDatabase Ingest.
Context {unicode : UnicodeData} {zone : LocalZone}.

(** Every call of [decode] counts one sample, and one success or one
    failure according to what it returns. *)
Lemma decode_payload_counts (self : decoder) (raw : payload) :
  let r := decode_payload self raw in
  sample_count (fst r) = sample_count self + 1 /\
  successful_decodes (fst r) =
    successful_decodes self + (match snd r with Some _ => 1 | None => 0 end) /\
  failed_decodes (fst r) =
    failed_decodes self + (match snd r with Some _ => 0 | None => 1 end).
Proof.
  destruct raw as [b|t]; cbn [decode_payload].
  - unfold decode. destruct (_extract_fields (decoded_text b)) as [s|].
    + destruct (_validate_strike s); cbn; repeat split; lia.
    + cbn; repeat split; lia.
  - cbn; repeat split; lia.
Qed.

Lemma on_data_decoder_state (reply : store_reply) (w : world) (data : payload)
      (opcode : Z) :
  decoder_state (on_data reply w data opcode) =
    fst (decode_payload (decoder_state w) (frame_raw data opcode)).
Proof.
  unfold on_data.
  destruct (decode_payload (decoder_state w) (frame_raw data opcode)) as [d' [s|]].
  - unfold insert_strike. destruct (insert_accepted reply); reflexivity.
  - reflexivity.
Qed.

(** The rows after a frame: the record of the frame is appended when the
    frame decodes and the store takes the [INSERT]. *)
Lemma on_data_rows (reply : store_reply) (w : world) (data : payload) (opcode : Z) :
  lightning_strikes (db (on_data reply w data opcode)) =
    lightning_strikes (db w) ++
    match snd (decode_payload (decoder_state w) (frame_raw data opcode)) with
    | Some s => if insert_accepted reply then [s] else []
    | None => []
    end.
Proof.
  unfold on_data.
  destruct (decode_payload (decoder_state w) (frame_raw data opcode)) as [d' [s|]];
    cbn [snd].
  - unfold insert_strike. destruct (insert_accepted reply); cbn [db];
      rewrite update_stats_strikes; cbn [lightning_strikes];
      [reflexivity | now rewrite app_nil_r].
  - cbn [db]. rewrite update_stats_strikes. now rewrite app_nil_r.
Qed.

Lemma on_data_counters_agree (reply : store_reply) (w : world) (data : payload)
      (opcode : Z) (n : Z) :
  counters_agree n w -> counters_agree (n + 1) (on_data reply w data opcode).
Proof.
  intros (Hn & Hsum & Hf & Hr & Hs & Hfl & Hrows & Hsucc).
  pose proof (on_data_stats reply w data opcode) as Hstats.
  pose proof (on_data_rows reply w data opcode) as Hrws.
  pose proof (on_data_decoder_state reply w data opcode) as Hdec.
  pose proof (decode_payload_counts (decoder_state w) (frame_raw data opcode))
    as (Hc1 & Hc2 & Hc3).
  cbn zeta in Hstats. unfold persisted in Hstats.
  unfold counters_agree, received, stored, failed in *.
  rewrite Hdec, Hrws, Hstats, Hc1, Hc2, Hc3, length_app, Nat2Z.inj_add.
  destruct (snd (decode_payload (decoder_state w) (frame_raw data opcode)))
    as [s|]; [destruct (insert_accepted reply)|];
    match goal with
    | |- context [update_applies ?a ?b ?c ?d ?e] =>
        destruct (update_applies a b c d e)
    end;
    cbn [total_received total_stored total_failed List.length]; lia.
Qed.

Lemma run_counters_agree (frames : list (store_reply * payload * Z)) :
  forall n w, counters_agree n w ->
    counters_agree (n + Z.of_nat (List.length frames)) (run w frames).
Proof.
  induction frames as [|[[reply data] opcode] rest IH]; intros n w Hw.
  - cbn. now rewrite Z.add_0_r.
  - cbn [run List.length]. rewrite Nat2Z.inj_succ.
    replace (n + Z.succ (Z.of_nat (List.length rest)))
      with (n + 1 + Z.of_nat (List.length rest)) by lia.
    apply IH. now apply on_data_counters_agree.
Qed.

Lemma initial_counters_agree (now : Z) : counters_agree 0 (initial_world now).
Proof. unfold counters_agree. cbn. lia. Qed.

(** The decoder counts every frame handed to the handler, whatever the
    store answers: after a run from the initial state [sample_count] is
    the number of frames, and it is the sum of [successful_decodes] and
    [failed_decodes]. *)
Theorem decoder_counts_every_frame
        (now : Z) (frames : list (store_reply * payload * Z)) :
  let d := decoder_state (run (initial_world now) frames) in
  sample_count d = Z.of_nat (List.length frames) /\
  sample_count d = successful_decodes d + failed_decodes d /\
  0 <= successful_decodes d /\ 0 <= failed_decodes d.
Proof.
  pose proof (run_counters_agree frames 0 _ (initial_counters_agree now)) as H.
  unfold counters_agree in H. cbn zeta. lia.
Qed.



End DecoderCounters.

(** ** No NaN out of a numeral, and the constraints of the table *)

Section NotANumber.
Import BlitzortungDecoder LightningDatabase.

Lemma shr_fexp_nonneg (m e : Z) (l : location) :
  0 <= m -> 0 <= shr_m (fst (shr_fexp prec emax m e l)).
Proof.
  intros Hm. unfold shr_fexp, shr.
  destruct (fexp prec emax (Zdigits2 m + e) - e) as [|p|p];
    cbn [fst]; rewrite ?shr_record_of_loc_m; try assumption.
  rewrite iter_shr_1_m by (rewrite shr_record_of_loc_m; assumption).
  rewrite shr_record_of_loc_m. apply Z.div_pos; [assumption|].
  apply Z.pow_pos_nonneg; lia.
Qed.

(** Rounding a non-negative mantissa gives a zero, a finite number or an
    infinity. *)
Lemma binary_round_aux_not_nan (s : bool) (m e : Z) (l : location) :
  0 <= m -> is_nan (binary_round_aux prec emax s m e l) = false.
Proof.
  intros Hm. unfold binary_round_aux.
  pose proof (shr_fexp_nonneg m e l Hm) as H1.
  destruct (shr_fexp prec emax m e l) as [mrs1 e1]. cbn [fst] in H1.
  pose proof (round_nearest_even_bounds 0 (shr_m mrs1) (loc_of_shr_record mrs1)) as Hr.
  set (m1 := round_nearest_even (shr_m mrs1) (loc_of_shr_record mrs1)) in *.
  pose proof (shr_fexp_nonneg m1 e1 loc_Exact ltac:(lia)) as H2.
  destruct (shr_fexp prec emax m1 e1 loc_Exact) as [mrs2 e2]. cbn [fst] in H2.
  destruct (shr_m mrs2) as [|p|p]; try lia; [reflexivity|].
  destruct (e2 <=? emax - prec); reflexivity.
Qed.

Lemma SFdiv_finite_not_nan (s s' : bool) (n d : positive) (e e' : Z) :
  is_nan (SFdiv prec emax (S754_finite s n e) (S754_finite s' d e')) = false.
Proof.
  unfold SFdiv.
  destruct (SFdiv_core_binary prec emax (Zpos n) e (Zpos d) e') as [[q e1] l] eqn:E.
  apply binary_round_aux_not_nan.
  unfold SFdiv_core_binary in E.
  match type of E with
  | (let '(q, r) := Z.div_eucl ?a ?b in _) = _ =>
      pose proof (Z_div_mod a b ltac:(lia)) as Hdm;
      assert (Ha : 0 <= a);
      [|destruct (Z.div_eucl a b) as [q' r']]
  end.
  - destruct (e - e' - _) as [|p|p]; try lia.
    rewrite Z.shiftl_mul_pow2 by lia.
    pose proof (pow2_pos (Zpos p) ltac:(lia)). nia.
  - injection E as <- _ _. destruct Hdm as [Heq Hr]. nia.
Qed.

Lemma decimal_to_float_not_nan (neg : bool) (n : Z) (k : nat) :
  is_nan (decimal_to_float neg n k) = false.
Proof.
  unfold decimal_to_float. destruct n; try reflexivity.
  apply SFdiv_finite_not_nan.
Qed.

(** [float()] gives no NaN on the numerals of the extractor. *)
Lemma float_of_str_not_nan (s : string) (v : float) :
  float_of_str s = Some v -> is_nan v = false.
Proof.
  unfold float_of_str.
  destruct (match s with
            | String c r =>
                if Ascii.eqb c "-" then (true, r)
                else if Ascii.eqb c "+" then (false, r) else (false, s)
            | EmptyString => (false, s)
            end) as [neg body].
  destruct (span_digits body) as [ip rest].
  destruct rest as [|c fr].
  - destruct (str_is_empty ip); [discriminate|].
    intros [= <-]. apply decimal_to_float_not_nan.
  - destruct (Ascii.eqb c "."); [|discriminate].
    destruct (span_digits fr) as [fp rest']. destruct rest'; [|discriminate].
    destruct (str_is_empty ip && str_is_empty fp); [discriminate|].
    intros [= <-]. apply decimal_to_float_not_nan.
Qed.

Lemma is_nan_fneg (x : float) : is_nan (fneg x) = is_nan x.
Proof. destruct x; reflexivity. Qed.

Lemma scan_positions_not_nan (s : string) (v : float) (todo : list nat) (c : float) :
  is_nan v = false -> scan_positions s v todo = Some c -> is_nan c = false.
Proof.
  intros Hv. induction todo as [|i rest IH]; cbn [scan_positions].
  - intros [= <-]. exact Hv.
  - destruct (float_of_str (str_take i s ++ "." ++ str_drop i s)) as [t|] eqn:Ht;
      [|discriminate].
    destruct (float_le_int t 180); [|exact IH].
    intros [= <-]. exact (float_of_str_not_nan _ _ Ht).
Qed.

(** [_fix_longitude] gives no NaN either. *)
Lemma fix_longitude_not_nan (lon_str : string) (c : float) :
  _fix_longitude lon_str = Some c -> is_nan c = false.
Proof.
  unfold _fix_longitude.
  destruct (float_of_str lon_str) as [v|] eqn:Hv; [|discriminate].
  pose proof (float_of_str_not_nan _ _ Hv) as Hnan.
  destruct (float_gt_int (fabs v) 1000); [|now intros [= <-]].
  destruct (int_of_float v) as [i|]; [|discriminate].
  set (str_val := str_of_nonneg (Z.abs i)).
  destruct (6 <=? String.length str_val)%nat; [|now intros [= <-]].
  assert (Hc : forall o c', o = Some c' -> is_nan c' = false ->
               match o with
               | Some c0 => Some (if float_lt_int v 0 then fneg c0 else c0)
               | None => None
               end = Some c -> is_nan c = false).
  { intros o c' -> Hc' [= <-]. destruct (float_lt_int v 0);
      [now rewrite is_nan_fneg | assumption]. }
  destruct (String.length str_val =? 8)%nat;
    [|destruct (String.length str_val =? 7)%nat].
  - destruct (float_of_str (str_take 2 str_val ++ "." ++ str_drop 2 str_val))
      as [t|] eqn:Ht; [|discriminate].
    apply (Hc _ t eq_refl). exact (float_of_str_not_nan _ _ Ht).
  - destruct (float_of_str (str_take 2 str_val ++ "." ++ str_drop 2 str_val))
      as [t|] eqn:Ht; [|discriminate].
    apply (Hc _ t eq_refl). exact (float_of_str_not_nan _ _ Ht).
  - destruct (scan_positions str_val v (seq 1 (String.length str_val - 1)))
      as [t|] eqn:Ht; [|discriminate].
    apply (Hc _ t eq_refl). exact (scan_positions_not_nan _ _ _ _ Hnan Ht).
Qed.

(** For a number, [abs(x) > n] fails exactly when [x] lies between [-n]
    and [n] in the order of the store. *)
Lemma abs_test_check_between (x : float) (n : Z) :
  0 <= n -> is_nan x = false ->
  check_between (- n) x n = negb (float_gt_int (fabs x) n).
Proof.
  intros Hn Hnan. unfold check_between, float_gt_int, float_lt_int.
  destruct x as [s|s| |s m e]; try discriminate; cbn [fabs SFabs cmp_float_int is_nan negb].
  - destruct (Z.compare_spec 0 (- n)), (Z.compare_spec 0 n); try reflexivity; lia.
  - destruct s; reflexivity.
  - destruct e as [|p|p].
    + destruct s;
        destruct (Z.compare_spec (Zneg m * 2 ^ 0) (- n)),
                 (Z.compare_spec (Zneg m * 2 ^ 0) n),
                 (Z.compare_spec (Zpos m * 2 ^ 0) (- n)),
                 (Z.compare_spec (Zpos m * 2 ^ 0) n);
        try reflexivity; change (2 ^ 0) with 1 in *; lia.
    + pose proof (pow2_pos (Zpos p) ltac:(lia)) as Hp.
      destruct s;
        destruct (Z.compare_spec (Zneg m * 2 ^ Zpos p) (- n)),
                 (Z.compare_spec (Zneg m * 2 ^ Zpos p) n),
                 (Z.compare_spec (Zpos m * 2 ^ Zpos p) (- n)),
                 (Z.compare_spec (Zpos m * 2 ^ Zpos p) n);
        try reflexivity; nia.
    + pose proof (pow2_pos (Zpos p) ltac:(lia)) as Hp.
      destruct s;
        destruct (Z.compare_spec (Zneg m) (- n * 2 ^ Zpos p)),
                 (Z.compare_spec (Zneg m) (n * 2 ^ Zpos p)),
                 (Z.compare_spec (Zpos m) (- n * 2 ^ Zpos p)),
                 (Z.compare_spec (Zpos m) (n * 2 ^ Zpos p));
        try reflexivity; nia.
Qed.

End NotANumber.

Section ValidatedRows.
Import Text BlitzortungDecoder LightningDatabase Ingest.

(** [_validate_strike] and the constraints of [lightning_strikes] agree on
    every record whose coordinates are numbers: what the validator accepts
    the table's [NOT NULL], [valid_latitude] and [valid_longitude] accept,
    and the other way round.  They part on a NaN only, which the
    validator lets through ([abs(nan) > 90] is false) and the table
    refuses. *)
Theorem validate_strike_matches_constraints :
  (forall strike,
      coordinate_constraints strike = true -> _validate_strike strike = true) /\
  (forall strike la lo,
      lat strike = Some la -> lon strike = Some lo ->
      is_nan la = false -> is_nan lo = false ->
      _validate_strike strike = coordinate_constraints strike) /\
  (forall strike,
      _validate_strike (with_coordinates strike (Some S754_nan) (float_of_str "0"))
        = true /\
      coordinate_constraints
        (with_coordinates strike (Some S754_nan) (float_of_str "0")) = false).
Proof.
  assert (Hnum : forall strike la lo,
             lat strike = Some la -> lon strike = Some lo ->
             is_nan la = false -> is_nan lo = false ->
             _validate_strike strike = coordinate_constraints strike).
  { intros strike la lo Hla Hlo Hna Hno.
    unfold _validate_strike, coordinate_constraints, valid_latitude, valid_longitude.
    rewrite Hla, Hlo.
    pose proof (abs_test_check_between la 90 ltac:(lia) Hna) as Ha.
    pose proof (abs_test_check_between lo 180 ltac:(lia) Hno) as Ho.
    cbn [Z.opp] in Ha, Ho. rewrite Ha, Ho.
    destruct (float_gt_int (fabs la) 90), (float_gt_int (fabs lo) 180); reflexivity. }
  split; [|split; [exact Hnum|intros strike; split; reflexivity]].
  intros strike Hc.
  unfold coordinate_constraints in Hc.
  destruct (lat strike) as [la|] eqn:Hla; [|discriminate].
  destruct (lon strike) as [lo|] eqn:Hlo; [|discriminate].
  assert (Hna : is_nan la = false).
  { unfold valid_latitude, check_between in Hc. destruct (is_nan la); [|reflexivity].
    rewrite andb_false_r in Hc. discriminate. }
  assert (Hno : is_nan lo = false).
  { unfold valid_longitude, check_between in Hc. destruct (is_nan lo); [|reflexivity].
    rewrite !andb_false_r in Hc. discriminate. }
  rewrite (Hnum strike la lo Hla Hlo Hna Hno).
  unfold coordinate_constraints. rewrite Hla, Hlo. exact Hc.
Qed.

(** The theorem at the record of latitude 45.5 and longitude -120.25. *)
Lemma validate_strike_matches_constraints_witness :
  coordinate_constraints
    {| time := 12; timestamp := {| wall_second := 12; microsecond := 0 |};
       lat := float_of_str "45.5"; lon := float_of_str "-120.25";
       alt := None; pol := None; mds := None; mcg := None |} = true /\
  _validate_strike
    {| time := 12; timestamp := {| wall_second := 12; microsecond := 0 |};
       lat := float_of_str "45.5"; lon := float_of_str "-120.25";
       alt := None; pol := None; mds := None; mcg := None |} = true.
Proof.
  destruct validate_strike_matches_constraints as (Hsub & _ & _).
  refine (conj eq_refl _). apply Hsub. reflexivity.
Defined.

Context {unicode : UnicodeData} {zone : LocalZone}.

(** The coordinates of an extracted record are numbers. *)
Lemma extract_fields_numbers (t : text) (strike : strike_data) :
  _extract_fields t = Some strike ->
  (exists la, lat strike = Some la /\ is_nan la = false) /\
  (forall lo, lon strike = Some lo -> is_nan lo = false).
Proof.
  unfold _extract_fields.
  destruct (re_search time_pattern t) as [tg|]; [|discriminate].
  destruct (int_of_text tg) as [raw|]; [|discriminate].
  destruct (normalize_timestamp raw) as [stamp|]; [|discriminate].
  destruct (re_search lat_pattern t) as [lag|]; [|discriminate].
  destruct (re_search lon_pattern t) as [log|]; [|discriminate].
  destruct (float_of_str (string_of_text lag)) as [la|] eqn:Hla; [|discriminate].
  destruct (optional_int (re_search alt_pattern t)) as [a|]; [|discriminate].
  destruct (optional_int (re_search mds_pattern t)) as [m1|]; [|discriminate].
  destruct (optional_int (re_search mcg_pattern t)) as [m2|]; [|discriminate].
  intros [= <-]. cbn [lat lon]. split.
  - exists la. split; [reflexivity|]. exact (float_of_str_not_nan _ _ Hla).
  - intros lo Hlo. exact (fix_longitude_not_nan _ _ Hlo).
Qed.

Lemma decode_constraints (self self' : decoder) (data : list byte)
      (strike : strike_data) :
  decode self data = (self', Some strike) -> coordinate_constraints strike = true.
Proof.
  unfold decode.
  destruct (_extract_fields (decoded_text data)) as [s|] eqn:He; [|discriminate].
  destruct (_validate_strike s) eqn:Hv; [|discriminate].
  intros [= _ <-].
  destruct (extract_fields_numbers _ _ He) as ((la & Hla & Hna) & Hlon).
  unfold _validate_strike in Hv. rewrite Hla in Hv.
  destruct (lon s) as [lo|] eqn:Hlo; [|discriminate].
  specialize (Hlon lo eq_refl).
  unfold coordinate_constraints, valid_latitude, valid_longitude.
  rewrite Hla, Hlo.
  pose proof (abs_test_check_between la 90 ltac:(lia) Hna) as Ha.
  pose proof (abs_test_check_between lo 180 ltac:(lia) Hlon) as Ho.
  cbn [Z.opp] in Ha, Ho. rewrite Ha, Ho.
  destruct (float_gt_int (fabs la) 90), (float_gt_int (fabs lo) 180);
    try discriminate; reflexivity.
Qed.

Lemma run_rows_constraints (frames : list (store_reply * payload * Z)) :
  forall w,
    Forall (fun s => coordinate_constraints s = true) (lightning_strikes (db w)) ->
    Forall (fun s => coordinate_constraints s = true)
           (lightning_strikes (db (run w frames))).
Proof.
  induction frames as [|[[reply data] opcode] rest IH]; intros w Hw;
    cbn [run]; [assumption|].
  apply IH. rewrite on_data_rows. apply Forall_app. split; [assumption|].
  destruct (decode_payload (decoder_state w) (frame_raw data opcode))
    as [d' [s|]] eqn:Hd; cbn [snd]; [|constructor].
  destruct (insert_accepted reply); constructor; [|constructor].
  destruct (frame_raw data opcode) as [b|t]; cbn [decode_payload] in Hd;
    [|discriminate].
  exact (decode_constraints _ _ _ _ Hd).
Qed.

(** Every record [decode] returns has both coordinates, each a number
    within the bounds of the table's constraints; so has every row of
    [lightning_strikes] after a run from the initial state: no [INSERT] of
    the handler can fail on [NOT NULL], [valid_latitude] or
    [valid_longitude] of the coordinates. *)
Theorem decoded_rows_meet_constraints :
  (forall self data self' strike,
      decode self data = (self', Some strike) ->
      _validate_strike strike = true /\ coordinate_constraints strike = true) /\
  (forall now frames,
      Forall (fun s => coordinate_constraints s = true)
             (lightning_strikes (db (run (initial_world now) frames)))).
Proof.
  split.
  - intros self data self' strike Hd. split; [|exact (decode_constraints _ _ _ _ Hd)].
    unfold decode in Hd.
    destruct (_extract_fields (decoded_text data)) as [s|]; [|discriminate].
    destruct (_validate_strike s) eqn:Hv; [|discriminate].
    now injection Hd as _ <-.
  - intros now frames. apply run_rows_constraints. constructor.
Qed.

End ValidatedRows.

Section ValidatedRowsExamples.
Import Text BlitzortungDecoder LightningDatabase Ingest.

(** The theorem at the frame ["time:1700000000 lat:45.5 lon:1604008"]. *)
Lemma decoded_rows_meet_constraints_witness :
  exists strike,
    snd (decode (unicode := ascii_data) (zone := utc) (decoder_state (initial_world 0))
                (list_byte_of_string "time:1700000000 lat:45.5 lon:1604008")) =
      Some strike /\
    lon strike = float_of_str "16.04008" /\
    coordinate_constraints strike = true.
Proof.
  destruct (decode (unicode := ascii_data) (zone := utc) (decoder_state (initial_world 0))
              (list_byte_of_string "time:1700000000 lat:45.5 lon:1604008"))
    as [d' [s|]] eqn:Hd; [|vm_compute in Hd; discriminate Hd].
  exists s. split; [reflexivity|]. split.
  - vm_compute in Hd. injection Hd as _ <-. reflexivity.
  - destruct (decoded_rows_meet_constraints (unicode := ascii_data) (zone := utc)) as [Hdec _].
    exact (proj2 (Hdec _ _ _ _ Hd)).
Defined.

End ValidatedRowsExamples.

(** ** What the patterns capture *)

Section Captures.
Import Text BlitzortungDecoder.
Context {unicode : UnicodeData} {zone : LocalZone}.











End Captures.

Section CapturesExamples.
Import Text BlitzortungDecoder.


End CapturesExamples.

(** ** The longitude repair: when it fails, and the range of a repair *)

Section FixLongitudeRange.

Lemma decimal_to_float_below_hundred (s : bool) (n : Z) (k : nat) :
  0 <= n < 100 * 10 ^ Z.of_nat k ->
  magnitude_at_most 100 s (decimal_to_float s n k).
Proof.
  intros [H0 Hlt]. unfold decimal_to_float.
  destruct n as [|p|p]; try lia.
  - left; reflexivity.
  - apply (SFdiv_below 100 7); [change (2 ^ 7) with 128; lia | lia |].
    rewrite Z2Pos.id by (apply Z.pow_pos_nonneg; lia). exact Hlt.
Qed.

Lemma magnitude_at_most_mono (b c : Z) (s : bool) (x : float) :
  b <= c -> magnitude_at_most b s x -> magnitude_at_most c s x.
Proof.
  intros Hbc [->|(m & e & -> & He & Hm)]; [left; reflexivity|right].
  exists m, e. repeat split; try assumption.
  pose proof (pow2_pos (- e) ltac:(lia)). nia.
Qed.

Lemma fabs_with_sign (b : Z) (c : float) (neg : bool) :
  magnitude_at_most b false c -> fabs (if neg then fneg c else c) = c.
Proof.
  intros [->|(m & e & -> & _)]; destruct neg; reflexivity.
Qed.

(** The digits with a point after the first two, for at least two digits:
    a numeral below one hundred. *)
Lemma candidate_two_at_most_hundred (s : string) :
  all_digits s = true -> (2 <= String.length s)%nat ->
  exists c, candidate s 2 = Some c /\ magnitude_at_most 100 false c.
Proof.
  intros Hs Hlen. eexists; split.
  - apply candidate_value; [assumption|lia].
  - apply decimal_to_float_below_hundred.
    pose proof (int_of_digits_bound s 0 Hs ltac:(lia)) as Hb.
    replace (100 * 10 ^ Z.of_nat (String.length s - 2))
      with (10 ^ Z.of_nat (String.length s)); [lia|].
    replace (Z.of_nat (String.length s))
      with (Z.succ (Z.succ (Z.of_nat (String.length s - 2)))) at 1 by lia.
    rewrite !Z.pow_succ_r by lia. lia.
Qed.

(** Past the threshold and with six digits or more, the repair returns a
    magnitude of at most one hundred with the sign of the input. *)
Lemma fix_longitude_repairs (lon_str : string) (v : float) (s : string) :
  float_of_str lon_str = Some v ->
  float_gt_int (fabs v) 1000 = true ->
  abs_int_digits v = Some s ->
  (6 <= String.length s)%nat ->
  exists c, magnitude_at_most 100 false c /\
            _fix_longitude lon_str = Some (if float_lt_int v 0 then fneg c else c).
Proof.
  intros Hparse Hbig Hdig Hlen.
  pose proof (abs_int_digits_all v s Hdig) as Hall.
  destruct (abs_int_digits_inv v s Hdig) as (i & Hi & Hs).
  unfold _fix_longitude. rewrite Hparse, Hbig, Hi, <- Hs.
  replace (6 <=? String.length s)%nat with true
    by (symmetry; apply Nat.leb_le; lia).
  destruct (candidate_two_at_most_hundred s Hall ltac:(lia)) as (c2 & Hc2 & Hm2).
  unfold candidate in Hc2.
  destruct (String.length s =? 8)%nat eqn:E8;
    [|destruct (String.length s =? 7)%nat eqn:E7].
  - exists c2. rewrite Hc2. split; [assumption|reflexivity].
  - exists c2. rewrite Hc2. split; [assumption|reflexivity].
  - destruct (scan_accepts_one s v Hall ltac:(lia)) as (c & _ & Hm & Hscan & _).
    exists c. rewrite Hscan. split; [|reflexivity].
    apply (magnitude_at_most_mono 10 100); [lia|assumption].
Qed.

(** A number that is not above 1000 in magnitude has an integer part of
    at most four digits. *)
Lemma small_numbers_short : forall n,
  0 <= n <= 1000 -> (String.length (str_of_nonneg n) <= 4)%nat.
Proof.
  assert (H : forallb (fun k => String.length (str_of_nonneg (Z.of_nat k)) <=? 4)%nat
                      (seq 0 1001) = true) by (vm_compute; reflexivity).
  rewrite forallb_forall in H.
  intros n Hn. specialize (H (Z.to_nat n)).
  rewrite Z2Nat.id in H by lia. apply Nat.leb_le. apply H.
  apply in_seq. lia.
Qed.

Lemma below_threshold_short (v : float) (s : string) :
  float_gt_int (fabs v) 1000 = false ->
  abs_int_digits v = Some s -> (String.length s <= 4)%nat.
Proof.
  intros Hsmall (i & Hi & ->)%abs_int_digits_inv.
  apply small_numbers_short.
  unfold float_gt_int in Hsmall.
  destruct v as [sg|sg| |sg m e]; try discriminate.
  - injection Hi as <-. cbn. lia.
  - cbn [fabs SFabs cmp_float_int] in Hsmall. unfold int_of_float in Hi.
    remember (match e with
              | Zneg p => Zpos m / 2 ^ Zpos p
              | _ => Zpos m * 2 ^ e
              end) as a eqn:Ha.
    injection Hi as <-.
    assert (Hq : 0 <= a <= 1000); [|destruct sg; lia].
    subst a. destruct e as [|p|p].
    + change (2 ^ 0) with 1 in *.
      destruct (Z.compare_spec (Zpos m * 1) 1000); try discriminate; lia.
    + pose proof (pow2_pos (Zpos p) ltac:(lia)).
      destruct (Z.compare_spec (Zpos m * 2 ^ Zpos p) 1000); try discriminate; lia.
    + pose proof (pow2_pos (Zpos p) ltac:(lia)) as Hp.
      split; [apply Z.div_pos; lia|].
      apply Z.div_le_upper_bound; [lia|].
      destruct (Z.compare_spec (Zpos m) (1000 * 2 ^ Zpos p)); try discriminate; lia.
Qed.

(** [_fix_longitude] returns [None] exactly when [float()] raises on the
    string or gives an infinity (on which [int()] raises): the repair
    itself never fails, and the fall-back of its scan is never taken. *)
Theorem fix_longitude_fails_exactly (lon_str : string) :
  _fix_longitude lon_str = None <->
  (float_of_str lon_str = None \/
   exists negative, float_of_str lon_str = Some (S754_infinity negative)).
Proof.
  split.
  - intros Hnone.
    destruct (float_of_str lon_str) as [v|] eqn:Hparse; [right|now left].
    pose proof (float_of_str_not_nan _ _ Hparse) as Hnan.
    destruct v as [sg|sg| |sg m e]; try discriminate Hnan.
    + unfold _fix_longitude in Hnone. rewrite Hparse in Hnone. discriminate Hnone.
    + now exists sg.
    + exfalso.
      destruct (float_gt_int (fabs (S754_finite sg m e)) 1000) eqn:Hbig.
      * destruct (abs_int_digits (S754_finite sg m e)) as [s|] eqn:Hdig;
          [|discriminate Hdig].
        destruct (le_lt_dec 6 (String.length s)) as [Hlen|Hlen].
        -- destruct (fix_longitude_repairs _ _ _ Hparse Hbig Hdig Hlen)
             as (c & _ & Hfix).
           congruence.
        -- destruct (abs_int_digits_inv _ _ Hdig) as (i & Hi & Hs).
           unfold _fix_longitude in Hnone.
           rewrite Hparse, Hbig, Hi, <- Hs in Hnone.
           replace (6 <=? String.length s)%nat with false in Hnone
             by (symmetry; apply Nat.leb_gt; lia).
           discriminate Hnone.
      * unfold _fix_longitude in Hnone. rewrite Hparse, Hbig in Hnone.
        discriminate Hnone.
  - intros [Hparse|[sg Hparse]]; unfold _fix_longitude; rewrite Hparse;
      [reflexivity|]. destruct sg; reflexivity.
Qed.

(** The theorem at ["1.2.3"], which is no numeral, and at a numeral of
    400 digits, which is read as an infinity. *)
Lemma fix_longitude_fails_exactly_witness :
  _fix_longitude "1.2.3" = None /\
  _fix_longitude ("1" ++ string_of_list_ascii (repeat "0"%char 400)) = None.
Proof.
  split.
  - apply (proj2 (fix_longitude_fails_exactly "1.2.3")). left. reflexivity.
  - apply (proj2 (fix_longitude_fails_exactly _)). right. exists false.
    vm_compute. reflexivity.
Defined.

(** A longitude whose integer part has six digits or more is always
    repaired, to a magnitude of at most one hundred with the sign of the
    input: the validator's test on the longitude cannot reject it. *)
Theorem fix_longitude_six_digits_in_range (lon_str : string) (v : float) (s : string) :
  float_of_str lon_str = Some v ->
  abs_int_digits v = Some s ->
  (6 <= String.length s)%nat ->
  exists c,
    _fix_longitude lon_str = Some (if float_lt_int v 0 then fneg c else c) /\
    fabs (if float_lt_int v 0 then fneg c else c) = c /\
    float_le_int c 100 = true /\
    float_gt_int (fabs (if float_lt_int v 0 then fneg c else c)) 180 = false.
Proof.
  intros Hparse Hdig Hlen.
  assert (Hbig : float_gt_int (fabs v) 1000 = true).
  { destruct (float_gt_int (fabs v) 1000) eqn:E; [reflexivity|].
    pose proof (below_threshold_short v s E Hdig). lia. }
  destruct (fix_longitude_repairs _ _ _ Hparse Hbig Hdig Hlen) as (c & Hm & Hfix).
  exists c. split; [assumption|].
  rewrite (fabs_with_sign 100 c _ Hm). split; [reflexivity|]. split.
  - apply (magnitude_at_most_le_int 100 100); [lia|assumption].
  - apply float_le_gt_int.
    apply (magnitude_at_most_le_int 100 180); [lia|assumption].
Qed.

(** The theorem at ["-16040089"], repaired to -16.040089. *)
Lemma fix_longitude_six_digits_in_range_witness :
  float_of_str "-16040089" = Some (decimal_to_float true 16040089 0) /\
  abs_int_digits (decimal_to_float true 16040089 0) = Some "16040089"%string /\
  _fix_longitude "-16040089" = float_of_str "-16.040089".
Proof.
  refine (conj eq_refl (conj eq_refl _)).
  destruct (fix_longitude_six_digits_in_range "-16040089"
              (decimal_to_float true 16040089 0) "16040089" eq_refl eq_refl)
    as (c & Hfix & _ & _ & _); [simpl; lia|].
  rewrite Hfix.
  assert (Hc : _fix_longitude "-16040089" = float_of_str "-16.040089")
    by (vm_compute; reflexivity).
  rewrite Hfix in Hc. exact Hc.
Defined.

End FixLongitudeRange.

(** ** UTF-8 and the frames the substitution leaves alone *)

Section Utf8.
Import Text BlitzortungDecoder Ingest.

Lemma to_N_byte_of_N (n : N) : (n < 256)%N -> Byte.to_N (byte_of_N n) = n.
Proof.
  intros Hn. unfold byte_of_N. destruct (Byte.of_N n) as [b|] eqn:E.
  - now apply Byte.to_of_N.
  - apply Byte.of_N_None_iff in E. lia.
Qed.

(** One step of [utf8_decode]. *)
Lemma utf8_decode_cons (b0 : byte) (r0 : list byte) :
  utf8_decode (b0 :: r0) =
    let n0 := Byte.to_N b0 in
    if (n0 <? 0x80)%N then n0 :: utf8_decode r0
    else if (n0 <? 0xC2)%N then REPLACEMENT_CHARACTER :: utf8_decode r0
    else if (n0 <? 0xE0)%N then
      match r0 with
      | b1 :: r1 =>
          if is_continuation b1
          then ((n0 - 0xC0) * 64 + low6 b1)%N :: utf8_decode r1
          else REPLACEMENT_CHARACTER :: utf8_decode r0
      | [] => [REPLACEMENT_CHARACTER]
      end
    else if (n0 <? 0xF0)%N then
      match r0 with
      | b1 :: r1 =>
          if second_of_three n0 b1 then
            match r1 with
            | b2 :: r2 =>
                if is_continuation b2
                then ((n0 - 0xE0) * 4096 + low6 b1 * 64 + low6 b2)%N
                       :: utf8_decode r2
                else REPLACEMENT_CHARACTER :: utf8_decode r1
            | [] => [REPLACEMENT_CHARACTER]
            end
          else REPLACEMENT_CHARACTER :: utf8_decode r0
      | [] => [REPLACEMENT_CHARACTER]
      end
    else if (n0 <? 0xF5)%N then
      match r0 with
      | b1 :: r1 =>
          if second_of_four n0 b1 then
            match r1 with
            | b2 :: r2 =>
                if is_continuation b2 then
                  match r2 with
                  | b3 :: r3 =>
                      if is_continuation b3
                      then ((n0 - 0xF0) * 262144 + low6 b1 * 4096
                            + low6 b2 * 64 + low6 b3)%N :: utf8_decode r3
                      else REPLACEMENT_CHARACTER :: utf8_decode r2
                  | [] => [REPLACEMENT_CHARACTER]
                  end
                else REPLACEMENT_CHARACTER :: utf8_decode r1
            | [] => [REPLACEMENT_CHARACTER]
            end
          else REPLACEMENT_CHARACTER :: utf8_decode r0
      | [] => [REPLACEMENT_CHARACTER]
      end
    else REPLACEMENT_CHARACTER :: utf8_decode r0.
Proof. destruct r0 as [|b1 [|b2 [|b3 r3]]]; reflexivity. Qed.

(** Settle the tests of the decoder on numbers known by their bounds. *)
Ltac settle_tests :=
  repeat match goal with
         | |- context [(?a <? ?b)%N] =>
             first [ replace (a <? b)%N with true
                       by (symmetry; apply N.ltb_lt; lia_div)
                   | replace (a <? b)%N with false
                       by (symmetry; apply N.ltb_ge; lia_div) ]
         | |- context [(?a <=? ?b)%N] =>
             first [ replace (a <=? b)%N with true
                       by (symmetry; apply N.leb_le; lia_div)
                   | replace (a <=? b)%N with false
                       by (symmetry; apply N.leb_gt; lia_div) ]
         | |- context [(?a =? ?b)%N] =>
             first [ replace (a =? b)%N with true
                       by (symmetry; apply N.eqb_eq; lia_div)
                   | replace (a =? b)%N with false
                       by (symmetry; apply N.eqb_neq; lia_div) ]
         end.

(** The bytes of one code point decode to it. *)
Lemma utf8_decode_encode_one (c : N) (r : list byte) :
  scalar_value c = true ->
  utf8_decode (utf8_encode_one c ++ r) = c :: utf8_decode r.
Proof.
  unfold scalar_value. intros [Hmax Hsur]%andb_prop.
  apply N.ltb_lt in Hmax. apply negb_true_iff in Hsur.
  unfold utf8_encode_one.
  destruct (N.ltb_spec c 0x80) as [H1|H1].
  { cbn [app]. rewrite utf8_decode_cons. cbv zeta.
    rewrite to_N_byte_of_N by lia. settle_tests. reflexivity. }
  destruct (N.ltb_spec c 0x800) as [H2|H2].
  { cbn [app]. rewrite utf8_decode_cons. cbv zeta.
    unfold is_continuation, low6.
    rewrite !to_N_byte_of_N by lia_div. settle_tests. cbn [andb].
    f_equal. lia_div. }
  rewrite Hsur.
  assert (Hns : (c < 0xD800 \/ 0xDFFF < c)%N).
  { apply andb_false_iff in Hsur as [H|H];
      [apply N.leb_gt in H | apply N.leb_gt in H]; lia. }
  destruct (N.ltb_spec c 0x10000) as [H3|H3].
  { cbn [app]. rewrite utf8_decode_cons. cbv zeta.
    unfold second_of_three, is_continuation, low6. cbv zeta.
    rewrite !to_N_byte_of_N by lia_div.
    settle_tests. cbn [andb].
    destruct (N.eqb_spec (224 + c / 4096) 224) as [E0|E0];
      [|destruct (N.eqb_spec (224 + c / 4096) 237) as [Ed|Ed]];
      settle_tests; cbn [andb]; f_equal; lia_div. }
  cbn [app]. rewrite utf8_decode_cons. cbv zeta.
  unfold second_of_four, is_continuation, low6. cbv zeta.
  rewrite !to_N_byte_of_N by lia_div.
  settle_tests. cbn [andb].
  destruct (N.eqb_spec (240 + c / 262144) 240) as [E0|E0];
    [|destruct (N.eqb_spec (240 + c / 262144) 244) as [E4|E4]];
    settle_tests; cbn [andb]; f_equal; lia_div.
Qed.

(** Encoding a well-formed text and decoding it gives the text back. *)
Lemma utf8_decode_encode (t : text) :
  forallb scalar_value t = true -> utf8_decode (utf8_encode t) = t.
Proof.
  induction t as [|c t IH]; [reflexivity|].
  cbn [forallb]. intros [Hc Ht]%andb_prop.
  unfold utf8_encode. cbn [flat_map]. rewrite utf8_decode_encode_one by assumption.
  f_equal. exact (IH Ht).
Qed.

Lemma not_lead_byte_of_N (n : N) :
  (n < 256)%N -> n <> 196%N -> n <> 197%N -> not_lead (byte_of_N n) = true.
Proof.
  intros Hn H4 H5. unfold not_lead, is_lead.
  destruct (Byte.eqb (byte_of_N n) xc4) eqn:E4.
  { apply Byte.byte_dec_bl in E4. apply (f_equal Byte.to_N) in E4.
    rewrite to_N_byte_of_N in E4 by assumption. now elim H4. }
  destruct (Byte.eqb (byte_of_N n) xc5) eqn:E5.
  { apply Byte.byte_dec_bl in E5. apply (f_equal Byte.to_N) in E5.
    rewrite to_N_byte_of_N in E5 by assumption. now elim H5. }
  reflexivity.
Qed.

(** Only the code points U+0100 to U+017F have a UTF-8 form with a byte
    [C4] or [C5]. *)
Lemma utf8_encode_one_not_lead (c : N) :
  (c < 0x110000)%N -> lead_code_point c = false ->
  forallb not_lead (utf8_encode_one c) = true.
Proof.
  intros Hmax Hlead. unfold lead_code_point in Hlead.
  assert (Hc : (c < 0x100 \/ 0x17F < c)%N).
  { apply andb_false_iff in Hlead as [H|H];
      [apply N.leb_gt in H | apply N.leb_gt in H]; lia. }
  unfold utf8_encode_one.
  destruct (N.ltb_spec c 0x80) as [H1|H1];
    [|destruct (N.ltb_spec c 0x800) as [H2|H2];
      [|destruct ((0xD800 <=? c) && (c <=? 0xDFFF))%N;
        [|destruct (N.ltb_spec c 0x10000) as [H3|H3]]]];
    cbn [forallb]; try reflexivity;
    rewrite ?not_lead_byte_of_N by lia_div; reflexivity.
Qed.

Lemma utf8_encode_not_lead (t : text) :
  forallb (fun c => (c <? 0x110000)%N && negb (lead_code_point c)) t = true ->
  forallb not_lead (utf8_encode t) = true.
Proof.
  induction t as [|c t IH]; [reflexivity|].
  cbn [forallb]. intros [[Hc Hl]%andb_prop Ht]%andb_prop.
  unfold utf8_encode. cbn [flat_map]. rewrite forallb_app.
  rewrite utf8_encode_one_not_lead;
    [exact (IH Ht) | now apply N.ltb_lt | now apply negb_true_iff].
Qed.

(** A frame without the first byte of a key has no occurrence of it. *)
Lemma replace2_not_lead (l t : byte) (new s : list byte) :
  is_lead l = true -> forallb not_lead s = true -> replace [l; t] new s = s.
Proof.
  intros Hl. induction s as [|x [|y s'] IH]; intros Hs.
  - reflexivity.
  - apply replace2_single.
  - rewrite replace2_cons2.
    cbn [forallb] in Hs. apply andb_prop in Hs as [Hx Hs].
    assert (E : Byte.eqb l x = false).
    { destruct (Byte.eqb l x) eqn:E; [|reflexivity].
      apply Byte.byte_dec_bl in E. subst x. unfold not_lead in Hx.
      rewrite Hl in Hx. discriminate. }
    rewrite E. cbn [andb]. f_equal. now apply IH.
Qed.

Lemma apply_not_lead tbl (s : list byte) :
  table_ok tbl -> forallb not_lead s = true -> apply_substitutions tbl s = s.
Proof.
  intros Hok Hs.
  induction Hok as [|kv tbl Hkv Hok IH]; [reflexivity|].
  rewrite apply_substitutions_cons.
  destruct (entry_ok_inv kv Hkv) as (l & t & Hfst & Hl & Ht & _).
  rewrite Hfst, replace2_not_lead by assumption. exact IH.
Qed.

Lemma plain_not_lead (s : list byte) :
  forallb is_plain s = true -> forallb not_lead s = true.
Proof.
  induction s as [|x s IH]; [reflexivity|].
  cbn [forallb]. intros [Hx Hs]%andb_prop. rewrite (IH Hs), andb_true_r.
  unfold not_lead. destruct (is_lead x) eqn:E; [|reflexivity].
  rewrite (lead_not_plain x E) in Hx. discriminate.
Qed.

Lemma utf8_decode_plain (s : list byte) :
  forallb is_plain s = true -> utf8_decode s = map Byte.to_N s.
Proof.
  induction s as [|x s IH]; [reflexivity|].
  cbn [forallb]. intros [Hx Hs]%andb_prop.
  rewrite utf8_decode_cons. cbv zeta. unfold is_plain in Hx. rewrite Hx.
  cbn [map]. f_equal. exact (IH Hs).
Qed.

(** The substitution touches only frames that hold a byte [C4] or [C5]:
    any other frame goes to the UTF-8 decoder as it came, and a frame of
    ASCII bytes is decoded to the very same characters. *)
Theorem frame_without_lead_bytes_untouched (data : list byte) :
  (forallb not_lead data = true ->
     apply_substitutions substitutions data = data /\
     decoded_text data = utf8_decode data) /\
  (forallb is_plain data = true -> decoded_text data = map Byte.to_N data).
Proof.
  split.
  - intros Hs. pose proof (apply_not_lead _ _ substitutions_ok Hs) as H.
    split; [exact H|]. unfold decoded_text. now rewrite H.
  - intros Hs. unfold decoded_text.
    rewrite (apply_not_lead _ _ substitutions_ok (plain_not_lead _ Hs)).
    now apply utf8_decode_plain.
Qed.

(** The theorem at the frames ["lat:4"] followed by [E2 82 AC], and
    ["lon:7"]. *)
Lemma frame_without_lead_bytes_untouched_witness :
  decoded_text (list_byte_of_string "lat:4" ++ [xe2; x82; xac]) =
    (text_of_string "lat:4" ++ [8364%N]) /\
  decoded_text (list_byte_of_string "lon:7") = text_of_string "lon:7".
Proof.
  split.
  - destruct (frame_without_lead_bytes_untouched
                (list_byte_of_string "lat:4" ++ [xe2; x82; xac])) as [H _].
    destruct (H eq_refl) as [_ ->]. reflexivity.
  - destruct (frame_without_lead_bytes_untouched (list_byte_of_string "lon:7"))
      as [_ H].
    rewrite (H eq_refl). reflexivity.
Defined.

(** A text frame is encoded and decoded back.  A well-formed text comes
    back from UTF-8 as it was; and when it holds no code point from U+0100
    to U+017F the substitution in between changes nothing, so
    [_extract_fields] is handed the text of the frame itself. *)
Theorem text_frame_round_trip (t : text) (opcode : Z) :
  forallb scalar_value t = true ->
  utf8_decode (utf8_encode t) = t /\
  (opcode <> OPCODE_BINARY ->
   forallb (fun c => negb (lead_code_point c)) t = true ->
   frame_raw (Str t) opcode = Bytes (utf8_encode t) /\
   decoded_text (utf8_encode t) = t).
Proof.
  intros Hs. split; [now apply utf8_decode_encode|].
  intros Hop Hl. split.
  - unfold frame_raw. apply Z.eqb_neq in Hop. now rewrite Hop.
  - unfold decoded_text. rewrite apply_not_lead.
    + now apply utf8_decode_encode.
    + exact substitutions_ok.
    + apply utf8_encode_not_lead.
      rewrite forallb_forall in Hs, Hl |- *. intros c Hc.
      specialize (Hs c Hc). specialize (Hl c Hc).
      unfold scalar_value in Hs. apply andb_prop in Hs as [Hs _].
      now rewrite Hs, Hl.
Qed.

(** The theorem at the text ["lat:45.5"] followed by U+20AC and U+1F600,
    as a text frame (opcode 1). *)
Lemma text_frame_round_trip_witness :
  frame_raw (Str (text_of_string "lat:45.5" ++ [8364; 128512]%N)) 1 =
    Bytes (list_byte_of_string "lat:45.5"
           ++ [xe2; x82; xac; xf0; x9f; x98; x80]) /\
  decoded_text (list_byte_of_string "lat:45.5"
                ++ [xe2; x82; xac; xf0; x9f; x98; x80]) =
    (text_of_string "lat:45.5" ++ [8364; 128512]%N).
Proof.
  destruct (text_frame_round_trip (text_of_string "lat:45.5" ++ [8364; 128512]%N) 1
              eq_refl) as [_ H].
  destruct (H ltac:(discriminate) eq_refl) as [H1 H2].
  split; [exact H1 | exact H2].
Defined.

End Utf8.

(** ** The length of the decoded text *)

Section DecodedLength.
Import Text BlitzortungDecoder.

Lemma utf8_decode_length_bounded (n : nat) : forall s,
  (List.length s <= n)%nat ->
  (List.length (utf8_decode s) <= List.length s)%nat.
Proof.
  induction n as [|n IH]; intros s Hs.
  - destruct s; [cbn; lia | cbn in Hs; lia].
  - destruct s as [|b0 r0]; [cbn; lia|].
    rewrite utf8_decode_cons. cbv zeta.
    repeat match goal with
           | |- context [if ?c then _ else _] => destruct c
           | |- context [match ?r with [] => _ | _ :: _ => _ end] => destruct r
           end;
      cbn [List.length] in *;
      repeat match goal with
             | |- context [List.length (utf8_decode ?x)] =>
                 let H := fresh "H" in
                 assert (H : (List.length (utf8_decode x) <= List.length x)%nat)
                   by (apply IH; cbn [List.length]; lia);
                 cbn [List.length] in H;
                 generalize dependent (List.length (utf8_decode x)); intros
             end;
      lia.
Qed.

(** [errors='replace'] never makes a text longer than its bytes. *)
Lemma utf8_decode_length (s : list byte) :
  (List.length (utf8_decode s) <= List.length s)%nat.
Proof. apply (utf8_decode_length_bounded (List.length s)). lia. Qed.

Lemma replace2_length_bounded (a b : byte) (new : list byte) (n : nat) :
  (List.length new <= 2)%nat ->
  forall s, (List.length s <= n)%nat ->
    (List.length (replace [a; b] new s) <= List.length s)%nat.
Proof.
  intros Hnew. induction n as [|n IH]; intros s Hs.
  - destruct s; [cbn; lia | cbn in Hs; lia].
  - destruct s as [|x [|y r]].
    + cbn; lia.
    + rewrite replace2_single. lia.
    + rewrite replace2_cons2. cbn [List.length] in Hs.
      destruct (Byte.eqb a x && Byte.eqb b y).
      * rewrite length_app. cbn [List.length].
        pose proof (IH r ltac:(lia)). lia.
      * cbn [List.length].
        pose proof (IH (y :: r) ltac:(cbn [List.length]; lia)) as H.
        cbn [List.length] in H. lia.
Qed.

Lemma apply_substitutions_length tbl :
  table_ok tbl -> Forall (fun kv => (List.length (snd kv) <= 2)%nat) tbl ->
  forall s, (List.length (apply_substitutions tbl s) <= List.length s)%nat.
Proof.
  intros Hok. induction Hok as [|kv tbl Hkv Hok IH]; intros Hshort s; [cbn; lia|].
  inversion Hshort as [|? ? Hkv2 Hshort']; subst.
  rewrite apply_substitutions_cons.
  destruct (entry_ok_inv kv Hkv) as (l & t & Hfst & _).
  rewrite Hfst.
  pose proof (replace2_length_bounded l t (snd kv) (List.length s) Hkv2 s
                ltac:(lia)) as H1.
  pose proof (IH Hshort' (replace [l; t] (snd kv) s)) as H2. lia.
Qed.

Lemma substitutions_outputs_short :
  Forall (fun kv => (List.length (snd kv) <= 2)%nat) substitutions.
Proof.
  apply Forall_forall. intros kv Hin.
  assert (H : forallb (fun kv => (List.length (snd kv) <=? 2)%nat) substitutions = true)
    by (vm_compute; reflexivity).
  rewrite forallb_forall in H. apply Nat.leb_le. now apply H.
Qed.

(** Decoding never lengthens a frame: every key of the table has two
    bytes and no output has more, and the UTF-8 decoder gives at most one
    character for a byte, so the text handed to [_extract_fields] has at
    most as many characters as the frame has bytes. *)
Theorem decoded_text_not_longer (data : list byte) :
  (List.length (apply_substitutions substitutions data) <= List.length data)%nat /\
  (List.length (decoded_text data) <= List.length data)%nat.
Proof.
  pose proof (apply_substitutions_length substitutions substitutions_ok
                substitutions_outputs_short data) as H1.
  split; [exact H1|].
  unfold decoded_text.
  pose proof (utf8_decode_length (apply_substitutions substitutions data)). lia.
Qed.

End DecodedLength.

(** ** Binary64 rounding: a value that is a bound is kept *)

Section ExactBounds.

Lemma shr_1_double (m : Z) :
  0 <= m ->
  shr_1 {| shr_m := 2 * m; shr_r := false; shr_s := false |} =
    {| shr_m := m; shr_r := false; shr_s := false |}.
Proof. destruct m as [|p|p]; try lia; reflexivity. Qed.

(** Shifting out [p] zero bits is exact. *)
Lemma iter_shr_1_exact (p : positive) : forall m,
  0 <= m ->
  iter_pos shr_1 p {| shr_m := m * 2 ^ Zpos p; shr_r := false; shr_s := false |} =
    {| shr_m := m; shr_r := false; shr_s := false |}.
Proof.
  induction p as [p IH|p IH|]; intros m Hm; cbn [iter_pos].
  - pose proof (pow2_pos (Zpos p) ltac:(lia)) as Hp.
    replace (m * 2 ^ Zpos p~1) with (2 * (m * 2 ^ Zpos p * 2 ^ Zpos p)).
    + rewrite shr_1_double by nia. rewrite IH by nia. now apply IH.
    + rewrite Pos2Z.inj_xI, Z.add_1_r, Z.pow_succ_r, Z.pow_twice_r by lia. ring.
  - pose proof (pow2_pos (Zpos p) ltac:(lia)) as Hp.
    replace (m * 2 ^ Zpos p~0) with (m * 2 ^ Zpos p * 2 ^ Zpos p).
    + rewrite IH by nia. now apply IH.
    + change (Zpos p~0) with (2 * Zpos p). rewrite Z.pow_twice_r. ring.
  - change (2 ^ 1) with 2. rewrite Z.mul_comm. now apply shr_1_double.
Qed.

Variables c j : Z.
Hypothesis Hc : 0 < c < 2 ^ j.
Hypothesis Hj : 0 <= j <= 53.

(** The bound itself, written with the exponent [e], is shifted to the
    bound written with the canonical exponent. *)
Lemma shr_fexp_exact (e : Z) :
  e <= j - 53 ->
  exists e1,
    shr_fexp prec emax (c * 2 ^ (- e)) e loc_Exact =
      ({| shr_m := c * 2 ^ (- e1); shr_r := false; shr_s := false |}, e1) /\
    e1 <= j - 53.
Proof.
  intros He.
  pose proof (pow2_pos (- e) ltac:(lia)) as Hpe.
  assert (Hdig : Zdigits2 (c * 2 ^ (- e)) <= j - e).
  { apply Zdigits2_bound; try nia.
    replace (j - e) with (j + - e) by lia.
    rewrite pow2_split by lia. nia. }
  unfold shr_fexp, shr. rewrite fexp64. cbn [shr_record_of_loc].
  destruct (Z.max (Zdigits2 (c * 2 ^ (- e)) + e - 53) (-1074) - e) as [|p|p] eqn:Hn.
  - exists e. split; [reflexivity|assumption].
  - exists (e + Zpos p). split; [|lia].
    assert (Hsplit : c * 2 ^ (- e) = c * 2 ^ (- (e + Zpos p)) * 2 ^ Zpos p).
    { rewrite <- Z.mul_assoc, <- pow2_split by lia. do 2 f_equal. lia. }
    rewrite Hsplit at 1. rewrite iter_shr_1_exact; [reflexivity|].
    pose proof (pow2_pos (- (e + Zpos p)) ltac:(lia)). nia.
  - exists e. split; [reflexivity|assumption].
Qed.

(** Rounding a value of at most [c] gives at most [c]. *)
Lemma binary_round_aux_at_most (s : bool) (m e : Z) :
  0 <= m -> e <= j - 53 -> m <= c * 2 ^ (- e) ->
  magnitude_at_most c s (binary_round_aux prec emax s m e loc_Exact).
Proof.
  intros Hm He Hb.
  destruct (Z_lt_le_dec m (c * 2 ^ (- e))) as [Hlt|Hge].
  { now apply (binary_round_aux_below c j Hc Hj). }
  assert (Heq : m = c * 2 ^ (- e)) by lia. subst m.
  unfold binary_round_aux.
  destruct (shr_fexp_exact e He) as (e1 & -> & He1).
  cbn [shr_m loc_of_shr_record round_nearest_even].
  pose proof (pow2_pos (- e1) ltac:(lia)) as Hp1.
  pose proof (shr_fexp_bound c j Hc Hj (c * 2 ^ (- e1)) e1 loc_Exact 0
                ltac:(nia) He1 ltac:(lia) ltac:(lia)) as H2.
  destruct (shr_fexp prec emax (c * 2 ^ (- e1)) e1 loc_Exact) as [mrs2 e2].
  cbn [fst snd] in H2. destruct H2 as [[H2a H2b] H2c].
  destruct (shr_m mrs2) as [|p|p] eqn:Hm2; try lia.
  - left; reflexivity.
  - right. replace (e2 <=? emax - prec) with true
      by (symmetry; apply Z.leb_le; unfold emax, prec; lia).
    exists p, e2. repeat split; lia.
Qed.

Lemma new_location_exact (d : Z) : new_location d 0 = loc_Exact.
Proof. unfold new_location. destruct (Z.even d); reflexivity. Qed.

(** The division [n / d] of the library, for [n <= c * d]. *)
Lemma SFdiv_at_most (s : bool) (n d : positive) :
  Zpos n <= c * Zpos d ->
  magnitude_at_most c s
    (SFdiv prec emax (S754_finite s n 0) (S754_finite false d 0)).
Proof.
  intros Hle.
  destruct (Z_lt_le_dec (Zpos n) (c * Zpos d)) as [Hlt|Hge].
  { now apply (SFdiv_below c j Hc Hj). }
  assert (Heq : Zpos n = c * Zpos d) by lia.
  unfold SFdiv, SFdiv_core_binary. rewrite fexp64, xorb_false_r.
  set (e' := Z.min (Z.max (Zdigits2 (Zpos n) + 0 - (Zdigits2 (Zpos d) + 0) - 53)
                          (-1074)) (0 - 0)).
  assert (Hd : Zdigits2 (Zpos n) <= Zdigits2 (Zpos d) + j).
  { cbn [Zdigits2]. rewrite (digits2_pos_size n), (digits2_pos_size d).
    apply pos_size_bound; [lia|].
    pose proof (Pos.size_gt d) as Hgt.
    assert (Hgt' : Zpos d < 2 ^ Zpos (Pos.size d)).
    { rewrite <- Pos2Z.inj_pow. exact Hgt. }
    rewrite pow2_split by lia. nia. }
  assert (He' : e' <= j - 53) by (unfold e'; lia).
  assert (He0 : e' <= 0) by (unfold e'; lia).
  replace (0 - 0 - e') with (- e') by lia.
  pose proof (pow2_pos (- e') ltac:(lia)) as Hp.
  assert (Hdiv : Z.div_eucl (Zpos n * 2 ^ (- e')) (Zpos d) = (c * 2 ^ (- e'), 0)).
  { pose proof (Z_div_mod (Zpos n * 2 ^ (- e')) (Zpos d) ltac:(lia)) as Hdm.
    destruct (Z.div_eucl (Zpos n * 2 ^ (- e')) (Zpos d)) as [q r].
    destruct Hdm as [Hqr Hr]. rewrite Heq in Hqr.
    assert (Hq : q = c * 2 ^ (- e')) by nia.
    subst q. f_equal. nia. }
  destruct (- e') as [|p|p] eqn:Hs; try lia.
  - change (2 ^ 0) with 1 in Hdiv. rewrite Z.mul_1_r in Hdiv. rewrite Hdiv.
    rewrite new_location_exact.
    apply binary_round_aux_at_most; try lia.
    replace (- e') with 0 by lia. change (2 ^ 0) with 1. lia.
  - rewrite Z.shiftl_mul_pow2 by lia. rewrite Hdiv, new_location_exact.
    apply binary_round_aux_at_most; try nia.
    replace (- e') with (Zpos p) by lia. lia.
Qed.

End ExactBounds.

(** ** The rates are percentages *)

Section Percentages.
Import Text BlitzortungDecoder LightningDatabase Ingest Api.

Lemma float_of_int_hundred :
  float_of_int 100 = S754_finite false 7036874417766400 (-46).
Proof. reflexivity. Qed.

(** [stored / total * 100] for [0 <= stored <= total], [total] positive:
    the division raises nothing and the product is at most 100. *)
Lemma percent_rate (total stored : Z) :
  0 < total -> 0 <= stored <= total ->
  exists q, int_truediv stored total = Some q /\
            magnitude_at_most 100 false (fmul q (float_of_int 100)).
Proof.
  intros Ht Hs. unfold int_truediv.
  destruct total as [|pt|pt]; try lia.
  destruct stored as [|ps|ps]; try lia.
  - eexists; split; [reflexivity|]. left. reflexivity.
  - cbn [Z.abs Z.to_pos]. change (xorb (Zpos ps <? 0) (Zpos pt <? 0)) with false.
    pose proof (SFdiv_at_most 1 1 ltac:(change (2 ^ 1) with 2; lia) ltac:(lia)
                              false ps pt ltac:(lia)) as Hq.
    destruct (magnitude_at_most_finite _ _ _ Hq) as [Hinf _]. rewrite Hinf.
    eexists; split; [reflexivity|].
    destruct Hq as [->|(m & e & -> & He & Hm)]; [left; reflexivity|].
    rewrite float_of_int_hundred. unfold fmul. cbn [SFmul xorb].
    pose proof (pow2_pos (- e) ltac:(lia)) as Hp.
    apply (binary_round_aux_at_most 100 7);
      [change (2 ^ 7) with 128; lia | lia | lia | lia |].
    replace (- (e + -46)) with (- e + 46) by lia.
    rewrite pow2_split by lia. change (2 ^ 46) with 70368744177664.
    rewrite Pos2Z.inj_mul. nia.
Qed.

(** Rounding to two decimals keeps a rate within 0 and 100. *)
Lemma round2_at_most_hundred (x : float) :
  magnitude_at_most 100 false x -> magnitude_at_most 100 false (round2 x).
Proof.
  intros [->|(m & e & -> & He & Hm)]; [left; reflexivity|].
  unfold round2.
  assert (Hn : forall n, 0 <= n <= 10000 ->
                 magnitude_at_most 100 false (decimal_to_float false n 2)).
  { intros n Hn. unfold decimal_to_float. destruct n as [|p|p]; try lia.
    - left; reflexivity.
    - apply (SFdiv_at_most 100 7); [change (2 ^ 7) with 128; lia | lia |].
      change (Z.to_pos (10 ^ Z.of_nat 2)) with 100%positive. lia. }
  apply Hn. destruct e as [|p|p]; try lia; cbv beta iota.
  change (- Zneg p) with (Zpos p) in Hm.
  pose proof (pow2_pos (Zpos p) ltac:(lia)) as Hp.
  unfold round_half_even.
  pose proof (Z.div_mod (Zpos m * 100) (2 ^ Zpos p) ltac:(lia)) as Hdm.
  pose proof (Z.mod_pos_bound (Zpos m * 100) (2 ^ Zpos p) Hp) as Hr.
  set (q := Zpos m * 100 / 2 ^ Zpos p) in *.
  set (r := (Zpos m * 100) mod 2 ^ Zpos p) in *.
  assert (Hq0 : 0 <= q) by (apply Z.div_pos; lia).
  assert (Hq : q <= 10000) by (apply Z.div_le_upper_bound; lia).
  destruct (Z.compare_spec (2 * r) (2 ^ Zpos p)); [destruct (Z.even q)| |];
    try lia; nia.
Qed.

Lemma magnitude_between (c : Z) (x : float) :
  0 <= c -> magnitude_at_most c false x -> float_between 0 x c = true.
Proof.
  intros Hc [->|(m & e & -> & He & Hm)];
    unfold float_between, float_lt_int, float_gt_int; cbn [is_nan negb andb cmp_float_int].
  - change (0 ?= 0) with Eq. destruct (Z.compare_spec 0 c); try reflexivity; lia.
  - destruct e as [|p|p]; try lia.
    + change (2 ^ 0) with 1 in *. change (- 0) with 0 in Hm.
      destruct (Z.compare_spec (Zpos m * 1) 0), (Z.compare_spec (Zpos m * 1) c);
        try reflexivity; lia.
    + change (- Zneg p) with (Zpos p) in Hm.
      pose proof (pow2_pos (Zpos p) ltac:(lia)) as Hp.
      destruct (Z.compare_spec (Zpos m) (0 * 2 ^ Zpos p)),
               (Z.compare_spec (Zpos m) (c * 2 ^ Zpos p));
        try reflexivity; lia.
Qed.

Context {unicode : UnicodeData} {zone : LocalZone}.

(** The ingestion-health endpoint always answers a percentage for
    counters that make sense: with [0 <= total_stored <= total_received],
    whatever their size, it answers [200] and its [success_rate] is a
    number between 0 and 100; and the counters of every run of the
    handler from the initial state are such counters. *)
Theorem success_rate_is_a_percentage :
  (forall row,
      0 <= total_stored row <= total_received row ->
      exists rate,
        get_ingestion_stats (Some row) = Ok (row, rate) /\
        float_between 0 rate 100 = true) /\
  (forall now frames,
      exists rate,
        get_ingestion_stats (Some (stats (db (run (initial_world now) frames)))) =
          Ok (stats (db (run (initial_world now) frames)), rate) /\
        float_between 0 rate 100 = true).
Proof.
  assert (Hrow : forall row,
             0 <= total_stored row <= total_received row ->
             exists rate,
               get_ingestion_stats (Some row) = Ok (row, rate) /\
               float_between 0 rate 100 = true).
  { intros row Hs. unfold get_ingestion_stats, success_rate, raw_success_rate.
    destruct (Z.ltb_spec 0 (total_received row)) as [Hpos|Hzero].
    - replace (total_received row >? 0) with true
        by (symmetry; rewrite Z.gtb_ltb; apply Z.ltb_lt; lia).
      destruct (percent_rate _ _ Hpos Hs) as (q & -> & Hm).
      cbn [option_map]. eexists; split; [reflexivity|].
      apply magnitude_between; [lia|]. now apply round2_at_most_hundred.
    - replace (total_received row >? 0) with false
        by (symmetry; rewrite Z.gtb_ltb; apply Z.ltb_ge; lia).
      cbn [option_map round2]. eexists; split; reflexivity. }
  split; [exact Hrow|].
  intros now frames. apply Hrow.
  pose proof (run_invariant frames (initial_world now) eq_refl) as Hinv.
  pose proof (run_counters_agree frames 0 _ (initial_counters_agree now)) as H.
  unfold counters_agree in H. cbn zeta in H.
  unfold received, stored, failed in *. lia.
Qed.

(** [print_stats] never raises: for the decoder of every run of the
    handler from the initial state it logs its three counters and a rate
    that is a number between 0 and 100, so leaving the periodic call out
    of the handler loses nothing but the log line. *)
Theorem print_stats_logs_a_percentage
        (now : Z) (frames : list (store_reply * payload * Z)) :
  let d := decoder_state (run (initial_world now) frames) in
  exists rate,
    print_stats d =
      Some (sample_count d, successful_decodes d, failed_decodes d, rate) /\
    float_between 0 rate 100 = true.
Proof.
  cbn zeta.
  pose proof (run_counters_agree frames 0 _ (initial_counters_agree now)) as H.
  unfold counters_agree in H. cbn zeta in H.
  set (d := decoder_state (run (initial_world now) frames)) in *.
  unfold print_stats.
  destruct (Z.ltb_spec 0 (sample_count d)) as [Hpos|Hzero].
  - replace (sample_count d >? 0) with true
      by (symmetry; rewrite Z.gtb_ltb; apply Z.ltb_lt; lia).
    destruct (percent_rate (sample_count d) (successful_decodes d) Hpos ltac:(lia))
      as (q & -> & Hm).
    eexists; split; [reflexivity|]. apply magnitude_between; [lia|assumption].
  - replace (sample_count d >? 0) with false
      by (symmetry; rewrite Z.gtb_ltb; apply Z.ltb_ge; lia).
    eexists; split; reflexivity.
Qed.

End Percentages.

Section PercentagesExamples.
Import Text BlitzortungDecoder LightningDatabase Ingest Api.

(** The theorem at a row of counters beyond the INTEGER range, all
    stored: the rate is 100. *)
Lemma success_rate_is_a_percentage_witness :
  get_ingestion_stats
    (Some {| total_received := 10 ^ 30; total_stored := 10 ^ 30; total_failed := 0;
             last_strike_time := None; updated_at := 0 |}) =
    Ok ({| total_received := 10 ^ 30; total_stored := 10 ^ 30; total_failed := 0;
           last_strike_time := None; updated_at := 0 |}, float_of_int 100).
Proof.
  destruct (success_rate_is_a_percentage (unicode := ascii_data) (zone := utc)) as [Hrow _].
  destruct (Hrow {| total_received := 10 ^ 30; total_stored := 10 ^ 30;
                    total_failed := 0; last_strike_time := None; updated_at := 0 |})
    as (rate & Hget & _).
  - cbn [total_stored total_received]. split; [discriminate|apply Z.le_refl].
  - rewrite Hget. vm_compute in Hget. injection Hget as <-. reflexivity.
Defined.

End PercentagesExamples.

(** ** The queries of the endpoints *)

Section Queries.
Import Api.

(** Every query an endpoint sends has exactly as many [%s] placeholders
    as parameters go with it, whatever filters are given: [get_strikes]
    passes the filters that are given in the order of their clauses, then
    the limit and the offset; [get_strike_stats] the given ones of [since]
    and [until]; [get_recent_strikes] two parameters and
    [get_nearby_strikes] six. *)
Theorem queries_bind_every_placeholder :
  (forall limit offset since until min_lat max_lat min_lon max_lon,
      let q := strikes_query limit offset since until
                             min_lat max_lat min_lon max_lon in
      count_placeholders (fst q) = List.length (snd q) /\
      snd q =
        given SqlTimestamp since ++ given SqlTimestamp until ++
        given SqlFloat min_lat ++ given SqlFloat max_lat ++
        given SqlFloat min_lon ++ given SqlFloat max_lon ++
        [SqlInt limit; SqlInt offset]) /\
  (forall since until,
      let q := strike_stats_query since until in
      count_placeholders (fst q) = List.length (snd q) /\
      snd q = given SqlTimestamp since ++ given SqlTimestamp until) /\
  (forall utcnow minutes limit,
      let q := recent_strikes_query utcnow minutes limit in
      count_placeholders (fst q) = 2%nat /\ List.length (snd q) = 2%nat) /\
  (forall parameters,
      let q := nearby_strikes_query parameters in
      count_placeholders (fst q) = 6%nat /\ List.length (snd q) = 6%nat).
Proof.
  split; [|split; [|split]].
  - intros limit offset [s|] [u|] [a|] [b|] [c|] [d|]; split; reflexivity.
  - intros [s|] [u|]; split; reflexivity.
  - intros utcnow minutes limit. split; reflexivity.
  - intros parameters. split; reflexivity.
Qed.

End Queries.

(** ** The distance is symmetric *)

Section HaversineSymmetry.
Import Api.

Lemma binary_round_aux_opp (s : bool) (m e : Z) (l : location) :
  binary_round_aux prec emax (negb s) m e l =
    SFopp (binary_round_aux prec emax s m e l).
Proof.
  unfold binary_round_aux.
  destruct (shr_fexp prec emax m e l) as [mrs1 e1].
  destruct (shr_fexp prec emax _ e1 loc_Exact) as [mrs2 e2].
  destruct (shr_m mrs2); [reflexivity| |reflexivity].
  destruct (e2 <=? emax - prec); reflexivity.
Qed.

Lemma fmul_fneg_l (x y : float) : fmul (fneg x) y = fneg (fmul x y).
Proof.
  destruct x as [sx|sx| |sx mx ex], y as [sy|sy| |sy my ey];
    try reflexivity; try (destruct sx, sy; reflexivity).
  unfold fmul, fneg. cbn [SFmul SFopp].
  rewrite <- binary_round_aux_opp. f_equal. destruct sx, sy; reflexivity.
Qed.

Lemma fmul_comm (x y : float) : fmul x y = fmul y x.
Proof.
  destruct x as [sx|sx| |sx mx ex], y as [sy|sy| |sy my ey];
    try reflexivity; try (destruct sx, sy; reflexivity).
  unfold fmul. cbn [SFmul].
  rewrite (Pos.mul_comm mx my), (Z.add_comm ex ey), (xorb_comm sx sy). reflexivity.
Qed.

Lemma float_of_int_two : float_of_int 2 = S754_finite false 4503599627370496 (-51).
Proof. reflexivity. Qed.

Lemma fdiv_two_fneg (x : float) :
  fdiv (fneg x) (float_of_int 2) = option_map fneg (fdiv x (float_of_int 2)).
Proof.
  rewrite float_of_int_two. unfold fdiv. cbn [is_zero option_map]. f_equal.
  destruct x as [sx|sx| |sx mx ex]; try reflexivity; try (destruct sx; reflexivity).
  unfold fneg. cbn [SFdiv SFopp].
  destruct (SFdiv_core_binary prec emax (Zpos mx) ex 4503599627370496 (-51))
    as [[mz ez] lz].
  rewrite <- binary_round_aux_opp. f_equal. destruct sx; reflexivity.
Qed.

Lemma is_inf_fneg (x : float) : is_inf (fneg x) = is_inf x.
Proof. destruct x; reflexivity. Qed.

Lemma is_finite_fneg (x : float) : is_finite (fneg x) = is_finite x.
Proof. destruct x; reflexivity. Qed.

(** [math] wraps an odd function into an odd function. *)
Lemma math_1_odd (f : float -> float) (x : float) :
  (forall y, f (fneg y) = fneg (f y)) ->
  math_1 f (fneg x) = option_map fneg (math_1 f x).
Proof.
  intros Hodd. unfold math_1. rewrite Hodd.
  rewrite !is_nan_fneg, is_inf_fneg, is_finite_fneg.
  destruct (is_nan (f x) && negb (is_nan x)); [reflexivity|].
  destruct (is_inf (f x) && is_finite x); reflexivity.
Qed.

Context {libm : Libm}.

Lemma square_fneg (x : float) : square (fneg x) = square x.
Proof. destruct x; reflexivity. Qed.

(** The subtraction the other way round gives the opposite, or the same
    zero or NaN. *)
Lemma fsub_swap (x y : float) :
  fsub y x = fneg (fsub x y) \/ fsub y x = fsub x y.
Proof.
  destruct x as [sx|sx| |sx mx ex], y as [sy|sy| |sy my ey];
    try (right; reflexivity); try (left; reflexivity);
    try (destruct sx, sy; (left; reflexivity) || (right; reflexivity)).
  unfold fsub, fneg. cbn [SFsub]. rewrite (Z.min_comm ey ex).
  set (a := cond_Zopp sx (Zpos (fst (shl_align mx ex (Z.min ex ey))))).
  set (b := cond_Zopp sy (Zpos (fst (shl_align my ey (Z.min ex ey))))).
  replace (b - a) with (- (a - b)) by lia.
  destruct (a - b) as [|p|p]; [right; reflexivity| |]; left;
    cbn [Z.opp binary_normalize]; unfold binary_round;
    destruct (shl_align p (Z.min ex ey) _) as [mz ez];
    [apply (binary_round_aux_opp false) |].
  change false with (negb true) at 1.
  rewrite binary_round_aux_opp. 
  destruct (binary_round_aux prec emax true (Z.pos mz) ez loc_Exact) as [s|s| |s m e];
    try reflexivity; destruct s; reflexivity.
Qed.

(** The term [sin(d/2)**2] of the formula is the same for a difference
    and for its opposite, when the sine of the C library is odd. *)
Lemma half_square_fneg (d : float) (k : float -> option float) :
  (forall y, c_sin (fneg y) = fneg (c_sin y)) ->
  (half <- fdiv (math_radians (fneg d)) (float_of_int 2) ;;
   s <- math_sin half ;; t <- square s ;; k t) =
  (half <- fdiv (math_radians d) (float_of_int 2) ;;
   s <- math_sin half ;; t <- square s ;; k t).
Proof.
  intros Hodd. unfold math_radians. rewrite fmul_fneg_l, fdiv_two_fneg.
  destruct (fdiv (fmul d degToRad) (float_of_int 2)) as [h|]; [|reflexivity].
  cbn [option_map bind]. unfold math_sin. rewrite (math_1_odd c_sin h Hodd).
  destruct (math_1 c_sin h) as [s|]; [|reflexivity].
  cbn [option_map bind]. rewrite square_fneg. reflexivity.
Qed.

Lemma bind_ext {A B : Type} (a : option A) (f g : A -> option B) :
  (forall x, f x = g x) -> bind a f = bind a g.
Proof. intros H. destruct a; [apply H|reflexivity]. Qed.

(** [haversine_distance] gives the same distance, or raises alike, from
    a first point to a second and from the second to the first, for every
    C library whose sine is odd. *)
Theorem haversine_distance_symmetric (lat1 lon1 lat2 lon2 : float) :
  (forall y, c_sin (fneg y) = fneg (c_sin y)) ->
  haversine_distance lat1 lon1 lat2 lon2 = haversine_distance lat2 lon2 lat1 lon1.
Proof.
  intros Hodd.
  assert (Hterm : forall a b (k : float -> option float),
             (half <- fdiv (math_radians (fsub a b)) (float_of_int 2) ;;
              s <- math_sin half ;; t <- square s ;; k t) =
             (half <- fdiv (math_radians (fsub b a)) (float_of_int 2) ;;
              s <- math_sin half ;; t <- square s ;; k t)).
  { intros a b k. destruct (fsub_swap b a) as [E|E]; rewrite E;
      [apply half_square_fneg; exact Hodd | reflexivity]. }
  unfold haversine_distance. cbv zeta.
  rewrite (Hterm lat2 lat1).
  apply bind_ext; intros half. apply bind_ext; intros s1. apply bind_ext; intros t1.
  destruct (math_cos (math_radians lat1)) as [c1|],
           (math_cos (math_radians lat2)) as [c2|]; cbn [bind]; try reflexivity.
  rewrite (Hterm lon2 lon1).
  apply bind_ext; intros half'. apply bind_ext; intros s2. apply bind_ext; intros t2.
  rewrite (fmul_comm c1 c2). reflexivity.
Qed.

End HaversineSymmetry.

Section HaversineSymmetryExamples.
Import Api.

(** The theorem at the points (0, 0) and (1e-7, 0) with the small-angle
    library. *)
Lemma haversine_distance_symmetric_witness :
  haversine_distance (libm := small_angle_libm)
    (decimal_to_float false 1 7) (S754_zero false) (S754_zero false) (S754_zero false) =
    Some (S754_finite false 6563789933142663 (-69)).
Proof.
  rewrite (haversine_distance_symmetric (libm := small_angle_libm)
             (decimal_to_float false 1 7) (S754_zero false)
             (S754_zero false) (S754_zero false) (fun y => eq_refl)).
  reflexivity.
Defined.

End HaversineSymmetryExamples.

(** ** The distance from a point to itself *)

Section HaversineSelf.
Import Api.

Lemma degToRad_value : degToRad = S754_finite false 5030569068109113 (-58).
Proof. vm_compute. reflexivity. Qed.

Lemma fsub_self (x : float) : is_finite x = true -> fsub x x = S754_zero false.
Proof.
  destruct x as [s|s| |s m e]; try discriminate; intros _.
  - destruct s; reflexivity.
  - unfold fsub. cbn [SFsub]. rewrite Z.sub_diag. reflexivity.
Qed.

(** A float between [-n] and [n] is a zero or a finite number of
    magnitude at most [n]. *)
Lemma between_magnitude (n : Z) (x : float) :
  float_between (- n) x n = true ->
  (exists s, x = S754_zero s) \/
  (exists s m e, x = S754_finite s m e /\
     match e with
     | Zneg p => Zpos m <= n * 2 ^ Zpos p
     | _ => Zpos m * 2 ^ e <= n
     end).
Proof.
  unfold float_between, float_lt_int, float_gt_int.
  destruct x as [s|s| |s m e]; cbn [is_nan negb andb cmp_float_int];
    try discriminate.
  - intros _. left. now exists s.
  - destruct s; discriminate.
  - intros H. right. exists s, m, e. split; [reflexivity|].
    destruct e as [|p|p].
    + destruct s;
        destruct (Z.compare_spec (Zneg m * 2 ^ 0) (- n)),
                 (Z.compare_spec (Zneg m * 2 ^ 0) n),
                 (Z.compare_spec (Zpos m * 2 ^ 0) (- n)),
                 (Z.compare_spec (Zpos m * 2 ^ 0) n);
        try discriminate; lia.
    + destruct s;
        destruct (Z.compare_spec (Zneg m * 2 ^ Zpos p) (- n)),
                 (Z.compare_spec (Zneg m * 2 ^ Zpos p) n),
                 (Z.compare_spec (Zpos m * 2 ^ Zpos p) (- n)),
                 (Z.compare_spec (Zpos m * 2 ^ Zpos p) n);
        try discriminate; lia.
    + destruct s;
        destruct (Z.compare_spec (Zneg m) (- n * 2 ^ Zpos p)),
                 (Z.compare_spec (Zneg m) (n * 2 ^ Zpos p)),
                 (Z.compare_spec (Zpos m) (- n * 2 ^ Zpos p)),
                 (Z.compare_spec (Zpos m) (n * 2 ^ Zpos p));
        try discriminate; lia.
Qed.

(** A latitude within its bounds has finite radians. *)
Lemma radians_of_latitude_finite (lat : float) :
  float_between (-90) lat 90 = true -> is_finite (math_radians lat) = true.
Proof.
  intros Hb. change (-90) with (- (90)) in Hb.
  apply between_magnitude in Hb as [[s ->]|(s & m & e & -> & Hm)].
  - unfold math_radians. rewrite degToRad_value. reflexivity.
  - unfold math_radians, fmul. rewrite degToRad_value. cbn [SFmul].
    assert (Hmag : magnitude_at_most 2 (xorb s false)
                     (binary_round_aux prec emax (xorb s false)
                        (Zpos (m * 5030569068109113)) (e + -58) loc_Exact)).
    { rewrite Pos2Z.inj_mul.
      destruct e as [|p|p].
      - change (2 ^ 0) with 1 in Hm.
        apply (binary_round_aux_below 2 2);
          [change (2 ^ 2) with 4; lia | lia | lia | lia |].
        change (2 ^ (- (0 + -58))) with 288230376151711744. lia.
      - pose proof (pow2_pos (Zpos p) ltac:(lia)) as Hp.
        assert (Hp7 : Zpos p < 7).
        { destruct (Z_lt_le_dec (Zpos p) 7) as [|Hge]; [assumption|exfalso].
          pose proof (Z.pow_le_mono_r 2 7 (Zpos p) ltac:(lia) Hge) as Hpow.
          change (2 ^ 7) with 128 in Hpow. nia. }
        apply (binary_round_aux_below 2 2);
          [change (2 ^ 2) with 4; lia | lia | lia | lia |].
        replace (- (Zpos p + -58)) with (58 - Zpos p) by lia.
        assert (Hsplit : 2 ^ (58 - Zpos p) * 2 ^ Zpos p = 288230376151711744).
        { rewrite <- pow2_split by lia.
          replace (58 - Zpos p + Zpos p) with 58 by lia. reflexivity. }
        pose proof (pow2_pos (58 - Zpos p) ltac:(lia)) as Hq.
        apply (Z.mul_lt_mono_pos_r (2 ^ Zpos p)); [assumption|]. nia.
      - pose proof (pow2_pos (Zpos p) ltac:(lia)) as Hp.
        apply (binary_round_aux_below 2 2);
          [change (2 ^ 2) with 4; lia | lia | lia | lia |].
        replace (- (Zneg p + -58)) with (Zpos p + 58) by lia.
        rewrite pow2_split by lia. change (2 ^ 58) with 288230376151711744. nia. }
    destruct Hmag as [->|(m' & e' & -> & _)]; reflexivity.
Qed.

(** A number of magnitude at most one. *)
Lemma unit_magnitude (x : float) :
  float_le_int (fabs x) 1 = true -> exists s, magnitude_at_most 1 s x.
Proof.
  unfold float_le_int. destruct x as [s|s| |s m e]; cbn [fabs SFabs cmp_float_int];
    try discriminate.
  - intros _. exists s. left. reflexivity.
  - intros H. exists s. right. exists m, e. split; [reflexivity|].
    destruct e as [|p|p].
    + change (2 ^ 0) with 1 in *. change (- 0) with 0. change (2 ^ 0) with 1.
      destruct (Z.compare_spec (Zpos m * 1) 1); try discriminate; lia.
    + exfalso. pose proof (pow2_pos (Zpos p) ltac:(lia)) as Hp.
      assert (2 <= 2 ^ Zpos p).
      { change 2 with (2 ^ 1) at 1. apply Z.pow_le_mono_r; lia. }
      destruct (Z.compare_spec (Zpos m * 2 ^ Zpos p) 1); try discriminate; nia.
    + change (- Zneg p) with (Zpos p).
      destruct (Z.compare_spec (Zpos m) (1 * 2 ^ Zpos p)); try discriminate; lia.
Qed.

(** The product of two cosines times a zero is the zero. *)
Lemma cosines_times_zero (c1 c2 : float) :
  float_le_int (fabs c1) 1 = true -> c2 = c1 ->
  fmul (fmul c1 c2) (S754_zero false) = S754_zero false.
Proof.
  intros H ->. destruct (unit_magnitude c1 H) as [s [->|(m & e & -> & He & Hm)]].
  - destruct s; reflexivity.
  - unfold fmul at 2. cbn [SFmul]. rewrite xorb_nilpotent.
    pose proof (pow2_pos (- e) ltac:(lia)) as Hp.
    assert (Hmag : magnitude_at_most 1 false
                     (binary_round_aux prec emax false (Zpos (m * m)) (e + e)
                        loc_Exact)).
    { apply (binary_round_aux_at_most 1 53);
        [change (2 ^ 53) with 9007199254740992; lia | lia | lia | lia |].
      replace (- (e + e)) with (- e + - e) by lia.
      rewrite pow2_split by lia. rewrite Pos2Z.inj_mul. nia. }
    destruct Hmag as [->|(m' & e' & -> & _)]; reflexivity.
Qed.

(** A radius the endpoint accepts is at least the zero. *)
Lemma zero_le_radius (radius : float) :
  float_between 1 radius 500 = true -> float_le (S754_zero false) radius = true.
Proof.
  unfold float_between, float_lt_int, float_gt_int.
  destruct radius as [s|s| |s m e]; cbn [is_nan negb andb cmp_float_int];
    try discriminate.
  - destruct s; [discriminate|reflexivity].
  - destruct s; [|reflexivity].
    destruct e as [|p|p].
    + destruct (Z.compare_spec (Zneg m * 2 ^ 0) 1); try discriminate; lia.
    + pose proof (pow2_pos (Zpos p) ltac:(lia)).
      destruct (Z.compare_spec (Zneg m * 2 ^ Zpos p) 1); try discriminate; nia.
    + pose proof (pow2_pos (Zpos p) ltac:(lia)).
      destruct (Z.compare_spec (Zneg m) (1 * 2 ^ Zpos p)); try discriminate; lia.
Qed.

Context {libm : Libm}.
Hypothesis sin_zero : c_sin (S754_zero false) = S754_zero false.
Hypothesis asin_zero : c_asin (S754_zero false) = S754_zero false.
Hypothesis cos_bounded :
  forall x, is_finite x = true -> float_le_int (fabs (c_cos x)) 1 = true.

Lemma math_cos_bounded (x : float) :
  is_finite x = true ->
  math_cos x = Some (c_cos x) /\ float_le_int (fabs (c_cos x)) 1 = true.
Proof.
  intros Hx. pose proof (cos_bounded x Hx) as Hc. split; [|exact Hc].
  unfold math_cos, math_1.
  destruct (c_cos x) as [s|s| |s m e]; try discriminate Hc; reflexivity.
Qed.

Lemma haversine_self (lat lon : float) :
  float_between (-90) lat 90 = true -> is_finite lon = true ->
  haversine_distance lat lon lat lon = Some (S754_zero false).
Proof.
  intros Hlat Hlon.
  assert (Hfin : is_finite lat = true).
  { change (-90) with (- (90)) in Hlat.
    apply between_magnitude in Hlat as [[s ->]|(s & m & e & -> & _)]; reflexivity. }
  destruct (math_cos_bounded _ (radians_of_latitude_finite lat Hlat)) as [Hcos Hc].
  assert (Hhalf : forall k : float -> option float,
             (half <- fdiv (math_radians (S754_zero false)) (float_of_int 2) ;;
              s <- math_sin half ;; t <- square s ;; k t) = k (S754_zero false)).
  { intros k. unfold math_radians. rewrite degToRad_value.
    change (fdiv (fmul (S754_zero false) (S754_finite false 5030569068109113 (-58)))
                 (float_of_int 2)) with (Some (S754_zero false)).
    cbn [bind]. unfold math_sin, math_1. rewrite sin_zero. reflexivity. }
  unfold haversine_distance. cbv zeta.
  rewrite (fsub_self lat Hfin), (fsub_self lon Hlon), Hhalf, Hcos.
  cbn [bind]. rewrite Hhalf.
  rewrite (cosines_times_zero _ _ Hc eq_refl).
  change (fadd (S754_zero false) (S754_zero false)) with (S754_zero false).
  change (math_sqrt (S754_zero false)) with (Some (S754_zero false)).
  cbn [bind]. unfold math_asin, math_1. rewrite asin_zero. reflexivity.
Qed.

(** The distance from a point of valid latitude to itself is exactly
    zero, for every C library with [sin(0) = 0], [asin(0) = 0] and
    [|cos x| <= 1]; so a strike stored at the very centre of a proximity
    query passes the filter for every radius the endpoint accepts, with
    [distance_km] zero. *)
Theorem strike_at_centre_is_kept
        (lat lon radius : float) (strike : strike_row) (rest : list strike_row) :
  float_between (-90) lat 90 = true ->
  float_between (-180) lon 180 = true ->
  float_between 1 radius 500 = true ->
  latitude strike = lat -> longitude strike = lon ->
  haversine_distance lat lon lat lon = Some (S754_zero false) /\
  filter_by_distance lat lon radius (strike :: rest) =
    option_map (cons (set_distance_km strike (S754_zero false)))
               (filter_by_distance lat lon radius rest).
Proof.
  intros Hlat Hlon Hrad Hsl Hso.
  assert (Hfin : is_finite lon = true).
  { change (-180) with (- (180)) in Hlon.
    apply between_magnitude in Hlon as [[s ->]|(s & m & e & -> & _)]; reflexivity. }
  pose proof (haversine_self lat lon Hlat Hfin) as Hself.
  split; [exact Hself|].
  cbn [filter_by_distance]. rewrite Hsl, Hso, Hself. cbn [bind].
  destruct (filter_by_distance lat lon radius rest) as [kept|]; [|reflexivity].
  cbn [bind option_map]. rewrite (zero_le_radius radius Hrad). reflexivity.
Qed.

End HaversineSelf.

Section HaversineSelfExamples.
Import Api.

(** The theorem at the centre (0.0000001, 0) with radius 50 km, the
    small-angle library and a row at the centre. *)
Lemma strike_at_centre_is_kept_witness :
  filter_by_distance (libm := small_angle_libm)
    (decimal_to_float false 1 7) (S754_zero false) (float_of_int 50) [row_near] =
    Some [set_distance_km row_near (S754_zero false)].
Proof.
  destruct (strike_at_centre_is_kept (libm := small_angle_libm)
              eq_refl eq_refl (fun x _ => eq_refl)
              (decimal_to_float false 1 7) (S754_zero false) (float_of_int 50)
              row_near [] eq_refl eq_refl eq_refl eq_refl eq_refl) as [_ H].
  rewrite H. reflexivity.
Defined.

End HaversineSelfExamples.

(** ** The rows of a proximity answer *)

Section NearbyRows.
Import Api.
Context {libm : Libm}.
Variable select_strikes : nearby_query -> option (list strike_row).




End NearbyRows.

Section NearbyRowsExamples.
Import Api.


End NearbyRowsExamples.

(** ** The handler only appends *)

Section AppendOnly.
Import Text BlitzortungDecoder LightningDatabase Ingest.
Context {unicode : UnicodeData} {zone : LocalZone}.

Lemma run_appends (frames : list (store_reply * payload * Z)) : forall w,
  exists added,
    lightning_strikes (db (run w frames)) = lightning_strikes (db w) ++ added /\
    (List.length added <= List.length frames)%nat.
Proof.
  induction frames as [|[[reply data] opcode] rest IH]; intros w; cbn [run].
  - exists []. split; [now rewrite app_nil_r | cbn; lia].
  - destruct (IH (on_data reply w data opcode)) as (added & Heq & Hlen).
    rewrite on_data_rows in Heq.
    eexists. rewrite Heq, <- app_assoc. split; [reflexivity|].
    rewrite length_app. cbn [List.length].
    destruct (snd (decode_payload (decoder_state w) (frame_raw data opcode)));
      [destruct (insert_accepted reply)|]; cbn [List.length]; lia.
Qed.

(** The handler never removes, changes or reorders a stored row: after
    any frames the rows of [lightning_strikes] are the rows before
    followed by the new ones, at most one for a frame; a frame that
    decodes and whose [INSERT] the store takes adds exactly its record,
    every other frame adds nothing. *)
Theorem handler_only_appends_rows :
  (forall w frames,
      exists added,
        lightning_strikes (db (run w frames)) = lightning_strikes (db w) ++ added /\
        (List.length added <= List.length frames)%nat) /\
  (forall reply w data opcode,
      lightning_strikes (db (on_data reply w data opcode)) =
        lightning_strikes (db w) ++
        match snd (decode_payload (decoder_state w) (frame_raw data opcode)) with
        | Some strike => if insert_accepted reply then [strike] else []
        | None => []
        end).
Proof.
  split.
  - intros w frames. apply run_appends.
  - intros reply w data opcode. apply on_data_rows.
Qed.

End AppendOnly.

(** ** The range of a timestamp *)

Section TimestampRange.
Import Text BlitzortungDecoder.
Context {unicode : UnicodeData} {zone : LocalZone}.








End TimestampRange.

Section TimestampRangeExamples.
Import Text BlitzortungDecoder.


End TimestampRangeExamples.
